(** * Event knowledge graph: repository and graph operations

    A shallow embedding of [src/ekg/models.py], [src/ekg/repository.py] and
    the aggregate part of [src/ekg/graph_ops.py].

    Conventions of the embedding:
    - Python [int] is [Z]; the columns declared [Integer] hold a [Z].
    - Python [float] is IEEE 754 binary64.  A finite float is the
      rational [Q] it denotes, in lowest terms; each operation returns the
      exact result rounded to the nearest float, ties to the even mantissa
      ([Float.fl]), and [round(x, 2)] is the float nearest to the decimal
      rounding of [x] to two places.  The columns declared [Integer] hold
      64-bit values, far from the overflow threshold of a float, so
      infinities and NaN are left out.
    - [datetime.utcnow()] is an explicit argument [now] of each operation
      that reads the clock.
    - A table is the list of its rows in insertion order; a session
      [commit] is the returned store.  A query without ORDER BY returns its
      rows in an order the engine chooses: the embedding lists them in
      table order, and what is stated of such a result is stated up to
      the order of its rows.
    - A [str] is the sequence of the bytes of its UTF-8 encoding; slices
      count characters.
    - What the code leaves to the database engine (foreign-key enforcement,
      the order of rows with equal sort keys, a negative [LIMIT]) is a
      field of [Engine]. *)

From Stdlib Require Import ZArith QArith Qround Qabs Qpower.
From Stdlib Require Import List String Ascii Bool Lia Lqa.
From Stdlib Require Import Permutation Sorted.
From Stdlib Require Import DecimalString DecimalZ DecimalPos OrderedTypeEx.
Import ListNotations.

Open Scope Z_scope.

(** ** Python values *)

Set Warnings "-register-all".

(** Values of the [JSON] columns and of the [Dict[str, Any]] results. *)
Inductive PyValue : Type :=
| PyNone
| PyBool (b : bool)
| PyInt (z : Z)
| PyFloat (q : Q)
| PyStr (s : string)
| PyList (l : list PyValue)
| PyDict (d : list (string * PyValue)).

Definition Dict : Type := list (string * PyValue).

(** Python truth value, as tested by [if x:] and [x or y]. *)
Definition truthy (v : PyValue) : bool :=
  match v with
  | PyNone => false
  | PyBool b => b
  | PyInt z => negb (z =? 0)
  | PyFloat q => negb (Qeq_bool q 0)
  | PyStr s => negb (String.eqb s EmptyString)
  | PyList l => match l with [] => false | _ => true end
  | PyDict d => match d with [] => false | _ => true end
  end.

(** [d[k]], [None] when the key is absent. *)
Fixpoint dict_get (k : string) (d : Dict) : option PyValue :=
  match d with
  | [] => None
  | (k', v) :: d' => if String.eqb k k' then Some v else dict_get k d'
  end.

(** The number an [int] or a [float] stands for, as [==] compares them. *)
Definition number_value (v : PyValue) : option Q :=
  match v with
  | PyInt z => Some (inject_Z z)
  | PyFloat q => Some q
  | _ => None
  end.

Definition datetime : Type := Z.

(** A column default: used when the constructor was not given the field. *)
Definition column_default {A : Type} (dflt : A) (given : option A) : A :=
  match given with
  | Some v => v
  | None => dflt
  end.

(** ** Python floats *)

Module Float.
(** The integer nearest to [q], ties to the even one. *)
Definition round_half_even (q : Q) : Z :=
  let f := Qfloor q in
  match (q - inject_Z f ?= 1 # 2)%Q with
  | Lt => f
  | Gt => f + 1
  | Eq => if Z.even f then f else f + 1
  end.

(** The binary exponent of a positive [x]: the [k] with
    [2^k <= x < 2^(k+1)]. *)
Definition ilog2 (x : Q) : Z :=
  let k := Z.log2 (Qnum x) - Z.log2 (Zpos (Qden x)) in
  if Qle_bool (2 ^ k) x then k else k - 1.

(** The exponent of the smallest positive float, [2^-1074]. *)
Definition emin : Z := -1074.

(** The exponent of the last place of the floats around [x]: 52 below
    the binary exponent of [x], and [emin] for the subnormal ones. *)
Definition exponent (x : Q) : Z := Z.max emin (ilog2 (Qabs x) - 52).

(** The float nearest to [x], ties to the even mantissa. *)
Definition fl (x : Q) : Q :=
  let x := Qred x in
  if Qeq_bool x 0 then 0%Q
  else
    let e := exponent x in
    Qred (inject_Z (round_half_even (x / 2 ^ e)) * 2 ^ e).

(** [x + y], [x - y] and [x * y] of two floats. *)
Definition add (x y : Q) : Q := fl (x + y).
Definition sub (x y : Q) : Q := fl (x - y).
Definition mul (x y : Q) : Q := fl (x * y).

(** [a / b] of two integers: the quotient, correctly rounded.  The code
    divides by a length or a count it has tested to be positive. *)
Definition truediv (a b : Z) : Q := fl (inject_Z a / inject_Z b).

(** [round(x, 2)]: the float nearest to the two-place decimal nearest to
    [x], a tie between two decimals going to the even one. *)
Definition round2 (x : Q) : Q := fl (round_half_even (x * 100) # 100).

(** The literals [0.7] and [0.3]. *)
Definition c0_7 : Q := fl (7 # 10).
Definition c0_3 : Q := fl (3 # 10).

(** The floats: a mantissa of at most 53 bits at an exponent from [emin]
    on. *)
Definition representable (a : Q) : Prop :=
  exists m e : Z,
    (a == inject_Z m * 2 ^ e)%Q /\ Z.abs m <= 2 ^ 53 /\ emin <= e.
End Float.

(** ** models.py *)

Module SourceType.
Inductive t : Type :=
| OFFICIAL_MEDIA | SOCIAL_MEDIA | NEWS_OUTLET | BLOG | FORUM | ANONYMOUS
| UNKNOWN.

Definition value (x : t) : string :=
  match x with
  | OFFICIAL_MEDIA => "official_media"
  | SOCIAL_MEDIA => "social_media"
  | NEWS_OUTLET => "news_outlet"
  | BLOG => "blog"
  | FORUM => "forum"
  | ANONYMOUS => "anonymous"
  | UNKNOWN => "unknown"
  end%string.
End SourceType.

Module EventStatus.
Inductive t : Type := DEVELOPING | INVESTIGATED | VERIFIED | REFUTED.

Definition value (x : t) : string :=
  match x with
  | DEVELOPING => "developing"
  | INVESTIGATED => "investigated"
  | VERIFIED => "verified"
  | REFUTED => "refuted"
  end%string.
End EventStatus.

Module ClaimStatus.
Inductive t : Type := PENDING | VERIFIED | REFUTED | UNVERIFIABLE.

Definition value (x : t) : string :=
  match x with
  | PENDING => "pending"
  | VERIFIED => "verified"
  | REFUTED => "refuted"
  | UNVERIFIABLE => "unverifiable"
  end%string.

Definition eqb (x y : t) : bool :=
  match x, y with
  | PENDING, PENDING | VERIFIED, VERIFIED | REFUTED, REFUTED
  | UNVERIFIABLE, UNVERIFIABLE => true
  | _, _ => false
  end.
End ClaimStatus.

Module Source.
Record t : Type := mk {
  id : Z;
  name : string;
  type : SourceType.t;
  credit_score : Z;
  url : option string;
  description : option string;
  metadata : PyValue;
  total_claims : Z;
  verified_claims : Z;
  refuted_claims : Z;
  created_at : datetime;
  updated_at : datetime
}.

(** Keyword arguments a caller may hand to the constructor on top of
    [name] and [type]. *)
Record kwargs : Type := mk_kwargs {
  kw_credit_score : option Z;
  kw_url : option string;
  kw_description : option string;
  kw_metadata : option PyValue;
  kw_total_claims : option Z;
  kw_verified_claims : option Z;
  kw_refuted_claims : option Z
}.

Definition no_kwargs : kwargs :=
  mk_kwargs None None None None None None None.

(** The row an INSERT makes of [Source(name=..., type=..., **kw)]:
    the primary key comes from the sequence, unset columns take their
    declared default. *)
Definition insert_row (new_id : Z) (now : datetime) (nm : string)
    (ty : SourceType.t) (kw : kwargs) : t :=
  {| id := new_id;
     name := nm;
     type := ty;
     credit_score := column_default 50 (kw_credit_score kw);
     url := kw_url kw;
     description := kw_description kw;
     metadata := column_default (PyDict []) (kw_metadata kw);
     total_claims := column_default 0 (kw_total_claims kw);
     verified_claims := column_default 0 (kw_verified_claims kw);
     refuted_claims := column_default 0 (kw_refuted_claims kw);
     created_at := now;
     updated_at := now |}.

Definition set_credit_score (v : Z) (s : t) : t :=
  mk (id s) (name s) (type s) v (url s) (description s) (metadata s)
     (total_claims s) (verified_claims s) (refuted_claims s)
     (created_at s) (updated_at s).

Definition set_total_claims (v : Z) (s : t) : t :=
  mk (id s) (name s) (type s) (credit_score s) (url s) (description s)
     (metadata s) v (verified_claims s) (refuted_claims s)
     (created_at s) (updated_at s).

Definition set_verified_claims (v : Z) (s : t) : t :=
  mk (id s) (name s) (type s) (credit_score s) (url s) (description s)
     (metadata s) (total_claims s) v (refuted_claims s)
     (created_at s) (updated_at s).

Definition set_refuted_claims (v : Z) (s : t) : t :=
  mk (id s) (name s) (type s) (credit_score s) (url s) (description s)
     (metadata s) (total_claims s) (verified_claims s) v
     (created_at s) (updated_at s).

Definition set_updated_at (v : datetime) (s : t) : t :=
  mk (id s) (name s) (type s) (credit_score s) (url s) (description s)
     (metadata s) (total_claims s) (verified_claims s) (refuted_claims s)
     (created_at s) v.
End Source.

Module Event.
Record t : Type := mk {
  id : string;
  status : EventStatus.t;
  title : option string;
  description : option string;
  credibility_score : Q;
  heat_score : Q;
  tags : PyValue;
  category : option string;
  metadata : PyValue;
  created_at : datetime;
  updated_at : datetime
}.

Record kwargs : Type := mk_kwargs {
  kw_status : option EventStatus.t;
  kw_title : option string;
  kw_description : option string;
  kw_credibility_score : option Q;
  kw_heat_score : option Q;
  kw_tags : option PyValue;
  kw_category : option string;
  kw_metadata : option PyValue
}.

Definition no_kwargs : kwargs :=
  mk_kwargs None None None None None None None None.

Definition insert_row (now : datetime) (event_id : string) (kw : kwargs)
    : t :=
  {| id := event_id;
     status := column_default EventStatus.DEVELOPING (kw_status kw);
     title := kw_title kw;
     description := kw_description kw;
     credibility_score := column_default 50%Q (kw_credibility_score kw);
     heat_score := column_default 0%Q (kw_heat_score kw);
     tags := column_default (PyList []) (kw_tags kw);
     category := kw_category kw;
     metadata := column_default (PyDict []) (kw_metadata kw);
     created_at := now;
     updated_at := now |}.

Definition set_status (v : EventStatus.t) (e : t) : t :=
  mk (id e) v (title e) (description e) (credibility_score e)
     (heat_score e) (tags e) (category e) (metadata e) (created_at e)
     (updated_at e).

Definition set_credibility_score (v : Q) (e : t) : t :=
  mk (id e) (status e) (title e) (description e) v (heat_score e)
     (tags e) (category e) (metadata e) (created_at e) (updated_at e).

Definition set_updated_at (v : datetime) (e : t) : t :=
  mk (id e) (status e) (title e) (description e) (credibility_score e)
     (heat_score e) (tags e) (category e) (metadata e) (created_at e) v.
End Event.

Module Claim.
Record t : Type := mk {
  id : Z;
  text : string;
  status : ClaimStatus.t;
  event_id : option string;
  source_id : Z;
  verification_result : PyValue;
  claim_type : option string;
  entities : PyValue;
  metadata : PyValue;
  timestamp : datetime;
  created_at : datetime
}.

Record kwargs : Type := mk_kwargs {
  kw_status : option ClaimStatus.t;
  kw_verification_result : option PyValue;
  kw_claim_type : option string;
  kw_entities : option PyValue;
  kw_metadata : option PyValue;
  kw_timestamp : option datetime
}.

Definition no_kwargs : kwargs := mk_kwargs None None None None None None.

Definition insert_row (new_id : Z) (now : datetime) (txt : string)
    (sid : Z) (eid : option string) (kw : kwargs) : t :=
  {| id := new_id;
     text := txt;
     status := column_default ClaimStatus.PENDING (kw_status kw);
     event_id := eid;
     source_id := sid;
     verification_result :=
       column_default (PyDict []) (kw_verification_result kw);
     claim_type := kw_claim_type kw;
     entities := column_default (PyList []) (kw_entities kw);
     metadata := column_default (PyDict []) (kw_metadata kw);
     timestamp := column_default now (kw_timestamp kw);
     created_at := now |}.

Definition set_status (v : ClaimStatus.t) (c : t) : t :=
  mk (id c) (text c) v (event_id c) (source_id c) (verification_result c)
     (claim_type c) (entities c) (metadata c) (timestamp c) (created_at c).

Definition set_verification_result (v : PyValue) (c : t) : t :=
  mk (id c) (text c) (status c) (event_id c) (source_id c) v
     (claim_type c) (entities c) (metadata c) (timestamp c) (created_at c).
End Claim.

Module ClaimRefutation.
Record t : Type := mk {
  id : Z;
  refuting_claim_id : Z;
  refuted_claim_id : Z;
  confidence : Q;
  evidence : PyValue;
  created_at : datetime
}.
End ClaimRefutation.

(** ** The database behind the session *)

Inductive exn : Type :=
| IntegrityError   (* a constraint of the schema is violated at commit *)
| DataError.       (* the engine refuses a value of the statement *)

Inductive outcome (A : Type) : Type :=
| Returned (a : A)
| Raised (e : exn).

Arguments Returned {A} a.
Arguments Raised {A} e.

(** What the SQL of the repository leaves open and an engine decides. *)
Record Engine : Type := mkEngine {
  (* whether the ForeignKey columns are checked at commit *)
  enforce_foreign_keys : bool;
  (* ORDER BY key DESC over the rows of [sources] *)
  order_by_desc : (Source.t -> Z) -> list Source.t -> list Source.t;
  (* LIMIT n with n negative: no bound when true, an error when false *)
  negative_limit_unbounded : bool
}.

(** The part of ORDER BY that SQL fixes: the rows come back rearranged,
    with keys never increasing.  Rows with equal keys may come in any
    order. *)
Definition order_by_contract (eng : Engine) : Prop :=
  forall (key : Source.t -> Z) (rows : list Source.t),
    Permutation rows (order_by_desc eng key rows) /\
    StronglySorted (fun a b => key b <= key a) (order_by_desc eng key rows).

Record Store : Type := mkStore {
  sources : list Source.t;
  events : list Event.t;
  claims : list Claim.t;
  claim_refutations : list ClaimRefutation.t;
  next_source_id : Z;
  next_claim_id : Z;
  next_refutation_id : Z
}.

Definition empty_store : Store := mkStore [] [] [] [] 1 1 1.

Module Session.
(** [query(Source).filter_by(id=...).first()] *)
Definition source_by_id (st : Store) (source_id : Z) : option Source.t :=
  find (fun s => Source.id s =? source_id) (sources st).

(** [query(Source).filter_by(name=...).first()] *)
Definition source_by_name (st : Store) (name : string) : option Source.t :=
  find (fun s => String.eqb (Source.name s) name) (sources st).

(** [query(Event).filter_by(id=...).first()] *)
Definition event_by_id (st : Store) (event_id : string) : option Event.t :=
  find (fun e => String.eqb (Event.id e) event_id) (events st).

(** [query(Claim).filter_by(id=...).first()] *)
Definition claim_by_id (st : Store) (claim_id : Z) : option Claim.t :=
  find (fun c => Claim.id c =? claim_id) (claims st).

(** [query(Claim).filter_by(event_id=...).all()]: the rows of the event.
    The query has no ORDER BY; the rows are listed here in table order. *)
Definition claims_by_event (st : Store) (event_id : string) : list Claim.t :=
  filter (fun c => match Claim.event_id c with
                   | Some e => String.eqb e event_id
                   | None => false
                   end) (claims st).

(** The relationship [claim.source]. *)
Definition claim_source (st : Store) (claim : Claim.t) : option Source.t :=
  source_by_id st (Claim.source_id claim).

(** UPDATE of a row by primary key, as a commit writes a modified object. *)
Definition replace_source (s' : Source.t) (rows : list Source.t)
    : list Source.t :=
  map (fun r => if Source.id r =? Source.id s' then s' else r) rows.

Definition replace_event (e' : Event.t) (rows : list Event.t)
    : list Event.t :=
  map (fun r => if String.eqb (Event.id r) (Event.id e') then e' else r) rows.

Definition replace_claim (c' : Claim.t) (rows : list Claim.t)
    : list Claim.t :=
  map (fun r => if Claim.id r =? Claim.id c' then c' else r) rows.

Definition update_source (st : Store) (s' : Source.t) : Store :=
  mkStore (replace_source s' (sources st)) (events st) (claims st)
          (claim_refutations st) (next_source_id st) (next_claim_id st)
          (next_refutation_id st).

Definition update_event (st : Store) (e' : Event.t) : Store :=
  mkStore (sources st) (replace_event e' (events st)) (claims st)
          (claim_refutations st) (next_source_id st) (next_claim_id st)
          (next_refutation_id st).

Definition update_claim (st : Store) (c' : Claim.t) : Store :=
  mkStore (sources st) (events st) (replace_claim c' (claims st))
          (claim_refutations st) (next_source_id st) (next_claim_id st)
          (next_refutation_id st).

(** INSERT of a new row; the autoincrement keys advance. *)
Definition add_source (st : Store) (s : Source.t) : Store :=
  mkStore (sources st ++ [s]) (events st) (claims st)
          (claim_refutations st) (next_source_id st + 1) (next_claim_id st)
          (next_refutation_id st).

Definition add_event (st : Store) (e : Event.t) : Store :=
  mkStore (sources st) (events st ++ [e]) (claims st)
          (claim_refutations st) (next_source_id st) (next_claim_id st)
          (next_refutation_id st).

Definition add_claim (st : Store) (c : Claim.t) : Store :=
  mkStore (sources st) (events st) (claims st ++ [c])
          (claim_refutations st) (next_source_id st) (next_claim_id st + 1)
          (next_refutation_id st).

Definition add_claim_refutation (st : Store) (r : ClaimRefutation.t)
    : Store :=
  mkStore (sources st) (events st) (claims st)
          (claim_refutations st ++ [r]) (next_source_id st)
          (next_claim_id st) (next_refutation_id st + 1).

(** A row of [sources] changed by the unit of work without an explicit
    [updated_at]: the column's [onupdate] stamps it. *)
Definition onupdate (now : datetime) (s : Source.t) : Source.t :=
  Source.set_updated_at now s.

(** LIMIT n *)
Definition sql_limit {A : Type} (eng : Engine) (n : Z) (rows : list A)
    : outcome (list A) :=
  if 0 <=? n then Returned (firstn (Z.to_nat n) rows)
  else if negative_limit_unbounded eng then Returned rows
  else Raised DataError.
End Session.

(** ** repository.py *)

Module EKGRepository.
Import Session.

Section WithEngine.
Variable eng : Engine.

(** *** Source *)

Definition find_or_create_source (st : Store) (name : string)
    (source_type : SourceType.t) (kwargs : Source.kwargs) (now : datetime)
    : Store * Source.t :=
  match source_by_name st name with
  | Some source => (st, source)
  | None =>
      let source :=
        Source.insert_row (next_source_id st) now name source_type kwargs in
      (add_source st source, source)
  end.

Definition get_source_by_name (st : Store) (name : string)
    : option Source.t :=
  source_by_name st name.

Definition update_source_credit_score (st : Store) (source_id : Z)
    (change : Z) (now : datetime) : Store * bool :=
  match source_by_id st source_id with
  | None => (st, false)
  | Some source =>
      let new_score :=
        Z.max 0 (Z.min 100 (Source.credit_score source + change)) in
      let source := Source.set_credit_score new_score source in
      let source := Source.set_updated_at now source in
      (update_source st source, true)
  end.

Definition get_source_statistics (st : Store) (source_id : Z) : Dict :=
  match source_by_id st source_id with
  | None => []
  | Some source =>
      [ ("total_claims", PyInt (Source.total_claims source));
        ("verified_claims", PyInt (Source.verified_claims source));
        ("refuted_claims", PyInt (Source.refuted_claims source));
        ("accuracy_rate",
           if Source.total_claims source >? 0
           then PyFloat (Float.mul
                           (Float.truediv (Source.verified_claims source)
                                          (Source.total_claims source))
                           100)
           else PyInt 0);
        ("credit_score", PyInt (Source.credit_score source)) ]%string
  end.

(** *** Event *)

Definition create_event (st : Store) (event_id : string)
    (kwargs : Event.kwargs) (now : datetime) : Store * outcome Event.t :=
  let event := Event.insert_row now event_id kwargs in
  match event_by_id st event_id with
  | Some _ => (st, Raised IntegrityError)   (* primary key taken *)
  | None => (add_event st event, Returned event)
  end.

Definition get_event (st : Store) (event_id : string) : option Event.t :=
  event_by_id st event_id.

Definition update_event_status (st : Store) (event_id : string)
    (status : EventStatus.t) (credibility_score : option Q)
    (now : datetime) : Store * bool :=
  match get_event st event_id with
  | None => (st, false)
  | Some event =>
      let event := Event.set_status status event in
      let event :=
        match credibility_score with
        | Some score => Event.set_credibility_score score event
        | None => event
        end in
      let event := Event.set_updated_at now event in
      (update_event st event, true)
  end.

(** *** Claim *)

(** The ForeignKey columns of a claim row, checked at commit by an engine
    that enforces them. *)
Definition claim_foreign_keys_ok (st : Store) (claim : Claim.t) : bool :=
  match source_by_id st (Claim.source_id claim) with
  | None => false
  | Some _ =>
      match Claim.event_id claim with
      | None => true
      | Some e => match event_by_id st e with
                  | Some _ => true
                  | None => false
                  end
      end
  end.

Definition create_claim (st : Store) (text : string) (source_id : Z)
    (event_id : option string) (kwargs : Claim.kwargs) (now : datetime)
    : Store * outcome Claim.t :=
  let claim :=
    Claim.insert_row (next_claim_id st) now text source_id event_id kwargs in
  let st1 := add_claim st claim in
  let st2 :=
    match source_by_id st1 source_id with
    | Some source =>
        let source :=
          Source.set_total_claims (Source.total_claims source + 1) source in
        update_source st1 (onupdate now source)
    | None => st1
    end in
  if enforce_foreign_keys eng && negb (claim_foreign_keys_ok st claim)
  then (st, Raised IntegrityError)          (* the transaction is lost *)
  else (st2, Returned claim).

Definition update_claim_status (st : Store) (claim_id : Z)
    (status : ClaimStatus.t) (verification_result : option PyValue)
    (now : datetime) : Store * bool :=
  match claim_by_id st claim_id with
  | None => (st, false)
  | Some claim =>
      let old_status := Claim.status claim in
      let claim := Claim.set_status status claim in
      let claim :=
        match verification_result with
        | Some v =>
            if truthy v then Claim.set_verification_result v claim
            else claim
        | None => claim
        end in
      let st1 := update_claim st claim in
      let st2 :=
        match claim_source st1 claim with
        | Some source =>
            if negb (ClaimStatus.eqb old_status ClaimStatus.VERIFIED)
               && ClaimStatus.eqb status ClaimStatus.VERIFIED
            then
              let source :=
                Source.set_verified_claims
                  (Source.verified_claims source + 1) source in
              update_source st1 (onupdate now source)
            else if negb (ClaimStatus.eqb old_status ClaimStatus.REFUTED)
                    && ClaimStatus.eqb status ClaimStatus.REFUTED
            then
              let source :=
                Source.set_refuted_claims
                  (Source.refuted_claims source + 1) source in
              update_source st1 (onupdate now source)
            else st1
        | None => st1
        end in
      (st2, true)
  end.

Definition get_claims_by_event (st : Store) (event_id : string)
    : list Claim.t :=
  claims_by_event st event_id.

(** *** Relations *)

Definition refutation_foreign_keys_ok (st : Store)
    (r : ClaimRefutation.t) : bool :=
  match claim_by_id st (ClaimRefutation.refuting_claim_id r),
        claim_by_id st (ClaimRefutation.refuted_claim_id r) with
  | Some _, Some _ => true
  | _, _ => false
  end.

(** [evidence or []] *)
Definition evidence_or_empty (evidence : option PyValue) : PyValue :=
  match evidence with
  | Some v => if truthy v then v else PyList []
  | None => PyList []
  end.

Definition create_claim_refutation (st : Store) (refuting_claim_id : Z)
    (refuted_claim_id : Z) (confidence : Q) (evidence : option PyValue)
    (now : datetime) : Store * outcome ClaimRefutation.t :=
  let refutation :=
    {| ClaimRefutation.id := next_refutation_id st;
       ClaimRefutation.refuting_claim_id := refuting_claim_id;
       ClaimRefutation.refuted_claim_id := refuted_claim_id;
       ClaimRefutation.confidence := confidence;
       ClaimRefutation.evidence := evidence_or_empty evidence;
       ClaimRefutation.created_at := now |} in
  if enforce_foreign_keys eng
     && negb (refutation_foreign_keys_ok st refutation)
  then (st, Raised IntegrityError)
  else (add_claim_refutation st refutation, Returned refutation).

(** *** Queries behind the flywheel *)

Definition source_summary (s : Source.t) : Dict :=
  [ ("name", PyStr (Source.name s));
    ("type", PyStr (SourceType.value (Source.type s)));
    ("credit_score", PyInt (Source.credit_score s));
    ("total_claims", PyInt (Source.total_claims s)) ]%string.

Definition get_trending_sources (st : Store) (limit : Z)
    : outcome (list Dict) :=
  match sql_limit eng limit
          (order_by_desc eng Source.total_claims (sources st)) with
  | Returned rows => Returned (map source_summary rows)
  | Raised e => Raised e
  end.

End WithEngine.
End EKGRepository.

(** ** graph_ops.py *)

Module EKGGraphOps.
Import Session.

(** The builtin [sum] over integers. *)
Definition py_sum (l : list Z) : Z := fold_left Z.add l 0.

Definition is_verified (c : Claim.t) : bool :=
  String.eqb (ClaimStatus.value (Claim.status c)) "verified".

Definition is_refuted (c : Claim.t) : bool :=
  String.eqb (ClaimStatus.value (Claim.status c)) "refuted".

(** The loop collecting [claim.source.credit_score] of the claims that
    have a source, in the order of the claims. *)
Definition collect_source_scores (st : Store) (claims : list Claim.t)
    : list Z :=
  fold_left
    (fun source_scores claim =>
       match claim_source st claim with
       | Some source => source_scores ++ [Source.credit_score source]
       | None => source_scores
       end)
    claims [].

Definition calculate_event_credibility (st : Store) (event_id : string)
    : Dict :=
  match EKGRepository.get_event st event_id with
  | None => [ ("error", PyStr "Event not found") ]%string
  | Some _ =>
      let claims := EKGRepository.get_claims_by_event st event_id in
      match claims with
      | [] =>
          [ ("credibility_score", PyFloat 50);
            ("confidence", PyStr "low");
            ("reason", PyStr "No claims to verify") ]%string
      | _ :: _ =>
          let verified_count :=
            py_sum (map (fun _ => 1) (filter is_verified claims)) in
          let refuted_count :=
            py_sum (map (fun _ => 1) (filter is_refuted claims)) in
          let total := Z.of_nat (List.length claims) in
          let score := 50%Q in
          let score :=
            Float.add score
              (Float.mul (Float.truediv verified_count total) 30) in
          let score :=
            Float.sub score
              (Float.mul (Float.truediv refuted_count total) 40) in
          let source_scores := collect_source_scores st claims in
          let score :=
            match source_scores with
            | [] => score
            | _ :: _ =>
                let avg_source_score :=
                  Float.truediv (py_sum source_scores)
                    (Z.of_nat (List.length source_scores)) in
                Float.add (Float.mul score Float.c0_7)
                          (Float.mul avg_source_score Float.c0_3)
            end in
          [ ("credibility_score", PyFloat (Float.round2 score));
            ("verified_claims", PyInt verified_count);
            ("refuted_claims", PyInt refuted_count);
            ("total_claims", PyInt total);
            ("confidence", PyStr (if total >=? 3 then "high" else "low")) ]%string
      end
  end.

End EKGGraphOps.

(** ** Concrete engines *)

Module Engines.
(** Keys never increasing from left to right. *)
Definition desc_by (key : Source.t -> Z) (a b : Source.t) : Prop :=
  key b <= key a.

(** Insertion into a list sorted by descending key, after the rows with an
    equal key. *)
Fixpoint insert_desc (key : Source.t -> Z) (x : Source.t)
    (l : list Source.t) : list Source.t :=
  match l with
  | [] => [x]
  | y :: l' =>
      if key y >=? key x then y :: insert_desc key x l' else x :: y :: l'
  end.

(** A stable sort by descending key: rows with equal keys keep their
    order. *)
Definition stable_sort_desc (key : Source.t -> Z) (rows : list Source.t)
    : list Source.t :=
  fold_left (fun acc x => insert_desc key x acc) rows [].

(** A sort by descending key that returns rows with equal keys in the
    reverse of their order. *)
Definition reversing_sort_desc (key : Source.t -> Z) (rows : list Source.t)
    : list Source.t :=
  stable_sort_desc key (rev rows).

(** No foreign-key checks, stable sort, negative LIMIT unbounded. *)
Definition lenient_engine : Engine := mkEngine false stable_sort_desc true.

(** Foreign keys enforced, negative LIMIT refused. *)
Definition strict_engine : Engine := mkEngine true stable_sort_desc false.

(** As [lenient_engine], with the other order among equal keys. *)
Definition reversing_engine : Engine :=
  mkEngine false reversing_sort_desc true.
End Engines.

(** ** Call traces and the quantities the properties speak of *)

Module Trace.
Import Session EKGRepository.

(** One call [update_claim_status(claim_id, status, verification_result)]
    made at time [now]. *)
Record status_call : Type := mk_status_call {
  sc_claim_id : Z;
  sc_status : ClaimStatus.t;
  sc_verification_result : option PyValue;
  sc_now : datetime
}.

Definition apply_status_call (st : Store) (c : status_call) : Store :=
  fst (update_claim_status st (sc_claim_id c) (sc_status c)
         (sc_verification_result c) (sc_now c)).

Definition run_status_calls (st : Store) (calls : list status_call)
    : Store :=
  fold_left apply_status_call calls st.

(** Whether call [c], made in store [st], moves a claim owned by source
    [source_id] into [target] from a different status. *)
Definition enters (target : ClaimStatus.t) (source_id : Z) (st : Store)
    (c : status_call) : bool :=
  match claim_by_id st (sc_claim_id c) with
  | Some claim =>
      (Claim.source_id claim =? source_id)
      && negb (ClaimStatus.eqb (Claim.status claim) target)
      && ClaimStatus.eqb (sc_status c) target
  | None => false
  end.

(** The number of transitions into [target] that a trace of calls makes
    on the claims of source [source_id]. *)
Fixpoint transitions_into (target : ClaimStatus.t) (source_id : Z)
    (st : Store) (calls : list status_call) : Z :=
  match calls with
  | [] => 0
  | c :: rest =>
      (if enters target source_id st c then 1 else 0)
      + transitions_into target source_id (apply_status_call st c) rest
  end.

(** One call [update_source_credit_score(source_id, change)]. *)
Record credit_call : Type := mk_credit_call {
  cc_source_id : Z;
  cc_change : Z;
  cc_now : datetime
}.

Definition apply_credit_call (st : Store) (c : credit_call) : Store :=
  fst (update_source_credit_score st (cc_source_id c) (cc_change c)
         (cc_now c)).

Definition run_credit_calls (st : Store) (calls : list credit_call)
    : Store :=
  fold_left apply_credit_call calls st.

(** One call [find_or_create_source(name, source_type, **kwargs)]. *)
Record source_call : Type := mk_source_call {
  fc_name : string;
  fc_type : SourceType.t;
  fc_kwargs : Source.kwargs;
  fc_now : datetime
}.

Definition apply_source_call (st : Store) (c : source_call) : Store :=
  fst (find_or_create_source st (fc_name c) (fc_type c) (fc_kwargs c)
         (fc_now c)).

Definition run_source_calls (st : Store) (calls : list source_call)
    : Store :=
  fold_left apply_source_call calls st.

(** The number of rows of [sources] carrying [name]. *)
Definition rows_named (st : Store) (name : string) : nat :=
  List.length
    (filter (fun s => String.eqb (Source.name s) name) (sources st)).

(** The number of claims whose [source_id] is [source_id]. *)
Definition claims_referencing (st : Store) (source_id : Z) : Z :=
  Z.of_nat
    (List.length
       (filter (fun c => Claim.source_id c =? source_id) (claims st))).

Definition clamp (lo hi x : Z) : Z := Z.max lo (Z.min hi x).
End Trace.

(** ** The credibility formula, in the words of its descriptions *)

Module Formula.
Import Session EKGGraphOps.

Definition count (p : Claim.t -> bool) (claims : list Claim.t) : Z :=
  Z.of_nat (List.length (filter p claims)).

Definition has_status (x : ClaimStatus.t) (c : Claim.t) : bool :=
  ClaimStatus.eqb (Claim.status c) x.

(** 50 + 30 * verified/total - 40 * refuted/total, in floats from left
    to right. *)
Definition outcome_term (claims : list Claim.t) : Q :=
  let total := Z.of_nat (List.length claims) in
  Float.sub
    (Float.add 50
       (Float.mul 30
          (Float.truediv (count (has_status ClaimStatus.VERIFIED) claims)
                         total)))
    (Float.mul 40
       (Float.truediv (count (has_status ClaimStatus.REFUTED) claims)
                      total)).

Definition mean (scores : list Z) : Q :=
  Float.truediv (fold_right Z.add 0%Z scores)
                (Z.of_nat (List.length scores)).

(** The sources behind the claims, one entry per claim that has one. *)
Definition sources_behind (st : Store) (claims : list Claim.t)
    : list Source.t :=
  flat_map (fun c => match claim_source st c with
                     | Some s => [s]
                     | None => []
                     end) claims.

(** The same sources, each kept once. *)
Fixpoint distinct_by_id (l : list Source.t) : list Source.t :=
  match l with
  | [] => []
  | s :: l' =>
      if existsb (fun s' => Source.id s' =? Source.id s) l'
      then distinct_by_id l'
      else s :: distinct_by_id l'
  end.

(** The blend as described: 0.7 of the outcome term, 0.3 of the mean
    credit score of the distinct sources behind the claims. *)
Definition blended_over_distinct_sources (st : Store)
    (claims : list Claim.t) : Q :=
  Float.add
    (Float.mul Float.c0_7 (outcome_term claims))
    (Float.mul Float.c0_3
       (mean (map Source.credit_score
                (distinct_by_id (sources_behind st claims))))).

(** The blend with one credit score per claim that has a source, and the
    outcome term alone when no claim has one. *)
Definition blended_per_claim (st : Store) (claims : list Claim.t) : Q :=
  match sources_behind st claims with
  | [] => outcome_term claims
  | srcs =>
      Float.add
        (Float.mul Float.c0_7 (outcome_term claims))
        (Float.mul Float.c0_3 (mean (map Source.credit_score srcs)))
  end.

Definition confidence_level (claims : list Claim.t) : string :=
  if (3 <=? List.length claims)%nat then "high"%string else "low"%string.
End Formula.

(** ** Trending sources, in the words of their description *)

Module Trending.
Import Session EKGRepository.

Definition desc_by_total_claims (a b : Source.t) : Prop :=
  Source.total_claims b <= Source.total_claims a.

(** At most [limit] summaries by descending [total_claims], rows with
    equal [total_claims] in insertion order. *)
Definition ties_in_insertion_order (st : Store) (limit : Z) : list Dict :=
  map source_summary
    (firstn (Z.to_nat limit)
       (Engines.stable_sort_desc Source.total_claims (sources st))).
End Trending.

(** ** Stores used as concrete inputs *)

Module Examples.
Import EKGRepository Engines.

Definition with_credit (score : Z) : Source.kwargs :=
  Source.mk_kwargs (Some score) None None None None None None.

(** One source "A", created with the defaults. *)
Definition one_source : Store :=
  fst (find_or_create_source empty_store "A" SourceType.BLOG
         Source.no_kwargs 0).

(** Sources "A" (credit 80) and "B" (credit 20), no claims yet. *)
Definition two_sources : Store :=
  let st :=
    fst (find_or_create_source empty_store "A" SourceType.BLOG
           (with_credit 80) 0) in
  fst (find_or_create_source st "B" SourceType.SOCIAL_MEDIA
         (with_credit 20) 0).

(** Event "E" over [two_sources], no claims yet. *)
Definition event_only : Store :=
  fst (create_event two_sources "E" Event.no_kwargs 1).

(** Event "E" over [two_sources], with two pending claims by "A" and one
    by "B". *)
Definition three_claims : Store :=
  let st := event_only in
  let st :=
    fst (create_claim lenient_engine st "first" 1 (Some "E"%string)
           Claim.no_kwargs 2) in
  let st :=
    fst (create_claim lenient_engine st "second" 1 (Some "E"%string)
           Claim.no_kwargs 3) in
  fst (create_claim lenient_engine st "third" 2 (Some "E"%string)
         Claim.no_kwargs 4).

(** Event "E" with one pending claim by a source of credit [score]. *)
Definition one_claim_by (score : Z) : Store :=
  let st :=
    fst (find_or_create_source empty_store "A" SourceType.BLOG
           (with_credit score) 0) in
  let st := fst (create_event st "E" Event.no_kwargs 1) in
  fst (create_claim lenient_engine st "first" 1 (Some "E"%string)
         Claim.no_kwargs 2).

(** Event "E" with one pending claim by a source of credit 3 and three by
    a source of credit 0. *)
Definition four_claims : Store :=
  let st :=
    fst (find_or_create_source empty_store "A" SourceType.BLOG
           (with_credit 3) 0) in
  let st :=
    fst (find_or_create_source st "B" SourceType.FORUM (with_credit 0) 0) in
  let st := fst (create_event st "E" Event.no_kwargs 1) in
  let st :=
    fst (create_claim lenient_engine st "first" 1 (Some "E"%string)
           Claim.no_kwargs 2) in
  let st :=
    fst (create_claim lenient_engine st "second" 2 (Some "E"%string)
           Claim.no_kwargs 3) in
  let st :=
    fst (create_claim lenient_engine st "third" 2 (Some "E"%string)
           Claim.no_kwargs 4) in
  fst (create_claim lenient_engine st "fourth" 2 (Some "E"%string)
         Claim.no_kwargs 5).

(** The counters [total_claims] and [verified_claims] given at creation. *)
Definition with_counters (total verified : Z) : Source.kwargs :=
  Source.mk_kwargs None None None None (Some total) (Some verified) None.

(** One source "A", created with [total_claims = -3] and
    [verified_claims = 1]. *)
Definition negative_total : Store :=
  fst (find_or_create_source empty_store "A" SourceType.BLOG
         (with_counters (-3) 1) 0).

(** One source "A", created with [total_claims = 3] and
    [verified_claims = 1]. *)
Definition one_in_three : Store :=
  fst (find_or_create_source empty_store "A" SourceType.BLOG
         (with_counters 3 1) 0).
End Examples.

(** ** The rows a status update leaves behind *)

Module Effects.
Import Session.

(** What one call adds to the counter of [target]. *)
Definition bump (target old new : ClaimStatus.t) : Z :=
  if negb (ClaimStatus.eqb old target) && ClaimStatus.eqb new target
  then 1 else 0.

(** The claim row as [update_claim_status] leaves it. *)
Definition claim_after (claim : Claim.t) (status : ClaimStatus.t)
    (vr : option PyValue) : Claim.t :=
  match vr with
  | Some v =>
      if truthy v
      then Claim.set_verification_result v (Claim.set_status status claim)
      else Claim.set_status status claim
  | None => Claim.set_status status claim
  end.

(** The source row of a claim's owner as [update_claim_status] leaves
    it. *)
Definition owner_after (now : datetime) (old new : ClaimStatus.t)
    (s : Source.t) : Source.t :=
  if negb (ClaimStatus.eqb old ClaimStatus.VERIFIED)
     && ClaimStatus.eqb new ClaimStatus.VERIFIED
  then onupdate now
         (Source.set_verified_claims (Source.verified_claims s + 1) s)
  else if negb (ClaimStatus.eqb old ClaimStatus.REFUTED)
          && ClaimStatus.eqb new ClaimStatus.REFUTED
  then onupdate now
         (Source.set_refuted_claims (Source.refuted_claims s + 1) s)
  else s.
End Effects.

(** ** More of graph_ops.py and repository.py *)

Module Batch.
Import Session EKGRepository Trace.

(** One entry of [investigation_results]: what [result.get("source_id")]
    and [result.get("score_change")] give, [None] when the key is
    absent. *)
Record result : Type := mk_result {
  source_id : option Z;
  score_change : option Z
}.

(** [batch_update_source_scores]: the store after the loop and the value
    of [updated]. *)
Definition batch_update_source_scores (st : Store)
    (investigation_results : list result) (now : datetime) : Store * Z :=
  fold_left
    (fun (acc : Store * Z) (r : result) =>
       let '(st, updated) := acc in
       match source_id r, score_change r with
       | Some sid, Some change =>
           if negb (sid =? 0)
           then
             let '(st', ok) :=
               update_source_credit_score st sid change now in
             if ok then (st', updated + 1) else (st', updated)
           else (st, updated)
       | _, _ => (st, updated)
       end)
    investigation_results (st, 0).

(** The entries of a batch that reach the repository: both values present
    and the source id not zero. *)
Definition to_credit_calls (investigation_results : list result)
    (now : datetime) : list credit_call :=
  flat_map
    (fun r =>
       match source_id r, score_change r with
       | Some sid, Some change =>
           if negb (sid =? 0) then [mk_credit_call sid change now] else []
       | _, _ => []
       end)
    investigation_results.

(** The sum of the changes a trace addresses to [sid]. *)
Definition total_change (sid : Z) (calls : list credit_call) : Z :=
  fold_right Z.add 0
    (map cc_change (filter (fun c => cc_source_id c =? sid) calls)).

(** The number of calls of a trace that address a source of [st]. *)
Definition calls_hitting (st : Store) (calls : list credit_call) : Z :=
  Z.of_nat
    (List.length
       (filter (fun c => match source_by_id st (cc_source_id c) with
                         | Some _ => true
                         | None => false
                         end) calls)).
End Batch.

(** ** Any sequence of repository calls *)

Module Calls.
Import Session EKGRepository.

(** A call of one of the writing methods of the repository. *)
Inductive repo_call : Type :=
| Find_or_create_source (name : string) (source_type : SourceType.t)
    (kwargs : Source.kwargs)
| Update_source_credit_score (source_id change : Z)
| Create_event (event_id : string) (kwargs : Event.kwargs)
| Update_event_status (event_id : string) (status : EventStatus.t)
    (credibility_score : option Q)
| Create_claim (text : string) (source_id : Z) (event_id : option string)
    (kwargs : Claim.kwargs)
| Update_claim_status (claim_id : Z) (status : ClaimStatus.t)
    (verification_result : option PyValue)
| Create_claim_refutation (refuting_claim_id refuted_claim_id : Z)
    (confidence : Q) (evidence : option PyValue).

(** The store a call made at time [now] leaves. *)
Definition apply_call (eng : Engine) (st : Store) (c : repo_call)
    (now : datetime) : Store :=
  match c with
  | Find_or_create_source name ty kw =>
      fst (find_or_create_source st name ty kw now)
  | Update_source_credit_score sid change =>
      fst (update_source_credit_score st sid change now)
  | Create_event eid kw => fst (create_event st eid kw now)
  | Update_event_status eid status score =>
      fst (update_event_status st eid status score now)
  | Create_claim text sid eid kw =>
      fst (create_claim eng st text sid eid kw now)
  | Update_claim_status cid status vr =>
      fst (update_claim_status st cid status vr now)
  | Create_claim_refutation a b confidence evidence =>
      fst (create_claim_refutation eng st a b confidence evidence now)
  end.

Definition run_calls (eng : Engine) (st : Store)
    (calls : list (repo_call * datetime)) : Store :=
  fold_left (fun st cn => apply_call eng st (fst cn) (snd cn)) calls st.

(** No key of a unique column occurs twice, and every autoincrement key
    in use lies below the next one to be given out. *)
Definition keys_consistent (st : Store) : Prop :=
  NoDup (map Source.id (sources st)) /\
  NoDup (map Source.name (sources st)) /\
  NoDup (map Event.id (events st)) /\
  NoDup (map Claim.id (claims st)) /\
  NoDup (map ClaimRefutation.id (claim_refutations st)) /\
  Forall (fun s => Source.id s < next_source_id st) (sources st) /\
  Forall (fun c => Claim.id c < next_claim_id st) (claims st) /\
  Forall (fun r => ClaimRefutation.id r < next_refutation_id st)
         (claim_refutations st).
(** A call that creates no source with a [total_claims] of the caller's
    choosing. *)
Definition counts_from_zero (c : repo_call) : Prop :=
  match c with
  | Find_or_create_source _ _ kw => Source.kw_total_claims kw = None
  | _ => True
  end.

(** A call that creates no source with a credit score outside 0..100. *)
Definition creates_within_range (c : repo_call) : Prop :=
  match c with
  | Find_or_create_source _ _ kw =>
      match Source.kw_credit_score kw with
      | Some score => 0 <= score <= 100
      | None => True
      end
  | _ => True
  end.

(** Every source counts exactly the claims that reference it. *)
Definition totals_match (st : Store) : Prop :=
  forall s, In s (sources st) ->
    Source.total_claims s = Trace.claims_referencing st (Source.id s).

(** Every claim references a source of the store. *)
Definition claims_have_sources (st : Store) : Prop :=
  Forall (fun c => source_by_id st (Claim.source_id c) <> None) (claims st).

(** Every credit score lies within 0..100. *)
Definition credits_within_range (st : Store) : Prop :=
  Forall (fun s => 0 <= Source.credit_score s <= 100) (sources st).
End Calls.

(** ** The read side of the flywheel *)

Module Reputation.
Import Session EKGRepository.

Section WithClock.
(** [datetime.isoformat] *)
Variable isoformat : datetime -> string.

Definition query_source_reputation (st : Store) (source_name : string)
    : option Dict :=
  match get_source_by_name st source_name with
  | None => None
  | Some source =>
      Some
        [ ("name", PyStr (Source.name source));
          ("type", PyStr (SourceType.value (Source.type source)));
          ("credit_score", PyInt (Source.credit_score source));
          ("statistics",
             PyDict (get_source_statistics st (Source.id source)));
          ("last_updated", PyStr (isoformat (Source.updated_at source))) ]%string
  end.
End WithClock.
End Reputation.

(** ** graph_ops.py: the projections for display *)

Module Views.
Import Session EKGRepository.

(** [str(n)] of an integer. *)
Definition str_of_int (n : Z) : string :=
  NilZero.string_of_int (Z.to_int n).

(** A byte [10xxxxxx], which continues a character of a UTF-8 text. *)
Definition is_continuation (a : ascii) : bool :=
  let b := nat_of_ascii a in
  ((128 <=? b) && (b <? 192))%nat.

(** [s[:n]]: the first [n] characters of [s], each with the bytes that
    continue it. *)
Fixpoint prefix_of (n : nat) (s : string) : string :=
  match s with
  | EmptyString => EmptyString
  | String a s' =>
      if is_continuation a then String a (prefix_of n s')
      else
        match n with
        | O => EmptyString
        | S n' => String a (prefix_of n' s')
        end
  end.

(** [title or dflt] for an optional string. *)
Definition str_or (title : option string) (dflt : string) : string :=
  match title with
  | Some t => if String.eqb t EmptyString then dflt else t
  | None => dflt
  end.

(** [n["id"] == node_id] for a node of the graph. *)
Definition node_has_id (node_id : string) (n : Dict) : bool :=
  match dict_get "id" n with
  | Some (PyStr s) => String.eqb s node_id
  | _ => false
  end.

Definition event_node (event : Event.t) : Dict :=
  [ ("id", PyStr (Event.id event));
    ("type", PyStr "event");
    ("label", PyStr (str_or (Event.title event) (Event.id event)));
    ("credibility", PyFloat (Event.credibility_score event)) ]%string.

Definition claim_node_id (claim : Claim.t) : string :=
  ("claim-" ++ str_of_int (Claim.id claim))%string.

Definition source_node_id (source : Source.t) : string :=
  ("source-" ++ str_of_int (Source.id source))%string.

Definition claim_node (claim : Claim.t) : Dict :=
  [ ("id", PyStr (claim_node_id claim));
    ("type", PyStr "claim");
    ("label", PyStr (prefix_of 50 (Claim.text claim) ++ "..."));
    ("status", PyStr (ClaimStatus.value (Claim.status claim))) ]%string.

Definition source_node (source : Source.t) : Dict :=
  [ ("id", PyStr (source_node_id source));
    ("type", PyStr "source");
    ("label", PyStr (Source.name source));
    ("credit_score", PyInt (Source.credit_score source)) ]%string.

Definition has_claim_edge (event : Event.t) (claim : Claim.t) : Dict :=
  [ ("from", PyStr (Event.id event));
    ("to", PyStr (claim_node_id claim));
    ("type", PyStr "has_claim") ]%string.

Definition made_claim_edge (source : Source.t) (claim : Claim.t) : Dict :=
  [ ("from", PyStr (source_node_id source));
    ("to", PyStr (claim_node_id claim));
    ("type", PyStr "made_claim") ]%string.

(** One turn of the loop over the claims: the lists [nodes] and [edges]
    after the claim is handled. *)
Definition graph_step (st : Store) (event : Event.t)
    (acc : list Dict * list Dict) (claim : Claim.t)
    : list Dict * list Dict :=
  let '(nodes, edges) := acc in
  let nodes := nodes ++ [claim_node claim] in
  let edges := edges ++ [has_claim_edge event claim] in
  match claim_source st claim with
  | Some source =>
      let nodes :=
        if negb (existsb (node_has_id (source_node_id source)) nodes)
        then nodes ++ [source_node source]
        else nodes in
      let edges := edges ++ [made_claim_edge source claim] in
      (nodes, edges)
  | None => (nodes, edges)
  end.

(** The lists [nodes] and [edges] when the loop ends. *)
Definition graph_lists (st : Store) (event : Event.t)
    (claims : list Claim.t) : list Dict * list Dict :=
  fold_left (graph_step st event) claims ([event_node event], []).

Definition generate_event_graph (st : Store) (event_id : string) : Dict :=
  match get_event st event_id with
  | None => [ ("nodes", PyList []); ("edges", PyList []) ]%string
  | Some event =>
      let claims := get_claims_by_event st event_id in
      let '(nodes, edges) := graph_lists st event claims in
      [ ("nodes", PyList (map PyDict nodes));
        ("edges", PyList (map PyDict edges)) ]%string
  end.

(** The string an edge carries under [k], the empty string when it
    carries none. *)
Definition str_at (k : string) (d : Dict) : string :=
  match dict_get k d with
  | Some (PyStr s) => s
  | _ => EmptyString
  end.

(** The nodes of one type. *)
Definition nodes_of_type (ty : string) (nodes : list Dict) : list Dict :=
  filter (fun n => String.eqb (str_at "type" n) ty) nodes.

(** An edge whose two ends are ids of nodes. *)
Definition edge_closed (nodes : list Dict) (e : Dict) : Prop :=
  existsb (node_has_id (str_at "from" e)) nodes = true /\
  existsb (node_has_id (str_at "to" e)) nodes = true.

(** What holds of [nodes] and [edges] between two turns of the loop. *)
Record graph_inv (event : Event.t) (acc : list Dict * list Dict)
    : Prop := mk_graph_inv {
  inv_head : hd_error (fst acc) = Some (event_node event);
  inv_closed : Forall (edge_closed (fst acc)) (snd acc);
  inv_sources :
    NoDup (map (str_at "id") (nodes_of_type "source" (fst acc)))
}.

(** Every node is the event's, a claim's, or that of a source as the
    store has it. *)
Definition node_known (st : Store) (event : Event.t) (n : Dict) : Prop :=
  n = event_node event \/
  (exists c, n = claim_node c) \/
  (exists s, n = source_node s /\ source_by_id st (Source.id s) = Some s).

(** The builtin [sorted(l, key=...)] on string keys: a stable sort, by
    insertion from the left behind the items with a key not greater. *)
Fixpoint insert_by {A : Type} (key : A -> string) (x : A) (l : list A)
    : list A :=
  match l with
  | [] => [x]
  | y :: l' =>
      if String.leb (key y) (key x) then y :: insert_by key x l'
      else x :: y :: l'
  end.

Definition sorted_by {A : Type} (key : A -> string) (l : list A) : list A :=
  fold_left (fun acc x => insert_by key x acc) l [].

Section WithClock.
(** [datetime.isoformat] *)
Variable isoformat : datetime -> string.

Definition timeline_entry (st : Store) (claim : Claim.t) : Dict :=
  [ ("timestamp", PyStr (isoformat (Claim.timestamp claim)));
    ("source",
       PyStr match claim_source st claim with
             | Some source => Source.name source
             | None => "Unknown"
             end);
    ("claim", PyStr (prefix_of 100 (Claim.text claim)));
    ("status", PyStr (ClaimStatus.value (Claim.status claim))) ]%string.

Definition generate_propagation_timeline (st : Store) (event_id : string)
    : list Dict :=
  let claims := get_claims_by_event st event_id in
  sorted_by (str_at "timestamp") (map (timeline_entry st) claims).
End WithClock.
End Views.

(** ** models.py and repository.py: entities and investigation history *)

Module Entity.
Record t : Type := mk {
  id : Z;
  name : string;
  type : string;
  description : option string;
  metadata : PyValue;
  created_at : datetime;
  updated_at : datetime
}.

Record kwargs : Type := mk_kwargs {
  kw_description : option string;
  kw_metadata : option PyValue
}.

Definition no_kwargs : kwargs := mk_kwargs None None.

Definition insert_row (new_id : Z) (now : datetime) (nm : string)
    (ty : string) (kw : kwargs) : t :=
  {| id := new_id;
     name := nm;
     type := ty;
     description := kw_description kw;
     metadata := column_default (PyDict []) (kw_metadata kw);
     created_at := now;
     updated_at := now |}.
End Entity.

Module InvestigationHistory.
Record t : Type := mk {
  id : Z;
  investigation_id : string;
  event_id : option string;
  report : PyValue;
  credibility_score : Q;
  started_at : datetime;
  completed_at : datetime
}.
End InvestigationHistory.

Module Archive.
Import Session.

(** The store together with the two tables the claims never touch. *)
Record t : Type := mk {
  store : Store;
  entities : list Entity.t;
  investigation_history : list InvestigationHistory.t;
  next_entity_id : Z;
  next_history_id : Z
}.

Definition empty : t := mk empty_store [] [] 1 1.

(** [query(Entity).filter_by(name=...).first()] *)
Definition entity_by_name (a : t) (name : string) : option Entity.t :=
  find (fun e => String.eqb (Entity.name e) name) (entities a).

Definition find_or_create_entity (a : t) (name : string)
    (entity_type : string) (kwargs : Entity.kwargs) (now : datetime)
    : t * Entity.t :=
  match entity_by_name a name with
  | Some entity => (a, entity)
  | None =>
      let entity :=
        Entity.insert_row (next_entity_id a) now name entity_type kwargs in
      (mk (store a) (entities a ++ [entity]) (investigation_history a)
          (next_entity_id a + 1) (next_history_id a),
       entity)
  end.

Definition get_investigation_history (a : t) (investigation_id : string)
    : option InvestigationHistory.t :=
  find (fun h =>
          String.eqb (InvestigationHistory.investigation_id h)
                     investigation_id)
       (investigation_history a).

Definition save_investigation_result (eng : Engine) (a : t)
    (investigation_id : string) (event_id : string) (report : PyValue)
    (credibility_score : Q) (started_at : datetime) (now : datetime)
    : t * outcome InvestigationHistory.t :=
  let history :=
    {| InvestigationHistory.id := next_history_id a;
       InvestigationHistory.investigation_id := investigation_id;
       InvestigationHistory.event_id := Some event_id;
       InvestigationHistory.report := report;
       InvestigationHistory.credibility_score := credibility_score;
       InvestigationHistory.started_at := started_at;
       InvestigationHistory.completed_at := now |} in
  match get_investigation_history a investigation_id with
  | Some _ => (a, Raised IntegrityError)     (* unique column taken *)
  | None =>
      if enforce_foreign_keys eng
         && match event_by_id (store a) event_id with
            | Some _ => false
            | None => true
            end
      then (a, Raised IntegrityError)
      else (mk (store a) (entities a) (investigation_history a ++ [history])
               (next_entity_id a) (next_history_id a + 1),
            Returned history)
  end.
End Archive.

(** ** demos/ekg_demo.py: the flywheel scenario *)

Module Demo.
Import Session EKGRepository.

(** One turn of the loop of [scenario_2_flywheel_mechanism]: a claim is
    created as refuted and five points are taken from its source.  The
    clock is read once by each of the two calls. *)
Definition flywheel_turn (eng : Engine) (source_id : Z) (st : Store)
    (i : nat) (now1 now2 : datetime) : Store :=
  let st :=
    fst (create_claim eng st
           ("虚假消息 " ++ Views.str_of_int (Z.of_nat i + 1))
           source_id None
           (Claim.mk_kwargs (Some ClaimStatus.REFUTED) None None None None
              None)
           now1) in
  fst (update_source_credit_score st source_id (-5) now2).

(** The loop over [range(n)]; [clock k] is the time of the [k]-th call. *)
Fixpoint flywheel_loop (eng : Engine) (source_id : Z) (st : Store)
    (clock : nat -> datetime) (i n : nat) : Store :=
  match n with
  | O => st
  | S n' =>
      flywheel_loop eng source_id
        (flywheel_turn eng source_id st i (clock (2 * i)%nat)
           (clock (2 * i + 1)%nat))
        clock (S i) n'
  end.

(** The statistics the scenario prints at its end, after the three turns
    of its loop. *)
Definition scenario_2_flywheel_mechanism (eng : Engine) (st : Store)
    (source_id : Z) (clock : nat -> datetime) : Store * Dict :=
  let st := flywheel_loop eng source_id st clock 0 3 in
  (st, get_source_statistics st source_id).
End Demo.

(** ** More concrete inputs *)

Module Samples.
Import Session EKGRepository Engines Calls.

(** The calls that build [Examples.three_claims]. *)
Definition three_claims_calls : list (repo_call * datetime) :=
  [ (Find_or_create_source "A" SourceType.BLOG (Examples.with_credit 80), 0);
    (Find_or_create_source "B" SourceType.SOCIAL_MEDIA
       (Examples.with_credit 20), 0);
    (Create_event "E" Event.no_kwargs, 1);
    (Create_claim "first" 1 (Some "E"%string) Claim.no_kwargs, 2);
    (Create_claim "second" 1 (Some "E"%string) Claim.no_kwargs, 3);
    (Create_claim "third" 2 (Some "E"%string) Claim.no_kwargs, 4) ].

(** [Examples.three_claims] with the rows of [claims] in reverse. *)
Definition three_claims_reversed : Store :=
  mkStore (sources Examples.three_claims) (events Examples.three_claims)
          (rev (claims Examples.three_claims))
          (claim_refutations Examples.three_claims)
          (next_source_id Examples.three_claims)
          (next_claim_id Examples.three_claims)
          (next_refutation_id Examples.three_claims).

(** A clock for the demonstrations: the [k]-th call is made at time
    [k]. *)
Definition ticking (k : nat) : datetime := Z.of_nat k.

(** An archive over [Examples.three_claims]. *)
Definition archive : Archive.t :=
  Archive.mk Examples.three_claims [] [] 1 1.
End Samples.

(** * Properties *)

Import Session EKGRepository EKGGraphOps Engines Trace Effects.
Import Trending Formula.

(** ** Rounding to binary64 *)

Lemma round_half_even_comp (x y : Q) :
  (x == y)%Q -> Float.round_half_even x = Float.round_half_even y.
Proof.
  intros E. unfold Float.round_half_even.
  rewrite (Qfloor_comp _ _ E).
  assert (C : ((x - inject_Z (Qfloor y) ?= 1 # 2)
               = (y - inject_Z (Qfloor y) ?= 1 # 2))%Q).
  { apply Qcompare_comp; [|reflexivity]. now rewrite E. }
  now rewrite C.
Qed.

Lemma round_half_even_ge (n : Z) (q : Q) :
  (inject_Z n <= q)%Q -> n <= Float.round_half_even q.
Proof.
  intros H.
  assert (F : n <= Qfloor q).
  { rewrite <- (Qfloor_Z n). now apply Qfloor_resp_le. }
  unfold Float.round_half_even.
  destruct (q - inject_Z (Qfloor q) ?= 1 # 2)%Q;
    [destruct (Z.even (Qfloor q))|..]; lia.
Qed.

Lemma round_half_even_le (n : Z) (q : Q) :
  (q <= inject_Z n)%Q -> Float.round_half_even q <= n.
Proof.
  intros H. unfold Float.round_half_even.
  assert (Fb : Qfloor q <= n).
  { rewrite <- (Qfloor_Z n). now apply Qfloor_resp_le. }
  assert (Up : (0 < q - inject_Z (Qfloor q))%Q -> Qfloor q + 1 <= n).
  { intros Hpos.
    assert (Hlt : (inject_Z (Qfloor q) < inject_Z n)%Q) by lra.
    rewrite <- Zlt_Qlt in Hlt. lia. }
  destruct (q - inject_Z (Qfloor q) ?= 1 # 2)%Q eqn:C.
  - apply Qeq_alt in C. destruct (Z.even (Qfloor q)); [lia|].
    apply Up. lra.
  - lia.
  - apply Qgt_alt in C. apply Up. lra.
Qed.

Lemma inject_Z_pred (n : Z) : (inject_Z (n - 1) == inject_Z n - 1)%Q.
Proof.
  unfold Z.sub. rewrite inject_Z_plus, inject_Z_opp. reflexivity.
Qed.

(** Half a unit below an even integer still rounds up to it. *)
Lemma round_half_even_tie_ge (n : Z) (q : Q) :
  Z.even n = true -> (inject_Z n - (1 # 2) <= q)%Q ->
  n <= Float.round_half_even q.
Proof.
  intros He H.
  assert (F : n - 1 <= Qfloor q).
  { rewrite <- (Qfloor_Z (n - 1)). apply Qfloor_resp_le.
    rewrite inject_Z_pred. lra. }
  destruct (Z.eq_dec (Qfloor q) (n - 1)) as [E|NE].
  - unfold Float.round_half_even. rewrite E.
    assert (Odd : Z.even (n - 1) = false).
    { rewrite Z.even_sub, He. reflexivity. }
    rewrite Odd.
    destruct (q - inject_Z (n - 1) ?= 1 # 2)%Q eqn:C; try lia.
    apply Qlt_alt in C. exfalso.
    rewrite inject_Z_pred in C. lra.
  - apply round_half_even_ge.
    assert (n <= Qfloor q) by lia.
    apply Qle_trans with (inject_Z (Qfloor q)); [|apply Qfloor_le].
    now rewrite <- Zle_Qle.
Qed.

Lemma pow2_pos (e : Z) : (0 < 2 ^ e)%Q.
Proof. apply Qpower_0_lt. reflexivity. Qed.

Lemma pow2_nonzero (e : Z) : ~ (2 ^ e == 0)%Q.
Proof. pose proof (pow2_pos e). lra. Qed.

Lemma pow2_plus (a b : Z) : (2 ^ (a + b) == 2 ^ a * 2 ^ b)%Q.
Proof. apply Qpower_plus. discriminate. Qed.

Lemma pow2_le (a b : Z) : a <= b -> (2 ^ a <= 2 ^ b)%Q.
Proof. intros H. apply Qpower_le_compat_l; [exact H|discriminate]. Qed.

Lemma pow2_lt (a b : Z) : a < b -> (2 ^ a < 2 ^ b)%Q.
Proof. intros H. apply Qpower_lt_compat_l; [exact H|reflexivity]. Qed.

Lemma pow2_inject (n : Z) : 0 <= n -> (inject_Z (2 ^ n) == 2 ^ n)%Q.
Proof. intros H. now rewrite Zpower_Qpower. Qed.

Lemma pow2_succ (a : Z) : (2 ^ (a + 1) == 2 * 2 ^ a)%Q.
Proof. rewrite pow2_plus. change (2 ^ 1)%Q with 2%Q. ring. Qed.

Lemma Qdiv_le_cross (a b c d : Q) :
  (0 < b)%Q -> (0 < d)%Q -> (a * d <= c * b)%Q -> (a / b <= c / d)%Q.
Proof.
  intros Hb Hd H. apply Qle_shift_div_r; [exact Hb|].
  assert (E : (c / d * b == c * b / d)%Q) by (field; lra).
  rewrite E. now apply Qle_shift_div_l.
Qed.

Lemma Qdiv_lt_cross (a b c d : Q) :
  (0 < b)%Q -> (0 < d)%Q -> (a * d < c * b)%Q -> (a / b < c / d)%Q.
Proof.
  intros Hb Hd H. apply Qlt_shift_div_r; [exact Hb|].
  assert (E : (c / d * b == c * b / d)%Q) by (field; lra).
  rewrite E. now apply Qlt_shift_div_l.
Qed.

Lemma log2_bracket (n : Z) :
  0 < n ->
  (2 ^ Z.log2 n <= inject_Z n /\ inject_Z n < 2 * 2 ^ Z.log2 n)%Q.
Proof.
  intros H. destruct (Z.log2_spec n H) as [L U].
  pose proof (Z.log2_nonneg n) as P.
  rewrite <- pow2_succ. rewrite <- !pow2_inject by lia.
  split; [now rewrite <- Zle_Qle|]. rewrite <- Zlt_Qlt.
  now rewrite <- Z.add_1_r in U.
Qed.

(** [Float.ilog2 x] is the binary exponent of a positive [x]. *)
Lemma ilog2_spec (x : Q) :
  (0 < x)%Q -> (2 ^ Float.ilog2 x <= x /\ x < 2 ^ (Float.ilog2 x + 1))%Q.
Proof.
  intros Hx. destruct x as [n d].
  assert (Hn : 0 < n).
  { unfold Qlt in Hx. simpl in Hx. lia. }
  destruct (log2_bracket n Hn) as [Ln Un].
  destruct (log2_bracket (Zpos d) eq_refl) as [Ld Ud].
  assert (Ex : (n # d == inject_Z n / inject_Z (Zpos d))%Q)
    by apply Qmake_Qdiv.
  unfold Float.ilog2. cbn [Qnum Qden].
  set (ln := Z.log2 n) in *. set (ld := Z.log2 (Zpos d)) in *.
  pose proof (pow2_pos ln) as Pn. pose proof (pow2_pos ld) as Pd.
  assert (Ek : (2 ^ (ln - ld) == 2 ^ ln / 2 ^ ld)%Q).
  { apply Qpower_minus. discriminate. }
  assert (HD : (0 < inject_Z (Zpos d))%Q) by reflexivity.
  set (A := inject_Z n) in *. set (D := inject_Z (Zpos d)) in *.
  set (P := (2 ^ ln)%Q) in *. set (R := (2 ^ ld)%Q) in *.
  destruct (Qle_bool (2 ^ (ln - ld)) (n # d)) eqn:B.
  - apply Qle_bool_iff in B. split; [exact B|].
    rewrite pow2_succ, Ek, Ex.
    assert (E2 : (2 * (P / R) == (2 * P) / R)%Q) by (field; lra).
    rewrite E2. apply Qdiv_lt_cross; [exact HD|exact Pd|].
    apply Qle_lt_trans with (A * D)%Q.
    + apply Qmult_le_l; lra.
    + apply Qmult_lt_compat_r; lra.
  - assert (B' : ~ (2 ^ (ln - ld) <= n # d)%Q).
    { intros C. apply Qle_bool_iff in C. congruence. }
    apply Qnot_le_lt in B'. split.
    + assert (E1 : (2 ^ (ln - ld - 1) == P / (2 * R))%Q).
      { assert (E1' : (2 ^ (ln - ld - 1 + 1) == 2 * 2 ^ (ln - ld - 1))%Q)
          by apply pow2_succ.
        replace (ln - ld - 1 + 1) with (ln - ld) in E1' by lia.
        rewrite Ek in E1'.
        assert (E1'' : (2 ^ (ln - ld - 1) == (P / R) / 2)%Q).
        { rewrite E1'. field. }
        rewrite E1''. field. lra. }
      rewrite E1, Ex. apply Qdiv_le_cross; [lra|exact HD|].
      apply Qle_trans with (A * D)%Q.
      * apply Qmult_le_compat_r; lra.
      * assert (E3 : (A * (2 * R) == (2 * R) * A)%Q) by ring.
        rewrite E3. rewrite (Qmult_comm A D).
        apply Qmult_le_compat_r; [lra|]. lra.
    + now replace (ln - ld - 1 + 1) with (ln - ld) by lia.
Qed.

Lemma ilog2_unique (x : Q) (k : Z) :
  (2 ^ k <= x)%Q -> (x < 2 ^ (k + 1))%Q -> Float.ilog2 x = k.
Proof.
  intros L U.
  assert (Hx : (0 < x)%Q) by (pose proof (pow2_pos k); lra).
  destruct (ilog2_spec x Hx) as [L' U'].
  assert (H1 : (2 ^ k < 2 ^ (Float.ilog2 x + 1))%Q) by lra.
  assert (H2 : (2 ^ Float.ilog2 x < 2 ^ (k + 1))%Q) by lra.
  apply Qpower_lt_compat_l_inv in H1; [|reflexivity].
  apply Qpower_lt_compat_l_inv in H2; [|reflexivity].
  lia.
Qed.

Lemma fl_comp (x y : Q) : (x == y)%Q -> Float.fl x = Float.fl y.
Proof. intros E. unfold Float.fl. now rewrite (Qred_complete _ _ E). Qed.

Lemma fl_cases (x : Q) :
  ((x == 0)%Q /\ Float.fl x = 0%Q) \/
  (~ (x == 0)%Q /\
   (Float.fl x
    == inject_Z
         (Float.round_half_even (x / 2 ^ Float.exponent (Qred x)))
       * 2 ^ Float.exponent (Qred x))%Q).
Proof.
  unfold Float.fl. pose proof (Qred_correct x) as R.
  destruct (Qeq_bool (Qred x) 0) eqn:B.
  - left. apply Qeq_bool_iff in B. split; [|reflexivity].
    apply Qeq_trans with (Qred x); [now symmetry|exact B].
  - right. split.
    + intros Z0. assert (Z1 : (Qred x == 0)%Q) by (now rewrite R).
      apply Qeq_bool_iff in Z1. congruence.
    + cbv zeta. rewrite Qred_correct.
      rewrite (round_half_even_comp (Qred x / 2 ^ Float.exponent (Qred x))
                 (x / 2 ^ Float.exponent (Qred x))); [reflexivity|].
      apply Qdiv_comp; [exact R|reflexivity].
Qed.

Lemma Qabs_nonzero (y : Q) : ~ (y == 0)%Q -> (0 < Qabs y)%Q.
Proof.
  intros N. destruct (Qlt_le_dec y 0) as [L|G].
  - rewrite Qabs_neg; lra.
  - rewrite Qabs_pos; [|exact G]. lra.
Qed.

Lemma exponent_spec (x : Q) :
  ~ (x == 0)%Q ->
  Float.emin <= Float.exponent (Qred x) /\
  (Float.emin < Float.exponent (Qred x) ->
   (2 ^ (Float.exponent (Qred x) + 52) <= Qabs x)%Q).
Proof.
  intros N. unfold Float.exponent. split; [lia|]. intros H.
  assert (A : (Qabs (Qred x) == Qabs x)%Q)
    by (apply Qabs_wd, Qred_correct).
  assert (P : (0 < Qabs (Qred x))%Q).
  { rewrite A. now apply Qabs_nonzero. }
  destruct (ilog2_spec _ P) as [L _].
  replace (Z.max Float.emin (Float.ilog2 (Qabs (Qred x)) - 52) + 52)
    with (Float.ilog2 (Qabs (Qred x))) by lia.
  now rewrite <- A.
Qed.

Lemma pow2_52 (e : Z) : (inject_Z (2 ^ 52) * 2 ^ e == 2 ^ (e + 52))%Q.
Proof.
  rewrite pow2_inject by lia. rewrite pow2_plus. ring.
Qed.

(** A number with a mantissa of at most 53 bits at an Float.exponent below [e]
    is at most [2^(e+52)] in magnitude. *)
Lemma mantissa_bound (a : Q) (m ea e : Z) :
  (a == inject_Z m * 2 ^ ea)%Q -> Z.abs m <= 2 ^ 53 -> ea < e ->
  (- 2 ^ (e + 52) <= a /\ a <= 2 ^ (e + 52))%Q.
Proof.
  intros Ea Hm Hlt.
  assert (E : (2 ^ (e + 52) == inject_Z (2 ^ 53) * 2 ^ (e - 1))%Q).
  { replace (e + 52) with (53 + (e - 1)) by lia.
    rewrite pow2_plus, pow2_inject by lia. reflexivity. }
  assert (T : (2 ^ ea <= 2 ^ (e - 1))%Q) by (apply pow2_le; lia).
  pose proof (pow2_pos ea) as P.
  assert (M1 : (inject_Z m <= inject_Z (2 ^ 53))%Q)
    by (rewrite <- Zle_Qle; lia).
  assert (M2 : (- inject_Z (2 ^ 53) <= inject_Z m)%Q).
  { rewrite <- inject_Z_opp, <- Zle_Qle. lia. }
  assert (K : (0 < inject_Z (2 ^ 53))%Q) by reflexivity.
  rewrite E, Ea.
  set (M := inject_Z m) in *. set (K53 := inject_Z (2 ^ 53)) in *.
  set (t := (2 ^ ea)%Q) in *. set (t' := (2 ^ (e - 1))%Q) in *.
  clearbody M K53 t t'. split.
  - apply Qle_trans with (- K53 * t)%Q.
    + assert (K53 * t <= K53 * t')%Q by (apply Qmult_le_l; lra). lra.
    + apply Qmult_le_compat_r; lra.
  - apply Qle_trans with (K53 * t)%Q.
    + apply Qmult_le_compat_r; lra.
    + apply Qmult_le_l; lra.
Qed.

(** Rounding never crosses a binary64 number: one below [x] stays below
    the rounded [x]. *)
Lemma fl_ge (a x : Q) :
  Float.representable a -> (a <= x)%Q -> (a <= Float.fl x)%Q.
Proof.
  intros (m & ea & Ea & Hm & Hea) H.
  destruct (fl_cases x) as [[Z0 ->]|[NZ ->]]; [lra|].
  destruct (exponent_spec x NZ) as [Hmin Hbig].
  set (e := Float.exponent (Qred x)) in *.
  pose proof (pow2_pos e) as Pe.
  assert (Grid : forall N : Z,
             (inject_Z N * 2 ^ e <= x)%Q ->
             (inject_Z N * 2 ^ e
              <= inject_Z (Float.round_half_even (x / 2 ^ e)) * 2 ^ e)%Q).
  { intros N HN. apply Qmult_le_compat_r; [|lra].
    rewrite <- Zle_Qle. apply round_half_even_ge.
    now apply Qle_shift_div_l. }
  destruct (Z_le_gt_dec e ea) as [Le|Gt].
  - assert (Ea' : (a == inject_Z (m * 2 ^ (ea - e)) * 2 ^ e)%Q).
    { rewrite Ea, inject_Z_mult, pow2_inject by lia.
      replace ea with ((ea - e) + e) at 1 by lia.
      rewrite pow2_plus. ring. }
    rewrite Ea'. apply Grid. now rewrite <- Ea'.
  - assert (Big : (2 ^ (e + 52) <= Qabs x)%Q) by (apply Hbig; lia).
    destruct (mantissa_bound a m ea e Ea Hm) as [A1 A2]; [lia|].
    destruct (Qlt_le_dec x 0) as [Neg|Pos].
    + rewrite Qabs_neg in Big by lra.
      assert (Ex : (inject_Z (- 2 ^ 52) * 2 ^ e <= x)%Q).
      { rewrite inject_Z_opp.
        assert (E : (- inject_Z (2 ^ 52) * 2 ^ e == - 2 ^ (e + 52))%Q).
        { rewrite <- pow2_52. ring. }
        rewrite E. lra. }
      apply Grid in Ex. rewrite inject_Z_opp in Ex.
      assert (E : (- inject_Z (2 ^ 52) * 2 ^ e == - 2 ^ (e + 52))%Q).
      { rewrite <- pow2_52. ring. }
      rewrite E in Ex. lra.
    + rewrite Qabs_pos in Big by lra.
      assert (Ex : (inject_Z (2 ^ 52) * 2 ^ e <= x)%Q).
      { rewrite pow2_52. lra. }
      apply Grid in Ex. rewrite pow2_52 in Ex. lra.
Qed.

(** ... and one above [x] stays above the rounded [x]. *)
Lemma fl_le (a x : Q) :
  Float.representable a -> (x <= a)%Q -> (Float.fl x <= a)%Q.
Proof.
  intros (m & ea & Ea & Hm & Hea) H.
  destruct (fl_cases x) as [[Z0 ->]|[NZ ->]]; [lra|].
  destruct (exponent_spec x NZ) as [Hmin Hbig].
  set (e := Float.exponent (Qred x)) in *.
  pose proof (pow2_pos e) as Pe.
  assert (Grid : forall N : Z,
             (x <= inject_Z N * 2 ^ e)%Q ->
             (inject_Z (Float.round_half_even (x / 2 ^ e)) * 2 ^ e
              <= inject_Z N * 2 ^ e)%Q).
  { intros N HN. apply Qmult_le_compat_r; [|lra].
    rewrite <- Zle_Qle. apply round_half_even_le.
    now apply Qle_shift_div_r. }
  destruct (Z_le_gt_dec e ea) as [Le|Gt].
  - assert (Ea' : (a == inject_Z (m * 2 ^ (ea - e)) * 2 ^ e)%Q).
    { rewrite Ea, inject_Z_mult, pow2_inject by lia.
      replace ea with ((ea - e) + e) at 1 by lia.
      rewrite pow2_plus. ring. }
    rewrite Ea'. apply Grid. now rewrite <- Ea'.
  - assert (Big : (2 ^ (e + 52) <= Qabs x)%Q) by (apply Hbig; lia).
    destruct (mantissa_bound a m ea e Ea Hm) as [A1 A2]; [lia|].
    destruct (Qlt_le_dec x 0) as [Neg|Pos].
    + rewrite Qabs_neg in Big by lra.
      assert (Ex : (x <= inject_Z (- 2 ^ 52) * 2 ^ e)%Q).
      { rewrite inject_Z_opp.
        assert (E : (- inject_Z (2 ^ 52) * 2 ^ e == - 2 ^ (e + 52))%Q).
        { rewrite <- pow2_52. ring. }
        rewrite E. lra. }
      apply Grid in Ex. rewrite inject_Z_opp in Ex.
      assert (E : (- inject_Z (2 ^ 52) * 2 ^ e == - 2 ^ (e + 52))%Q).
      { rewrite <- pow2_52. ring. }
      rewrite E in Ex. lra.
    + rewrite Qabs_pos in Big by lra.
      assert (Ex : (x <= inject_Z (2 ^ 52) * 2 ^ e)%Q).
      { rewrite pow2_52. lra. }
      apply Grid in Ex. rewrite pow2_52 in Ex. lra.
Qed.

Lemma representable_Z (n : Z) :
  Z.abs n <= 2 ^ 53 -> Float.representable (inject_Z n).
Proof.
  intros H. exists n, 0. split; [|split; [exact H|unfold Float.emin; lia]].
  change (2 ^ 0)%Q with 1%Q. ring.
Qed.

(** Between two integers of at most 53 bits, the rounded value stays
    between them. *)
Lemma fl_bounds (a b : Z) (x : Q) :
  Z.abs a <= 2 ^ 53 -> Z.abs b <= 2 ^ 53 ->
  (inject_Z a <= x <= inject_Z b)%Q ->
  (inject_Z a <= Float.fl x <= inject_Z b)%Q.
Proof.
  intros Ha Hb [L U]. split.
  - apply fl_ge; [now apply representable_Z|exact L].
  - apply fl_le; [now apply representable_Z|exact U].
Qed.

(** Within one binade the grid is that of the binade's Float.exponent. *)
Lemma fl_binade (k : Z) (x : Q) :
  Float.emin <= k - 52 -> (2 ^ k <= x)%Q -> (x < 2 ^ (k + 1))%Q ->
  (Float.fl x
   == inject_Z (Float.round_half_even (x / 2 ^ (k - 52)))
      * 2 ^ (k - 52))%Q.
Proof.
  intros Hk L U. pose proof (pow2_pos k) as P.
  destruct (fl_cases x) as [[Z0 _]|[_ ->]]; [lra|].
  assert (E : Float.exponent (Qred x) = k - 52).
  { unfold Float.exponent.
    assert (A : (Qabs (Qred x) == x)%Q).
    { rewrite (Qabs_wd _ _ (Qred_correct x)). apply Qabs_pos. lra. }
    rewrite (ilog2_unique (Qabs (Qred x)) k); [lia| |]; now rewrite A. }
  now rewrite E.
Qed.

Lemma c0_7_value : Float.c0_7 = 3152519739159347 # 4503599627370496.
Proof. vm_compute. reflexivity. Qed.

Lemma c0_3_value : Float.c0_3 = 5404319552844595 # 18014398509481984.
Proof. vm_compute. reflexivity. Qed.

(** [10 * 0.7] lies half a unit in the last place below 7, and rounds to
    7, as does everything above it. *)
Lemma fl_ge_7 (x : Q) : (10 * Float.c0_7 <= x)%Q -> (7 <= Float.fl x)%Q.
Proof.
  intros H. rewrite c0_7_value in H.
  destruct (Qlt_le_dec x 7) as [Lt|Ge].
  - rewrite (fl_binade 2 x).
    + assert (N : 7 * 2 ^ 50 <= Float.round_half_even (x / 2 ^ (2 - 52))).
      { apply round_half_even_tie_ge; [reflexivity|].
        apply Qle_shift_div_l; [apply pow2_pos|].
        apply Qle_trans with (10 * (3152519739159347 # 4503599627370496))%Q;
          [|exact H].
        apply Qle_lteq. right. vm_compute. reflexivity. }
      rewrite Zle_Qle in N.
      apply Qle_trans
        with (inject_Z (7 * 2 ^ 50) * 2 ^ (2 - 52))%Q.
      * apply Qle_lteq. right. vm_compute. reflexivity.
      * apply Qmult_le_compat_r; [exact N|].
        apply Qlt_le_weak, pow2_pos.
    + unfold Float.emin. lia.
    + change (2 ^ 2)%Q with 4%Q. lra.
    + change (2 ^ (2 + 1))%Q with 8%Q. lra.
  - change 7%Q with (inject_Z 7). apply fl_ge; [|exact Ge].
    apply representable_Z. simpl. lia.
Qed.

(** ** Lookups after a write *)

Lemma find_map_stable {A : Type} (p : A -> bool) (g : A -> A) (l : list A) :
  (forall x, p (g x) = p x) ->
  find p (map g l) = option_map g (find p l).
Proof.
  intros Hp. induction l as [|a l IH]; simpl; [reflexivity|].
  rewrite Hp. destruct (p a); [reflexivity|exact IH].
Qed.

Lemma source_by_id_update_source (st : Store) (s' : Source.t) (sid : Z) :
  source_by_id (update_source st s') sid =
  option_map (fun r => if Source.id r =? Source.id s' then s' else r)
             (source_by_id st sid).
Proof.
  unfold source_by_id, update_source, replace_source; simpl.
  apply find_map_stable. intros x.
  destruct (Source.id x =? Source.id s') eqn:E; [|reflexivity].
  apply Z.eqb_eq in E. now rewrite E.
Qed.

Lemma source_by_id_sound (st : Store) (sid : Z) (s : Source.t) :
  source_by_id st sid = Some s -> Source.id s = sid.
Proof.
  unfold source_by_id. intros H. apply find_some in H.
  now apply Z.eqb_eq.
Qed.

Lemma update_source_credit_score_found (st : Store) (sid change : Z)
    (now : datetime) (s : Source.t) :
  source_by_id st sid = Some s ->
  update_source_credit_score st sid change now =
    (update_source st
       (Source.set_updated_at now
          (Source.set_credit_score
             (clamp 0 100 (Source.credit_score s + change)) s)), true).
Proof.
  intros H. unfold update_source_credit_score. now rewrite H.
Qed.

Lemma update_source_credit_score_lookup (st : Store) (sid change : Z)
    (now : datetime) (s : Source.t) (other : Z) :
  source_by_id st sid = Some s ->
  source_by_id (fst (update_source_credit_score st sid change now)) other =
    if other =? sid
    then Some (Source.set_updated_at now
                 (Source.set_credit_score
                    (clamp 0 100 (Source.credit_score s + change)) s))
    else source_by_id st other.
Proof.
  intros H. rewrite (update_source_credit_score_found _ _ _ _ _ H). simpl.
  rewrite source_by_id_update_source. simpl.
  pose proof (source_by_id_sound _ _ _ H) as Hid.
  destruct (other =? sid) eqn:E.
  - apply Z.eqb_eq in E. subst other. rewrite H. simpl.
    rewrite Hid, Z.eqb_refl. reflexivity.
  - destruct (source_by_id st other) as [r|] eqn:Hr; [|reflexivity].
    simpl. apply source_by_id_sound in Hr. rewrite Hr, Hid, E. reflexivity.
Qed.

Lemma clamp_in_range (x : Z) : 0 <= clamp 0 100 x <= 100.
Proof. unfold clamp. lia. Qed.

Lemma run_credit_calls_in_range (calls : list credit_call) :
  forall (st : Store) (sid : Z) (s : Source.t),
    source_by_id st sid = Some s ->
    0 <= Source.credit_score s <= 100 ->
    exists s',
      source_by_id (run_credit_calls st calls) sid = Some s' /\
      0 <= Source.credit_score s' <= 100.
Proof.
  induction calls as [|c calls IH]; intros st sid s Hs Hr; simpl.
  - exists s. now split.
  - change (exists s',
              source_by_id (run_credit_calls (apply_credit_call st c) calls)
                sid = Some s' /\ 0 <= Source.credit_score s' <= 100).
    unfold apply_credit_call.
    destruct (source_by_id st (cc_source_id c)) as [t|] eqn:Ht.
    + pose proof (update_source_credit_score_lookup st (cc_source_id c)
                    (cc_change c) (cc_now c) t sid Ht) as L.
      destruct (sid =? cc_source_id c).
      * eapply IH; [exact L|]. simpl. apply clamp_in_range.
      * rewrite Hs in L. eapply IH; [exact L|exact Hr].
    + unfold update_source_credit_score. rewrite Ht. simpl.
      eapply IH; eassumption.
Qed.

(** C3.  For a source present in the store and any integer [change],
    [update_source_credit_score] writes
    [max 0 (min 100 (credit_score + change))] into [credit_score], stamps
    [updated_at] with the time of the call and returns [True]; for an id
    that is not in the store it returns [False].  Hence a credit score that
    starts within 0..100 is within 0..100 after every sequence of such
    calls. *)
Theorem update_source_credit_score_clamped :
  forall (st : Store) (sid change : Z) (now : datetime),
    (forall s, source_by_id st sid = Some s ->
       let s' := Source.set_updated_at now
                   (Source.set_credit_score
                      (clamp 0 100 (Source.credit_score s + change)) s) in
       update_source_credit_score st sid change now
         = (update_source st s', true) /\
       source_by_id (update_source st s') sid = Some s' /\
       Source.credit_score s' = Z.max 0 (Z.min 100 (Source.credit_score s + change)) /\
       Source.updated_at s' = now) /\
    (source_by_id st sid = None ->
       update_source_credit_score st sid change now = (st, false)) /\
    (forall (calls : list credit_call) (other : Z) (s : Source.t),
       source_by_id st other = Some s ->
       0 <= Source.credit_score s <= 100 ->
       exists s',
         source_by_id (run_credit_calls st calls) other = Some s' /\
         0 <= Source.credit_score s' <= 100).
Proof.
  intros st sid change now. split; [|split].
  - intros s Hs s'. split; [|split; [|split]].
    + now apply update_source_credit_score_found.
    + pose proof (update_source_credit_score_lookup st sid change now s sid Hs)
        as L.
      rewrite (update_source_credit_score_found _ _ _ _ _ Hs) in L.
      simpl in L. now rewrite Z.eqb_refl in L.
    + reflexivity.
    + reflexivity.
  - intros Hn. unfold update_source_credit_score. now rewrite Hn.
  - intros calls other s Hs Hr. now apply run_credit_calls_in_range with s.
Qed.

(** The property of C3 at concrete stores. *)
Lemma update_source_credit_score_clamped_witness :
  (exists s',
     update_source_credit_score Examples.one_source 1 60 7
       = (update_source Examples.one_source s', true) /\
     Source.credit_score s' = 100 /\ Source.updated_at s' = 7) /\
  update_source_credit_score Examples.one_source 99 60 7
    = (Examples.one_source, false) /\
  (exists s',
     source_by_id
       (run_credit_calls Examples.one_source
          [mk_credit_call 1 60 7; mk_credit_call 1 (-500) 8]) 1 = Some s' /\
     0 <= Source.credit_score s' <= 100).
Proof.
  destruct (update_source_credit_score_clamped Examples.one_source 1 60 7)
    as [Hfound [_ Htrace]].
  destruct (update_source_credit_score_clamped Examples.one_source 99 60 7)
    as [_ [Hmissing _]].
  split; [|split].
  - destruct (Hfound _ eq_refl) as (E & _ & Hc & Hu).
    eexists. split; [exact E|]. split; [exact Hc|exact Hu].
  - exact (Hmissing eq_refl).
  - apply (Htrace _ 1 _ eq_refl). simpl. lia.
Defined.

(** C9.  For an id that is not in the store,
    [update_source_credit_score], [update_event_status] and
    [update_claim_status] each return [False] together with the very store
    they were given: no row, counter, score, status or timestamp differs. *)
Theorem failed_updates_leave_store_unchanged :
  forall (st : Store),
    (forall sid change now,
       source_by_id st sid = None ->
       update_source_credit_score st sid change now = (st, false)) /\
    (forall eid status score now,
       event_by_id st eid = None ->
       update_event_status st eid status score now = (st, false)) /\
    (forall cid status vr now,
       claim_by_id st cid = None ->
       update_claim_status st cid status vr now = (st, false)).
Proof.
  intros st. repeat split; intros.
  - unfold update_source_credit_score. now rewrite H.
  - unfold update_event_status, get_event. now rewrite H.
  - unfold update_claim_status. now rewrite H.
Qed.

(** The property of C9 at concrete stores. *)
Lemma failed_updates_leave_store_unchanged_witness :
  update_source_credit_score Examples.one_source 99 5 7
    = (Examples.one_source, false) /\
  update_event_status Examples.one_source "E-404" EventStatus.VERIFIED
    (Some 90%Q) 7 = (Examples.one_source, false) /\
  update_claim_status Examples.one_source 99 ClaimStatus.VERIFIED None 7
    = (Examples.one_source, false).
Proof.
  destruct (failed_updates_leave_store_unchanged Examples.one_source)
    as (H1 & H2 & H3).
  split; [|split].
  - apply H1. reflexivity.
  - apply H2. reflexivity.
  - apply H3. reflexivity.
Defined.

(** C10, as stated, fails: a source created with [total_claims = -3] and
    [verified_claims = 1] has a [total_claims] other than 0, and its
    ["accuracy_rate"] is 0, which is not [1 / -3 * 100], in floats or in
    exact arithmetic. *)
Lemma get_source_statistics_negative_total :
  ~ (forall (st : Store) (sid : Z) (s : Source.t),
       source_by_id st sid = Some s ->
       Source.total_claims s <> 0 ->
       exists v q,
         dict_get "accuracy_rate" (get_source_statistics st sid) = Some v /\
         number_value v = Some q /\
         ((q == Float.mul
                  (Float.truediv (Source.verified_claims s)
                                 (Source.total_claims s)) 100)%Q \/
          (q == inject_Z (Source.verified_claims s)
                / inject_Z (Source.total_claims s) * 100)%Q)).
Proof.
  intros H.
  destruct (H Examples.negative_total 1 _ eq_refl) as (v & q & Hv & Hq & E).
  - intros C. vm_compute in C. discriminate C.
  - vm_compute in Hv. injection Hv as <-.
    vm_compute in Hq. injection Hq as <-.
    destruct E as [E|E]; vm_compute in E; discriminate E.
Qed.

(** C10, amended.  For an id that is not in the store
    [get_source_statistics] returns the empty dictionary.  For a source in
    the store it returns its three counters and its credit score, with
    ["accuracy_rate"] equal to the integer 0 when [total_claims] is 0 or
    negative, the guard of the division being [total_claims > 0], and to
    the float [verified_claims / total_claims * 100], the quotient and the
    product each rounded to double precision, when [total_claims] is
    positive. *)
Theorem get_source_statistics_accuracy :
  forall (st : Store) (sid : Z),
    (source_by_id st sid = None -> get_source_statistics st sid = []) /\
    (forall s, source_by_id st sid = Some s ->
       let stats := get_source_statistics st sid in
       dict_get "total_claims" stats = Some (PyInt (Source.total_claims s)) /\
       dict_get "verified_claims" stats
         = Some (PyInt (Source.verified_claims s)) /\
       dict_get "refuted_claims" stats
         = Some (PyInt (Source.refuted_claims s)) /\
       dict_get "credit_score" stats = Some (PyInt (Source.credit_score s)) /\
       (Source.total_claims s <= 0 ->
          dict_get "accuracy_rate" stats = Some (PyInt 0)) /\
       (0 < Source.total_claims s ->
          dict_get "accuracy_rate" stats
            = Some (PyFloat
                      (Float.mul
                         (Float.truediv (Source.verified_claims s)
                                        (Source.total_claims s))
                         100)))).
Proof.
  intros st sid. split.
  - intros H. unfold get_source_statistics. now rewrite H.
  - intros s H stats. subst stats. unfold get_source_statistics. rewrite H.
    repeat split; try reflexivity; intros Ht; simpl.
    + destruct (Z.gtb_spec (Source.total_claims s) 0); [lia|reflexivity].
    + destruct (Z.gtb_spec (Source.total_claims s) 0); [reflexivity|lia].
Qed.

(** The property of C10 at concrete stores: no statistics for a missing
    id, 0 for a source without claims and for one created with
    [total_claims = -3], and 33.33333333333333 for one verified claim out
    of three. *)
Lemma get_source_statistics_accuracy_witness :
  get_source_statistics Examples.three_claims 99 = [] /\
  dict_get "accuracy_rate" (get_source_statistics Examples.one_source 1)
    = Some (PyInt 0) /\
  dict_get "accuracy_rate" (get_source_statistics Examples.negative_total 1)
    = Some (PyInt 0) /\
  dict_get "accuracy_rate" (get_source_statistics Examples.one_in_three 1)
    = Some (PyFloat (2345624805922133 # 70368744177664)).
Proof.
  split; [|split; [|split]].
  - apply (proj1 (get_source_statistics_accuracy Examples.three_claims 99)).
    reflexivity.
  - destruct (proj2 (get_source_statistics_accuracy Examples.one_source 1)
                _ eq_refl) as (_ & _ & _ & _ & H0 & _).
    apply H0. simpl. lia.
  - destruct (proj2 (get_source_statistics_accuracy Examples.negative_total 1)
                _ eq_refl) as (_ & _ & _ & _ & H0 & _).
    apply H0. simpl. lia.
  - destruct (proj2 (get_source_statistics_accuracy Examples.one_in_three 1)
                _ eq_refl) as (_ & _ & _ & _ & _ & Hpos).
    rewrite Hpos; [|simpl; lia]. vm_compute. reflexivity.
Defined.

Lemma ClaimStatus_eqb_spec (x y : ClaimStatus.t) :
  reflect (x = y) (ClaimStatus.eqb x y).
Proof. destruct x, y; constructor; congruence. Qed.

Lemma claim_by_id_sound (st : Store) (cid : Z) (c : Claim.t) :
  claim_by_id st cid = Some c -> Claim.id c = cid.
Proof.
  unfold claim_by_id. intros H. apply find_some in H. now apply Z.eqb_eq.
Qed.

Lemma claim_by_id_update_claim (st : Store) (c' : Claim.t) (cid : Z) :
  claim_by_id (update_claim st c') cid =
  option_map (fun r => if Claim.id r =? Claim.id c' then c' else r)
             (claim_by_id st cid).
Proof.
  unfold claim_by_id, update_claim, replace_claim; simpl.
  apply find_map_stable. intros x.
  destruct (Claim.id x =? Claim.id c') eqn:E; [|reflexivity].
  apply Z.eqb_eq in E. now rewrite E.
Qed.

Lemma claim_after_source_id claim status vr :
  Claim.source_id (claim_after claim status vr) = Claim.source_id claim.
Proof. unfold claim_after. destruct vr as [v|]; [destruct (truthy v)|]; reflexivity. Qed.

Lemma claim_after_id claim status vr :
  Claim.id (claim_after claim status vr) = Claim.id claim.
Proof. unfold claim_after. destruct vr as [v|]; [destruct (truthy v)|]; reflexivity. Qed.

Lemma claim_after_status claim status vr :
  Claim.status (claim_after claim status vr) = status.
Proof. unfold claim_after. destruct vr as [v|]; [destruct (truthy v)|]; reflexivity. Qed.

Lemma owner_after_id now old new s :
  Source.id (owner_after now old new s) = Source.id s.
Proof.
  unfold owner_after.
  repeat match goal with |- context [if ?b then _ else _] => destruct b end;
    reflexivity.
Qed.

Lemma owner_after_verified now old new s :
  Source.verified_claims (owner_after now old new s)
  = Source.verified_claims s + bump ClaimStatus.VERIFIED old new.
Proof. unfold owner_after, bump. destruct old, new; simpl; lia. Qed.

Lemma owner_after_refuted now old new s :
  Source.refuted_claims (owner_after now old new s)
  = Source.refuted_claims s + bump ClaimStatus.REFUTED old new.
Proof. unfold owner_after, bump. destruct old, new; simpl; lia. Qed.

Lemma owner_after_same now x s : owner_after now x x s = s.
Proof. unfold owner_after. now destruct x. Qed.

Lemma update_claim_status_found (st : Store) (cid : Z)
    (status : ClaimStatus.t) (vr : option PyValue) (now : datetime)
    (claim : Claim.t) :
  claim_by_id st cid = Some claim ->
  update_claim_status st cid status vr now =
    (let st1 := update_claim st (claim_after claim status vr) in
     match source_by_id st (Claim.source_id claim) with
     | Some s =>
         if ClaimStatus.eqb (Claim.status claim) status
            || negb (ClaimStatus.eqb status ClaimStatus.VERIFIED
                     || ClaimStatus.eqb status ClaimStatus.REFUTED)
         then st1
         else update_source st1 (owner_after now (Claim.status claim) status s)
     | None => st1
     end, true).
Proof.
  intros H. unfold update_claim_status. rewrite H.
  fold (claim_after claim status vr).
  unfold claim_source. rewrite claim_after_source_id.
  change (source_by_id (update_claim st (claim_after claim status vr))
            (Claim.source_id claim))
    with (source_by_id st (Claim.source_id claim)).
  destruct (source_by_id st (Claim.source_id claim)) as [s|]; [|reflexivity].
  unfold owner_after.
  destruct (Claim.status claim), status; reflexivity.
Qed.

Lemma update_claim_status_lookup (st : Store) (cid : Z)
    (status : ClaimStatus.t) (vr : option PyValue) (now : datetime)
    (claim : Claim.t) (sid : Z) :
  claim_by_id st cid = Some claim ->
  source_by_id (fst (update_claim_status st cid status vr now)) sid =
    if sid =? Claim.source_id claim
    then option_map (owner_after now (Claim.status claim) status)
                    (source_by_id st sid)
    else source_by_id st sid.
Proof.
  intros H. rewrite (update_claim_status_found _ _ _ _ _ _ H). simpl.
  destruct (sid =? Claim.source_id claim) eqn:E.
  - apply Z.eqb_eq in E. subst sid.
    destruct (source_by_id st (Claim.source_id claim)) as [s|] eqn:Hs.
    + pose proof (source_by_id_sound _ _ _ Hs) as Hid.
      destruct (ClaimStatus.eqb (Claim.status claim) status
                || negb (ClaimStatus.eqb status ClaimStatus.VERIFIED
                         || ClaimStatus.eqb status ClaimStatus.REFUTED))
        eqn:C.
      * change (source_by_id st (Claim.source_id claim)
                = option_map (owner_after now (Claim.status claim) status)
                    (Some s)).
        rewrite Hs. simpl. f_equal.
        unfold owner_after. destruct (Claim.status claim), status;
          simpl in C; try discriminate; reflexivity.
      * rewrite source_by_id_update_source.
        change (source_by_id (update_claim st (claim_after claim status vr))
                  (Claim.source_id claim))
          with (source_by_id st (Claim.source_id claim)).
        rewrite Hs. simpl. rewrite owner_after_id, Z.eqb_refl. reflexivity.
    + exact Hs.
  - destruct (source_by_id st (Claim.source_id claim)) as [s|] eqn:Hs;
      [|reflexivity].
    destruct (_ || _); [reflexivity|].
    rewrite source_by_id_update_source.
    change (source_by_id (update_claim st (claim_after claim status vr)) sid)
      with (source_by_id st sid).
    destruct (source_by_id st sid) as [r|] eqn:Hr; [|reflexivity].
    simpl. rewrite owner_after_id.
    rewrite (source_by_id_sound _ _ _ Hr), (source_by_id_sound _ _ _ Hs), E.
    reflexivity.
Qed.

Lemma enters_bump (target : ClaimStatus.t) (sid : Z) (st : Store)
    (c : status_call) (claim : Claim.t) :
  claim_by_id st (sc_claim_id c) = Some claim ->
  (if enters target sid st c then 1 else 0) =
  if Claim.source_id claim =? sid
  then bump target (Claim.status claim) (sc_status c) else 0.
Proof.
  intros H. unfold enters, bump. rewrite H.
  destruct (Claim.source_id claim =? sid); simpl; reflexivity.
Qed.

Lemma run_status_calls_counters (calls : list status_call) :
  forall (st : Store) (sid : Z) (s : Source.t),
    source_by_id st sid = Some s ->
    exists s',
      source_by_id (run_status_calls st calls) sid = Some s' /\
      Source.verified_claims s' =
        Source.verified_claims s
        + transitions_into ClaimStatus.VERIFIED sid st calls /\
      Source.refuted_claims s' =
        Source.refuted_claims s
        + transitions_into ClaimStatus.REFUTED sid st calls.
Proof.
  induction calls as [|c calls IH]; intros st sid s Hs.
  - exists s. simpl. repeat split; [exact Hs|lia|lia].
  - change (run_status_calls st (c :: calls))
      with (run_status_calls (apply_status_call st c) calls).
    cbn [transitions_into].
    destruct (claim_by_id st (sc_claim_id c)) as [claim|] eqn:Hc.
    + rewrite !(enters_bump _ _ _ _ _ Hc).
      pose proof (update_claim_status_lookup st (sc_claim_id c) (sc_status c)
                    (sc_verification_result c) (sc_now c) claim sid Hc) as L.
      fold (apply_status_call st c) in L.
      rewrite Hs in L. rewrite (Z.eqb_sym (Claim.source_id claim) sid).
      destruct (sid =? Claim.source_id claim); simpl in L.
      * destruct (IH _ _ _ L) as (s' & H1 & H2 & H3).
        exists s'. split; [exact H1|].
        rewrite owner_after_verified in H2.
        rewrite owner_after_refuted in H3. lia.
      * destruct (IH _ _ _ L) as (s' & H1 & H2 & H3).
        exists s'. split; [exact H1|]. lia.
    + assert (E : apply_status_call st c = st).
      { unfold apply_status_call, update_claim_status. now rewrite Hc. }
      unfold enters. rewrite Hc, E.
      destruct (IH _ _ _ Hs) as (s' & H1 & H2 & H3).
      exists s'. split; [exact H1|]. lia.
Qed.

Lemma update_claim_status_claim_lookup (st : Store) (cid : Z)
    (status : ClaimStatus.t) (vr : option PyValue) (now : datetime)
    (claim : Claim.t) :
  claim_by_id st cid = Some claim ->
  claim_by_id (fst (update_claim_status st cid status vr now)) cid
  = Some (claim_after claim status vr).
Proof.
  intros H. rewrite (update_claim_status_found _ _ _ _ _ _ H). simpl.
  assert (E : claim_by_id (update_claim st (claim_after claim status vr)) cid
              = Some (claim_after claim status vr)).
  { rewrite claim_by_id_update_claim, H. simpl.
    rewrite claim_after_id, Z.eqb_refl. reflexivity. }
  destruct (source_by_id st (Claim.source_id claim)); [|exact E].
  destruct (_ || _); exact E.
Qed.

Lemma update_claim_status_same_status (st : Store) (cid : Z)
    (vr : option PyValue) (now : datetime) (claim : Claim.t) :
  claim_by_id st cid = Some claim ->
  sources (fst (update_claim_status st cid (Claim.status claim) vr now))
  = sources st.
Proof.
  intros H. rewrite (update_claim_status_found _ _ _ _ _ _ H). simpl.
  destruct (source_by_id st (Claim.source_id claim)); [|reflexivity].
  destruct (ClaimStatus_eqb_spec (Claim.status claim) (Claim.status claim));
    [reflexivity|congruence].
Qed.

(** C1.  For a claim in the store whose owning source is in the store,
    one call of [update_claim_status] adds one to the owner's
    [verified_claims] exactly when the status before the call is not
    VERIFIED and the new one is, adds one to [refuted_claims] exactly when
    the status before is not REFUTED and the new one is, and adds nothing
    otherwise.  A call with the status the claim already has changes no
    source row, so repeating a call right after itself changes none either.
    Over any sequence of calls each counter grows by the number of
    transitions into its status made on the claims of that source. *)
Theorem update_claim_status_counts_transitions :
  forall (st : Store) (cid : Z) (status : ClaimStatus.t)
         (vr : option PyValue) (now : datetime) (claim : Claim.t)
         (owner : Source.t),
    claim_by_id st cid = Some claim ->
    source_by_id st (Claim.source_id claim) = Some owner ->
    let st' := fst (update_claim_status st cid status vr now) in
    (exists owner',
       source_by_id st' (Claim.source_id claim) = Some owner' /\
       Source.verified_claims owner' =
         Source.verified_claims owner
         + (if negb (ClaimStatus.eqb (Claim.status claim) ClaimStatus.VERIFIED)
               && ClaimStatus.eqb status ClaimStatus.VERIFIED
            then 1 else 0) /\
       Source.refuted_claims owner' =
         Source.refuted_claims owner
         + (if negb (ClaimStatus.eqb (Claim.status claim) ClaimStatus.REFUTED)
               && ClaimStatus.eqb status ClaimStatus.REFUTED
            then 1 else 0)) /\
    (status = Claim.status claim -> sources st' = sources st) /\
    (forall vr2 now2,
       sources (fst (update_claim_status st' cid status vr2 now2))
       = sources st') /\
    (forall calls : list status_call,
       exists owner',
         source_by_id (run_status_calls st calls) (Claim.source_id claim)
           = Some owner' /\
         Source.verified_claims owner' =
           Source.verified_claims owner
           + transitions_into ClaimStatus.VERIFIED (Claim.source_id claim)
               st calls /\
         Source.refuted_claims owner' =
           Source.refuted_claims owner
           + transitions_into ClaimStatus.REFUTED (Claim.source_id claim)
               st calls).
Proof.
  intros st cid status vr now claim owner Hc Hs st'.
  split; [|split; [|split]].
  - exists (owner_after now (Claim.status claim) status owner).
    subst st'. rewrite (update_claim_status_lookup _ _ _ _ _ _ _ Hc).
    rewrite Z.eqb_refl, Hs. simpl.
    split; [reflexivity|]. split.
    + apply owner_after_verified.
    + apply owner_after_refuted.
  - intros ->. subst st'. now apply update_claim_status_same_status.
  - intros vr2 now2. subst st'.
    pose proof (update_claim_status_claim_lookup st cid status vr now claim Hc)
      as Hc'.
    pose proof (update_claim_status_same_status _ cid vr2 now2 _ Hc') as E.
    now rewrite claim_after_status in E.
  - intros calls. now apply run_status_calls_counters.
Qed.

(** The property of C1 at concrete stores. *)
Lemma update_claim_status_counts_transitions_witness :
  (exists owner',
     source_by_id
       (fst (update_claim_status Examples.three_claims 1 ClaimStatus.VERIFIED
               None 9)) 1 = Some owner' /\
     Source.verified_claims owner' = 1 /\
     Source.refuted_claims owner' = 0) /\
  (exists owner',
     source_by_id
       (run_status_calls Examples.three_claims
          [ mk_status_call 1 ClaimStatus.REFUTED None 9;
            mk_status_call 1 ClaimStatus.REFUTED None 10;
            mk_status_call 2 ClaimStatus.VERIFIED None 11 ]) 1
     = Some owner' /\
     Source.verified_claims owner' = 1 /\
     Source.refuted_claims owner' = 1).
Proof.
  destruct (update_claim_status_counts_transitions Examples.three_claims 1
              ClaimStatus.VERIFIED None 9 _ _ eq_refl eq_refl)
    as [(o & H1 & H2 & H3) [_ [_ Htrace]]].
  split.
  - exists o. split; [exact H1|]. split; [exact H2|exact H3].
  - destruct (Htrace [ mk_status_call 1 ClaimStatus.REFUTED None 9;
                       mk_status_call 1 ClaimStatus.REFUTED None 10;
                       mk_status_call 2 ClaimStatus.VERIFIED None 11 ])
      as (o' & T1 & T2 & T3).
    exists o'. split; [exact T1|]. split; [exact T2|exact T3].
Defined.

(** ** find_or_create_source *)

Lemma find_none_filter_nil {A : Type} (p : A -> bool) (l : list A) :
  find p l = None <-> filter p l = [].
Proof.
  induction l as [|a l IH]; simpl; [tauto|].
  destruct (p a); [split; discriminate|exact IH].
Qed.

Lemma source_by_name_none_rows (st : Store) (name : string) :
  source_by_name st name = None <-> rows_named st name = 0%nat.
Proof.
  unfold source_by_name, rows_named. rewrite find_none_filter_nil.
  destruct (filter _ _); simpl; split; congruence.
Qed.

Lemma source_by_name_add_source (st : Store) (s : Source.t) (name : string) :
  source_by_name st name = None ->
  Source.name s = name ->
  source_by_name (add_source st s) name = Some s.
Proof.
  unfold source_by_name; simpl. intros Hn Hs.
  induction (sources st) as [|a l IH]; simpl in *.
  - rewrite Hs, String.eqb_refl. reflexivity.
  - destruct (String.eqb (Source.name a) name); [discriminate|now apply IH].
Qed.

Lemma rows_named_add_source (st : Store) (s : Source.t) (name : string) :
  rows_named (add_source st s) name =
  (rows_named st name
   + if String.eqb (Source.name s) name then 1 else 0)%nat.
Proof.
  unfold rows_named; simpl. rewrite filter_app, length_app. simpl.
  destruct (String.eqb (Source.name s) name); reflexivity.
Qed.

Lemma find_or_create_source_rows (st : Store) (name : string)
    (ty : SourceType.t) (kw : Source.kwargs) (now : datetime)
    (other : string) :
  rows_named (fst (find_or_create_source st name ty kw now)) other =
  if String.eqb name other
  then Nat.max 1 (rows_named st other)
  else rows_named st other.
Proof.
  unfold find_or_create_source.
  destruct (source_by_name st name) as [s|] eqn:H; cbn [fst].
  - destruct (String.eqb_spec name other) as [->|]; [|reflexivity].
    assert (rows_named st other <> 0%nat).
    { intros E. apply source_by_name_none_rows in E. congruence. }
    lia.
  - rewrite rows_named_add_source. cbn [Source.name Source.insert_row].
    destruct (String.eqb_spec name other) as [->|]; [|lia].
    apply source_by_name_none_rows in H. rewrite H. reflexivity.
Qed.

Lemma run_source_calls_rows (calls : list source_call) :
  forall (st : Store) (name : string),
    (rows_named st name <= 1)%nat ->
    (rows_named (run_source_calls st calls) name <= 1)%nat.
Proof.
  induction calls as [|c calls IH]; intros st name H; [exact H|].
  change (run_source_calls st (c :: calls))
    with (run_source_calls (apply_source_call st c) calls).
  apply IH. unfold apply_source_call.
  rewrite find_or_create_source_rows.
  destruct (String.eqb (fc_name c) name); lia.
Qed.

(** C4, as stated, fails: a source created with [credit_score=80] among
    the keyword arguments has credit score 80, not 50. *)
Lemma find_or_create_source_default_overridden :
  ~ (forall (st : Store) (name : string) (ty : SourceType.t)
            (kw : Source.kwargs) (now : datetime),
       source_by_name st name = None ->
       Source.credit_score (snd (find_or_create_source st name ty kw now))
       = 50).
Proof.
  intros H.
  specialize (H empty_store "A"%string SourceType.BLOG
                (Examples.with_credit 80) 0 eq_refl).
  discriminate H.
Qed.

(** C4, amended.  [find_or_create_source] returns the source already
    carrying the name as it is, with the store untouched, whatever type and
    keyword arguments the call brings.  When no source carries the name it
    inserts one row with the given name and type; its [credit_score] is 50
    and its three counters are 0 unless the keyword arguments set them.  A
    second call with the same name returns the first call's source and
    store, and a name carried by at most one row is carried by at most one
    row after any sequence of calls. *)
Theorem find_or_create_source_first_write_wins :
  forall (st : Store) (name : string) (ty : SourceType.t)
         (kw : Source.kwargs) (now : datetime),
    (forall s, source_by_name st name = Some s ->
       find_or_create_source st name ty kw now = (st, s)) /\
    (source_by_name st name = None ->
       let row := Source.insert_row (next_source_id st) now name ty kw in
       find_or_create_source st name ty kw now = (add_source st row, row) /\
       Source.name row = name /\
       Source.type row = ty /\
       Source.credit_score row = column_default 50 (Source.kw_credit_score kw) /\
       Source.total_claims row = column_default 0 (Source.kw_total_claims kw) /\
       Source.verified_claims row
         = column_default 0 (Source.kw_verified_claims kw) /\
       Source.refuted_claims row
         = column_default 0 (Source.kw_refuted_claims kw) /\
       (Source.kw_credit_score kw = None -> Source.credit_score row = 50) /\
       (Source.kw_total_claims kw = None -> Source.total_claims row = 0) /\
       (Source.kw_verified_claims kw = None ->
          Source.verified_claims row = 0) /\
       (Source.kw_refuted_claims kw = None ->
          Source.refuted_claims row = 0)) /\
    (forall ty2 kw2 now2,
       find_or_create_source
         (fst (find_or_create_source st name ty kw now)) name ty2 kw2 now2
       = find_or_create_source st name ty kw now) /\
    (forall (calls : list source_call) (other : string),
       (rows_named st other <= 1)%nat ->
       (rows_named (run_source_calls st calls) other <= 1)%nat).
Proof.
  intros st name ty kw now. split; [|split; [|split]].
  - intros s H. unfold find_or_create_source. now rewrite H.
  - intros H row. unfold find_or_create_source. rewrite H.
    repeat split; try reflexivity; intros E; subst row; simpl;
      now rewrite E.
  - intros ty2 kw2 now2. unfold find_or_create_source at 2 3.
    destruct (source_by_name st name) as [s|] eqn:H; simpl.
    + unfold find_or_create_source. now rewrite H.
    + unfold find_or_create_source.
      rewrite (source_by_name_add_source st
                 (Source.insert_row (next_source_id st) now name ty kw)
                 name H eq_refl).
      reflexivity.
  - intros calls other. apply run_source_calls_rows.
Qed.

(** The property of C4 at concrete stores. *)
Lemma find_or_create_source_first_write_wins_witness :
  (exists s,
     find_or_create_source Examples.one_source "A" SourceType.FORUM
       (Examples.with_credit 5) 9 = (Examples.one_source, s) /\
     Source.credit_score s = 50 /\ Source.type s = SourceType.BLOG) /\
  Source.credit_score
    (snd (find_or_create_source empty_store "A" SourceType.BLOG
            Source.no_kwargs 0)) = 50 /\
  (rows_named
     (run_source_calls empty_store
        [ mk_source_call "A" SourceType.BLOG Source.no_kwargs 0%Z;
          mk_source_call "A" SourceType.FORUM (Examples.with_credit 5%Z)
            1%Z ])
     "A" <= 1)%nat.
Proof.
  split; [|split].
  - destruct (find_or_create_source_first_write_wins Examples.one_source "A"
                SourceType.FORUM (Examples.with_credit 5) 9) as [Hsome _].
    eexists. split; [apply Hsome; reflexivity|]. split; reflexivity.
  - destruct (find_or_create_source_first_write_wins empty_store "A"
                SourceType.BLOG Source.no_kwargs 0) as [_ [Hnone _]].
    destruct (Hnone eq_refl) as (E & _ & _ & _ & _ & _ & _ & Hd & _).
    rewrite E. apply Hd. reflexivity.
  - destruct (find_or_create_source_first_write_wins empty_store "A"
                SourceType.BLOG Source.no_kwargs 0) as [_ [_ [_ Hrows]]].
    apply Hrows. vm_compute. lia.
Defined.

(** ** create_claim *)

Lemma claims_referencing_add_claim (st : Store) (c : Claim.t) (sid : Z) :
  claims_referencing (add_claim st c) sid =
  claims_referencing st sid + if Claim.source_id c =? sid then 1 else 0.
Proof.
  unfold claims_referencing; simpl. rewrite filter_app, length_app. simpl.
  destruct (Claim.source_id c =? sid); simpl; lia.
Qed.

Lemma create_claim_no_source (eng : Engine) (st : Store) (text : string)
    (sid : Z) (eid : option string) (kw : Claim.kwargs) (now : datetime) :
  source_by_id st sid = None ->
  create_claim eng st text sid eid kw now =
    if enforce_foreign_keys eng
    then (st, Raised IntegrityError)
    else (add_claim st
            (Claim.insert_row (next_claim_id st) now text sid eid kw),
          Returned (Claim.insert_row (next_claim_id st) now text sid eid kw)).
Proof.
  intros H. unfold create_claim, claim_foreign_keys_ok.
  change (source_by_id (add_claim st ?c) sid) with (source_by_id st sid).
  cbn [Claim.source_id Claim.insert_row]. rewrite H.
  destruct (enforce_foreign_keys eng); reflexivity.
Qed.

Lemma create_claim_with_source (eng : Engine) (st : Store) (text : string)
    (sid : Z) (eid : option string) (kw : Claim.kwargs) (now : datetime)
    (s : Source.t) :
  source_by_id st sid = Some s ->
  enforce_foreign_keys eng = false \/
  claim_foreign_keys_ok st
    (Claim.insert_row (next_claim_id st) now text sid eid kw) = true ->
  create_claim eng st text sid eid kw now =
    (update_source
       (add_claim st (Claim.insert_row (next_claim_id st) now text sid eid kw))
       (onupdate now
          (Source.set_total_claims (Source.total_claims s + 1) s)),
     Returned (Claim.insert_row (next_claim_id st) now text sid eid kw)).
Proof.
  intros H Hfk. unfold create_claim.
  change (source_by_id (add_claim st ?c) sid) with (source_by_id st sid).
  rewrite H.
  destruct Hfk as [-> | ->]; [reflexivity|].
  now rewrite andb_false_r.
Qed.

(** C5, as stated, fails: on an engine that does not check foreign keys a
    claim naming a source id that is not in the store is inserted and
    returned. *)
Lemma create_claim_dangling_source_inserted :
  ~ (forall (eng : Engine) (st : Store) (text : string) (sid : Z)
            (eid : option string) (kw : Claim.kwargs) (now : datetime),
       source_by_id st sid = None ->
       exists e, create_claim eng st text sid eid kw now = (st, Raised e)).
Proof.
  intros H.
  destruct (H lenient_engine Examples.one_source "orphan"%string 99 None
              Claim.no_kwargs 5 eq_refl) as [e He].
  discriminate He.
Qed.

(** C5, amended.  When [source_id] names a source in the store (and the
    engine either does not check foreign keys or finds the claim's keys in
    order), [create_claim] appends the claim and adds one to that source's
    [total_claims] in the same commit; if [total_claims] equalled the
    number of claims referencing the source before, it does after.  When
    [source_id] names no source the repository raises nothing of its own:
    without foreign-key checks the claim is inserted and no counter moves,
    with them the commit fails with an integrity error and the store is as
    before. *)
Theorem create_claim_counts_for_existing_source :
  forall (eng : Engine) (st : Store) (text : string) (sid : Z)
         (eid : option string) (kw : Claim.kwargs) (now : datetime),
    let claim := Claim.insert_row (next_claim_id st) now text sid eid kw in
    (forall s, source_by_id st sid = Some s ->
       enforce_foreign_keys eng = false \/
       claim_foreign_keys_ok st claim = true ->
       exists st' s',
         create_claim eng st text sid eid kw now = (st', Returned claim) /\
         claims st' = claims st ++ [claim] /\
         source_by_id st' sid = Some s' /\
         Source.total_claims s' = Source.total_claims s + 1 /\
         (Source.total_claims s = claims_referencing st sid ->
          Source.total_claims s' = claims_referencing st' sid)) /\
    (source_by_id st sid = None ->
       (enforce_foreign_keys eng = false ->
          create_claim eng st text sid eid kw now
          = (add_claim st claim, Returned claim)) /\
       (enforce_foreign_keys eng = true ->
          create_claim eng st text sid eid kw now
          = (st, Raised IntegrityError))).
Proof.
  intros eng st text sid eid kw now claim. split.
  - intros s Hs Hfk.
    exists (update_source (add_claim st claim)
              (onupdate now
                 (Source.set_total_claims (Source.total_claims s + 1) s))).
    exists (onupdate now
              (Source.set_total_claims (Source.total_claims s + 1) s)).
    split; [now apply create_claim_with_source|].
    split; [reflexivity|].
    assert (L : source_by_id
                  (update_source (add_claim st claim)
                     (onupdate now
                        (Source.set_total_claims
                           (Source.total_claims s + 1) s))) sid
                = Some (onupdate now
                          (Source.set_total_claims
                             (Source.total_claims s + 1) s))).
    { rewrite source_by_id_update_source.
      change (source_by_id (add_claim st claim) sid)
        with (source_by_id st sid).
      rewrite Hs. simpl. rewrite Z.eqb_refl. reflexivity. }
    split; [exact L|]. split; [reflexivity|].
    intros Hinv.
    change (claims_referencing (update_source (add_claim st claim) ?x) sid)
      with (claims_referencing (add_claim st claim) sid).
    rewrite claims_referencing_add_claim.
    subst claim. cbn [Claim.source_id Claim.insert_row].
    rewrite Z.eqb_refl. simpl. lia.
  - intros Hn. split; intros E.
    + rewrite (create_claim_no_source _ _ _ _ _ _ _ Hn), E. reflexivity.
    + rewrite (create_claim_no_source _ _ _ _ _ _ _ Hn), E. reflexivity.
Qed.

(** The property of C5 at concrete stores. *)
Lemma create_claim_counts_for_existing_source_witness :
  (exists st' s',
     create_claim lenient_engine Examples.event_only "first" 1
       (Some "E"%string) Claim.no_kwargs 2
     = (st', Returned (Claim.insert_row 1 2 "first" 1 (Some "E"%string)
                         Claim.no_kwargs)) /\
     source_by_id st' 1 = Some s' /\
     Source.total_claims s' = 1 /\
     Source.total_claims s' = claims_referencing st' 1) /\
  create_claim strict_engine Examples.event_only "orphan" 99 None
    Claim.no_kwargs 2 = (Examples.event_only, Raised IntegrityError).
Proof.
  split.
  - destruct (create_claim_counts_for_existing_source lenient_engine
                Examples.event_only "first" 1 (Some "E"%string)
                Claim.no_kwargs 2) as [Hsome _].
    destruct (Hsome _ eq_refl (or_introl eq_refl))
      as (st' & s' & E & _ & Hs & Ht & Hinv).
    exists st', s'. split; [exact E|]. split; [exact Hs|].
    split; [exact Ht|]. apply Hinv. reflexivity.
  - destruct (create_claim_counts_for_existing_source strict_engine
                Examples.event_only "orphan" 99 None Claim.no_kwargs 2)
      as [_ Hnone].
    destruct (Hnone eq_refl) as [_ Hstrict]. apply Hstrict. reflexivity.
Defined.

(** ** create_claim_refutation *)

(** C6, as stated, fails: a refutation of claim 1 by claim 1 with
    confidence 5 is stored with confidence 5, and a refutation of claim 1
    by claim 1 with confidence 1/2 adds a row. *)
Lemma create_claim_refutation_unvalidated :
  ~ (forall (eng : Engine) (st : Store) (refuting refuted : Z)
            (confidence : Q) (evidence : option PyValue) (now : datetime)
            (st' : Store) (r : ClaimRefutation.t),
       create_claim_refutation eng st refuting refuted confidence evidence now
       = (st', Returned r) ->
       (0 <= ClaimRefutation.confidence r <= 1)%Q) /\
  ~ (forall (eng : Engine) (st : Store) (refuting : Z)
            (confidence : Q) (evidence : option PyValue) (now : datetime),
       claim_refutations
         (fst (create_claim_refutation eng st refuting refuting confidence
                 evidence now))
       = claim_refutations st).
Proof.
  split; intros H.
  - destruct (H strict_engine Examples.three_claims 1 1 5%Q None 9 _ _
                eq_refl) as [_ Hhi].
    vm_compute in Hhi. now apply Hhi.
  - specialize (H strict_engine Examples.three_claims 1 (1 # 2)%Q None 9).
    vm_compute in H. discriminate H.
Qed.

(** C6, amended.  [create_claim_refutation] compares the two claim ids
    with nothing, so a self-loop is accepted like any other pair: for a
    confidence within 0..1, whether or not the two ids are equal, the call
    adds one row carrying the next refutation id, the two ids and the
    confidence as given, the evidence or the empty list, and the time of
    the call, and returns it.  The one refusal comes from an engine that
    checks foreign keys, when one of the two ids names no claim; the store
    is then as before. *)
Theorem create_claim_refutation_accepts_self_loops :
  forall (eng : Engine) (st : Store) (refuting refuted : Z)
         (confidence : Q) (evidence : option PyValue) (now : datetime),
    (0 <= confidence <= 1)%Q ->
    (enforce_foreign_keys eng = false \/
     (claim_by_id st refuting <> None /\ claim_by_id st refuted <> None) ->
     exists r,
       create_claim_refutation eng st refuting refuted confidence evidence now
       = (add_claim_refutation st r, Returned r) /\
       ClaimRefutation.id r = next_refutation_id st /\
       ClaimRefutation.refuting_claim_id r = refuting /\
       ClaimRefutation.refuted_claim_id r = refuted /\
       ClaimRefutation.confidence r = confidence /\
       ClaimRefutation.evidence r = evidence_or_empty evidence /\
       ClaimRefutation.created_at r = now) /\
    (enforce_foreign_keys eng = true ->
     claim_by_id st refuting = None \/ claim_by_id st refuted = None ->
     create_claim_refutation eng st refuting refuted confidence evidence now
     = (st, Raised IntegrityError)).
Proof.
  intros eng st refuting refuted confidence evidence now _.
  unfold create_claim_refutation, refutation_foreign_keys_ok.
  cbn [ClaimRefutation.refuting_claim_id ClaimRefutation.refuted_claim_id].
  split.
  - intros H.
    exists {| ClaimRefutation.id := next_refutation_id st;
              ClaimRefutation.refuting_claim_id := refuting;
              ClaimRefutation.refuted_claim_id := refuted;
              ClaimRefutation.confidence := confidence;
              ClaimRefutation.evidence := evidence_or_empty evidence;
              ClaimRefutation.created_at := now |}.
    split; [|repeat split].
    destruct H as [-> | [H1 H2]]; [reflexivity|].
    destruct (claim_by_id st refuting); [|congruence].
    destruct (claim_by_id st refuted); [|congruence].
    now rewrite andb_false_r.
  - intros -> [-> | H2]; [reflexivity|]. rewrite H2.
    now destruct (claim_by_id st refuting).
Qed.

(** The property of C6 at a concrete store: claim 1 refuting itself with
    confidence 0.5, under an engine that checks foreign keys. *)
Lemma create_claim_refutation_accepts_self_loops_witness :
  exists r,
    create_claim_refutation strict_engine Examples.three_claims 1 1
      (1 # 2)%Q None 9
    = (add_claim_refutation Examples.three_claims r, Returned r) /\
    ClaimRefutation.refuting_claim_id r = 1 /\
    ClaimRefutation.refuted_claim_id r = 1 /\
    ClaimRefutation.confidence r = (1 # 2)%Q.
Proof.
  destruct (proj1 (create_claim_refutation_accepts_self_loops strict_engine
                     Examples.three_claims 1 1 (1 # 2)%Q None 9
                     ltac:(split; discriminate)))
    as (r & H & _ & H1 & H2 & H3 & _).
  - right. split; discriminate.
  - exists r. split; [exact H|]. split; [exact H1|]. split; [exact H2|exact H3].
Defined.

(** ** ORDER BY and LIMIT *)

Section SortByKey.
Variable key : Source.t -> Z.

Local Abbreviation desc := (desc_by key).

Lemma insert_desc_perm (x : Source.t) (l : list Source.t) :
  Permutation (x :: l) (insert_desc key x l).
Proof.
  induction l as [|y l IH]; simpl; [reflexivity|].
  destruct (key y >=? key x); [|reflexivity].
  rewrite perm_swap. now constructor.
Qed.

Lemma insert_desc_sorted (x : Source.t) (l : list Source.t) :
  StronglySorted desc l -> StronglySorted desc (insert_desc key x l).
Proof.
  induction l as [|y l IH]; intros Hs; simpl.
  - constructor; constructor.
  - inversion_clear Hs as [|? ? Hl Hy].
    destruct (Z.geb_spec (key y) (key x)) as [Hge|Hlt].
    + constructor; [now apply IH|].
      eapply Permutation_Forall; [apply insert_desc_perm|].
      constructor; [unfold desc; lia|exact Hy].
    + constructor.
      * now constructor.
      * constructor; [unfold desc; lia|].
        eapply Forall_impl; [|exact Hy]. unfold desc. intros; lia.
Qed.

Lemma fold_insert_desc_perm (rows acc : list Source.t) :
  Permutation (rows ++ acc)
    (fold_left (fun a x => insert_desc key x a) rows acc).
Proof.
  revert acc. induction rows as [|x rows IH]; intros acc; simpl;
    [reflexivity|].
  rewrite <- IH. rewrite <- insert_desc_perm.
  now rewrite Permutation_middle.
Qed.

Lemma fold_insert_desc_sorted (rows acc : list Source.t) :
  StronglySorted desc acc ->
  StronglySorted desc (fold_left (fun a x => insert_desc key x a) rows acc).
Proof.
  revert acc. induction rows as [|x rows IH]; intros acc Hs; simpl;
    [exact Hs|].
  apply IH. now apply insert_desc_sorted.
Qed.

Lemma stable_sort_desc_perm (rows : list Source.t) :
  Permutation rows (stable_sort_desc key rows).
Proof.
  unfold stable_sort_desc. rewrite <- fold_insert_desc_perm.
  now rewrite app_nil_r.
Qed.

Lemma stable_sort_desc_sorted (rows : list Source.t) :
  StronglySorted desc (stable_sort_desc key rows).
Proof. apply fold_insert_desc_sorted. constructor. Qed.

Lemma insert_desc_filter (k : Z) (x : Source.t) (l : list Source.t) :
  StronglySorted desc l ->
  filter (fun s => key s =? k) (insert_desc key x l)
  = filter (fun s => key s =? k) l ++ (if key x =? k then [x] else []).
Proof.
  induction l as [|y l IH]; intros Hs; simpl.
  - now destruct (key x =? k).
  - inversion_clear Hs as [|? ? Hl Hy].
    destruct (Z.geb_spec (key y) (key x)) as [Hge|Hlt]; simpl.
    + rewrite (IH Hl). now destruct (key y =? k).
    + destruct (Z.eqb_spec (key x) k) as [Hk|Hk];
        [|now rewrite app_nil_r].
      assert (E : filter (fun s => key s =? k) l = []).
      { apply find_none_filter_nil.
        destruct (find (fun s => key s =? k) l) as [z|] eqn:F;
          [|reflexivity].
        apply find_some in F. destruct F as [Hin Hz].
        apply Z.eqb_eq in Hz.
        rewrite Forall_forall in Hy. specialize (Hy z Hin).
        unfold desc in Hy. lia. }
      rewrite E. destruct (Z.eqb_spec (key y) k); [lia|reflexivity].
Qed.

Lemma fold_insert_desc_filter (k : Z) (rows acc : list Source.t) :
  StronglySorted desc acc ->
  filter (fun s => key s =? k)
    (fold_left (fun a x => insert_desc key x a) rows acc)
  = filter (fun s => key s =? k) acc ++ filter (fun s => key s =? k) rows.
Proof.
  revert acc. induction rows as [|x rows IH]; intros acc Hs; simpl.
  - now rewrite app_nil_r.
  - rewrite IH by now apply insert_desc_sorted.
    rewrite insert_desc_filter by exact Hs.
    rewrite <- app_assoc. now destruct (key x =? k).
Qed.

(** Stability: the rows of any one key come out in the order they went
    in. *)
Lemma stable_sort_desc_stable (k : Z) (rows : list Source.t) :
  filter (fun s => key s =? k) (stable_sort_desc key rows)
  = filter (fun s => key s =? k) rows.
Proof.
  unfold stable_sort_desc. rewrite fold_insert_desc_filter by constructor.
  reflexivity.
Qed.

Lemma reversing_sort_desc_perm (rows : list Source.t) :
  Permutation rows (reversing_sort_desc key rows).
Proof.
  unfold reversing_sort_desc. rewrite <- stable_sort_desc_perm.
  apply Permutation_rev.
Qed.

Lemma reversing_sort_desc_sorted (rows : list Source.t) :
  StronglySorted desc (reversing_sort_desc key rows).
Proof. apply stable_sort_desc_sorted. Qed.
End SortByKey.

Lemma lenient_engine_contract : order_by_contract lenient_engine.
Proof.
  intros key rows. split;
    [apply stable_sort_desc_perm|apply stable_sort_desc_sorted].
Qed.

Lemma strict_engine_contract : order_by_contract strict_engine.
Proof.
  intros key rows. split;
    [apply stable_sort_desc_perm|apply stable_sort_desc_sorted].
Qed.

Lemma reversing_engine_contract : order_by_contract reversing_engine.
Proof.
  intros key rows. split;
    [apply reversing_sort_desc_perm|apply reversing_sort_desc_sorted].
Qed.

(** C7, as stated, fails: an engine that honours ORDER BY may return two
    sources with equal [total_claims] in the reverse of their insertion
    order. *)
Lemma get_trending_sources_ties_not_fixed :
  ~ (forall (eng : Engine) (st : Store) (limit : Z),
       order_by_contract eng ->
       get_trending_sources eng st limit
       = Returned (ties_in_insertion_order st limit)).
Proof.
  intros H.
  specialize (H reversing_engine Examples.two_sources 10
                reversing_engine_contract).
  vm_compute in H. discriminate H.
Qed.

(** C7, amended.  For a limit that is not negative and an engine that
    honours ORDER BY, [get_trending_sources] returns the summaries of the
    first [min limit n] rows of an arrangement of all [n] sources by
    descending [total_claims].  The query names no second key: rows with
    equal [total_claims] come in the order the engine gives them, which is
    insertion order when the engine sorts stably. *)
Theorem get_trending_sources_descending :
  forall (eng : Engine) (st : Store) (limit : Z),
    order_by_contract eng ->
    0 <= limit ->
    exists rows rest : list Source.t,
      get_trending_sources eng st limit
        = Returned (map source_summary rows) /\
      Z.of_nat (List.length (map source_summary rows)) = Z.min limit (Z.of_nat (List.length (sources st))) /\
      Permutation (sources st) (rows ++ rest) /\
      StronglySorted desc_by_total_claims (rows ++ rest) /\
      ((forall key l, order_by_desc eng key l = stable_sort_desc key l) ->
       get_trending_sources eng st limit
       = Returned (ties_in_insertion_order st limit)).
Proof.
  intros eng st limit Hc Hl.
  destruct (Hc Source.total_claims (sources st)) as [Hp Hs].
  exists (firstn (Z.to_nat limit)
            (order_by_desc eng Source.total_claims (sources st))).
  exists (skipn (Z.to_nat limit)
            (order_by_desc eng Source.total_claims (sources st))).
  split; [|split; [|split; [|split]]].
  - unfold get_trending_sources, sql_limit.
    destruct (Z.leb_spec 0 limit); [reflexivity|lia].
  - rewrite length_map, length_firstn.
    rewrite <- (Permutation_length Hp). lia.
  - now rewrite firstn_skipn.
  - rewrite firstn_skipn. exact Hs.
  - intros Hst. unfold get_trending_sources, sql_limit.
    destruct (Z.leb_spec 0 limit); [|lia].
    unfold ties_in_insertion_order. now rewrite Hst.
Qed.

(** The property of C7 at concrete stores. *)
Lemma get_trending_sources_descending_witness :
  exists rows rest : list Source.t,
    get_trending_sources lenient_engine Examples.three_claims 1
      = Returned (map source_summary rows) /\
    Z.of_nat (List.length (map source_summary rows)) = 1 /\
    Permutation (sources Examples.three_claims) (rows ++ rest) /\
    StronglySorted desc_by_total_claims (rows ++ rest).
Proof.
  destruct (get_trending_sources_descending lenient_engine
              Examples.three_claims 1 lenient_engine_contract)
    as (rows & rest & E & Hlen & Hp & Hs & _); [lia|].
  exists rows, rest. split; [exact E|]. split; [exact Hlen|].
  split; [exact Hp|exact Hs].
Defined.

(** ** calculate_event_credibility *)

Lemma fold_left_add_acc (l : list Z) (a : Z) :
  fold_left Z.add l a = a + fold_right Z.add 0 l.
Proof.
  revert a. induction l as [|x l IH]; intros a; simpl; [lia|].
  rewrite IH. lia.
Qed.

Lemma py_sum_fold_right (l : list Z) : py_sum l = fold_right Z.add 0 l.
Proof. unfold py_sum. now rewrite fold_left_add_acc. Qed.

Lemma py_sum_ones {A : Type} (l : list A) :
  py_sum (map (fun _ => 1) l) = Z.of_nat (List.length l).
Proof.
  rewrite py_sum_fold_right.
  induction l as [|x l IH]; cbn [map fold_right List.length];
    [reflexivity|].
  rewrite IH, Nat2Z.inj_succ. lia.
Qed.

Lemma is_verified_has_status (c : Claim.t) :
  is_verified c = has_status ClaimStatus.VERIFIED c.
Proof. unfold is_verified, has_status. now destruct (Claim.status c). Qed.

Lemma is_refuted_has_status (c : Claim.t) :
  is_refuted c = has_status ClaimStatus.REFUTED c.
Proof. unfold is_refuted, has_status. now destruct (Claim.status c). Qed.

Lemma verified_count_spec (claims : list Claim.t) :
  py_sum (map (fun _ => 1) (filter is_verified claims))
  = count (has_status ClaimStatus.VERIFIED) claims.
Proof.
  rewrite py_sum_ones. unfold count. do 2 f_equal.
  apply filter_ext. exact is_verified_has_status.
Qed.

Lemma refuted_count_spec (claims : list Claim.t) :
  py_sum (map (fun _ => 1) (filter is_refuted claims))
  = count (has_status ClaimStatus.REFUTED) claims.
Proof.
  rewrite py_sum_ones. unfold count. do 2 f_equal.
  apply filter_ext. exact is_refuted_has_status.
Qed.

Lemma collect_source_scores_acc (st : Store) (claims : list Claim.t)
    (acc : list Z) :
  fold_left
    (fun source_scores claim =>
       match claim_source st claim with
       | Some source => source_scores ++ [Source.credit_score source]
       | None => source_scores
       end) claims acc
  = acc ++ map Source.credit_score (sources_behind st claims).
Proof.
  revert acc. induction claims as [|c claims IH]; intros acc; simpl.
  - now rewrite app_nil_r.
  - rewrite IH. destruct (claim_source st c); simpl; [|reflexivity].
    now rewrite <- app_assoc.
Qed.

Lemma collect_source_scores_spec (st : Store) (claims : list Claim.t) :
  collect_source_scores st claims
  = map Source.credit_score (sources_behind st claims).
Proof. unfold collect_source_scores. now rewrite collect_source_scores_acc. Qed.

Lemma round2_comp (x y : Q) :
  (x == y)%Q -> Float.round2 x = Float.round2 y.
Proof.
  intros E. unfold Float.round2. f_equal. f_equal.
  apply round_half_even_comp. now rewrite E.
Qed.

Lemma mul_comm (x y : Q) : Float.mul x y = Float.mul y x.
Proof. unfold Float.mul. apply fl_comp. ring. Qed.

Lemma confidence_level_spec (claims : list Claim.t) :
  (if Z.of_nat (List.length claims) >=? 3 then "high" else "low")%string
  = confidence_level claims.
Proof.
  unfold confidence_level.
  destruct (Z.geb_spec (Z.of_nat (List.length claims)) 3);
    destruct (Nat.leb_spec 3 (List.length claims)); try reflexivity; lia.
Qed.

Lemma calculate_event_credibility_unfold (st : Store) (event_id : string)
    (e : Event.t) :
  get_event st event_id = Some e ->
  get_claims_by_event st event_id <> [] ->
  calculate_event_credibility st event_id =
    let claims := get_claims_by_event st event_id in
    [ ("credibility_score",
         PyFloat (Float.round2 (blended_per_claim st claims)));
      ("verified_claims", PyInt (count (has_status ClaimStatus.VERIFIED) claims));
      ("refuted_claims", PyInt (count (has_status ClaimStatus.REFUTED) claims));
      ("total_claims", PyInt (Z.of_nat (List.length claims)));
      ("confidence", PyStr (confidence_level claims)) ]%string.
Proof.
  intros He Hc. unfold calculate_event_credibility. rewrite He.
  destruct (get_claims_by_event st event_id) as [|c cs] eqn:Ecl;
    [congruence|].
  cbv zeta. rewrite verified_count_spec, refuted_count_spec.
  rewrite collect_source_scores_spec, confidence_level_spec.
  f_equal. f_equal. f_equal. f_equal.
  unfold blended_per_claim, outcome_term.
  rewrite (mul_comm 30), (mul_comm 40).
  destruct (sources_behind st (c :: cs)) as [|s ss] eqn:Es.
  - reflexivity.
  - cbn [map]. rewrite (mul_comm Float.c0_7), (mul_comm Float.c0_3).
    unfold mean. rewrite py_sum_fold_right. reflexivity.
Qed.

(** *** Bounds *)

Lemma filter_exclusive_length {A : Type} (p q : A -> bool) (l : list A) :
  (forall x, p x = true -> q x = false) ->
  (List.length (filter p l) + List.length (filter q l) <= List.length l)%nat.
Proof.
  intros Hx. induction l as [|a l IH]; simpl; [lia|].
  destruct (p a) eqn:Hp.
  - rewrite (Hx a Hp). simpl. lia.
  - destruct (q a); simpl; lia.
Qed.

Lemma counts_bounded (claims : list Claim.t) :
  0 <= count (has_status ClaimStatus.VERIFIED) claims /\
  0 <= count (has_status ClaimStatus.REFUTED) claims /\
  count (has_status ClaimStatus.VERIFIED) claims
  + count (has_status ClaimStatus.REFUTED) claims
  <= Z.of_nat (List.length claims).
Proof.
  unfold count.
  pose proof (filter_exclusive_length (has_status ClaimStatus.VERIFIED)
                (has_status ClaimStatus.REFUTED) claims) as H.
  assert (Hx : forall x, has_status ClaimStatus.VERIFIED x = true ->
                         has_status ClaimStatus.REFUTED x = false).
  { intros x. unfold has_status. now destruct (Claim.status x). }
  specialize (H Hx). lia.
Qed.

(** The rounded value stays between two small integers that enclose the
    exact one. *)
Lemma fl_between (a b : Z) (x : Q) :
  Z.abs a <= 2 ^ 53 -> Z.abs b <= 2 ^ 53 ->
  (inject_Z a <= x)%Q -> (x <= inject_Z b)%Q ->
  (inject_Z a <= Float.fl x)%Q /\ (Float.fl x <= inject_Z b)%Q.
Proof. intros Ha Hb L U. now apply fl_bounds. Qed.

Lemma truediv_bounds (a t : Z) :
  0 <= a <= t -> 0 < t ->
  (0 <= Float.truediv a t)%Q /\ (Float.truediv a t <= 1)%Q.
Proof.
  intros [Ha Hat] Ht. unfold Float.truediv.
  assert (HT : (0 < inject_Z t)%Q) by (now rewrite (Zlt_Qlt 0 t) in Ht).
  apply (fl_between 0 1); try (simpl; lia).
  - apply Qle_shift_div_l; [exact HT|]. rewrite Qmult_0_l.
    now rewrite (Zle_Qle 0 a) in Ha.
  - apply Qle_shift_div_r; [exact HT|]. rewrite Qmult_1_l.
    now rewrite (Zle_Qle a t) in Hat.
Qed.

Lemma outcome_term_bounds (claims : list Claim.t) :
  claims <> [] -> (10 <= outcome_term claims <= 80)%Q.
Proof.
  intros Hne. unfold outcome_term.
  destruct (counts_bounded claims) as (Hv & Hr & Hvr).
  assert (Ht : 0 < Z.of_nat (List.length claims)).
  { destruct claims; [congruence|]. simpl List.length. lia. }
  cbv zeta.
  destruct (truediv_bounds (count (has_status ClaimStatus.VERIFIED) claims)
              (Z.of_nat (List.length claims))) as [V0 V1]; [lia|exact Ht|].
  destruct (truediv_bounds (count (has_status ClaimStatus.REFUTED) claims)
              (Z.of_nat (List.length claims))) as [R0 R1]; [lia|exact Ht|].
  set (V := Float.truediv (count (has_status ClaimStatus.VERIFIED) claims)
              (Z.of_nat (List.length claims))) in *.
  set (R := Float.truediv (count (has_status ClaimStatus.REFUTED) claims)
              (Z.of_nat (List.length claims))) in *.
  clearbody V R. unfold Float.sub, Float.add, Float.mul.
  assert (A : (0 <= Float.fl (30 * V))%Q /\ (Float.fl (30 * V) <= 30)%Q).
  { apply (fl_between 0 30); try (simpl; lia); unfold inject_Z; lra. }
  assert (B : (0 <= Float.fl (40 * R))%Q /\ (Float.fl (40 * R) <= 40)%Q).
  { apply (fl_between 0 40); try (simpl; lia); unfold inject_Z; lra. }
  destruct A as [A0 A1]. destruct B as [B0 B1].
  assert (C : (50 <= Float.fl (50 + Float.fl (30 * V)))%Q /\
              (Float.fl (50 + Float.fl (30 * V)) <= 80)%Q).
  { apply (fl_between 50 80); try (simpl; lia); unfold inject_Z; lra. }
  destruct C as [C0 C1].
  apply (fl_between 10 80); try (simpl; lia); unfold inject_Z; lra.
Qed.

Lemma sum_bounds (scores : list Z) :
  Forall (fun x => 0 <= x <= 100) scores ->
  0 <= fold_right Z.add 0 scores <= 100 * Z.of_nat (List.length scores).
Proof.
  induction 1 as [|x l Hx _ IH]; simpl fold_right; simpl List.length; [lia|].
  rewrite Nat2Z.inj_succ. lia.
Qed.

Lemma mean_bounds (scores : list Z) :
  scores <> [] ->
  Forall (fun x => 0 <= x <= 100) scores ->
  (0 <= mean scores <= 100)%Q.
Proof.
  intros Hne Hall. unfold mean, Float.truediv.
  pose proof (sum_bounds scores Hall) as [Hlo Hhi].
  assert (Ht : 0 < Z.of_nat (List.length scores)).
  { destruct scores; [congruence|]. simpl List.length. lia. }
  assert (HT : (0 < inject_Z (Z.of_nat (List.length scores)))%Q)
    by (now rewrite (Zlt_Qlt 0 _) in Ht).
  apply (fl_between 0 100); try (simpl; lia).
  - apply Qle_shift_div_l; [exact HT|]. rewrite Qmult_0_l.
    now rewrite (Zle_Qle 0 _) in Hlo.
  - apply Qle_shift_div_r; [exact HT|].
    rewrite (Zle_Qle _ _) in Hhi. rewrite inject_Z_mult in Hhi. exact Hhi.
Qed.

Lemma sources_behind_in (st : Store) (claims : list Claim.t) (s : Source.t) :
  In s (sources_behind st claims) ->
  exists c, In c claims /\ claim_source st c = Some s.
Proof.
  unfold sources_behind. rewrite in_flat_map. intros (c & Hc & Hs).
  exists c. split; [exact Hc|].
  destruct (claim_source st c) as [s0|]; simpl in Hs; [|tauto].
  destruct Hs as [->|[]]. reflexivity.
Qed.

(** The blend of a term within 10..80 and a mean within 0..100. *)
Lemma blend_bounds (o m : Q) :
  (10 <= o <= 80)%Q -> (0 <= m <= 100)%Q ->
  (7 <= Float.add (Float.mul Float.c0_7 o) (Float.mul Float.c0_3 m)
   <= 86)%Q.
Proof.
  intros [O1 O2] [M1 M2]. unfold Float.add, Float.mul.
  assert (P1 : (7 <= Float.fl (Float.c0_7 * o))%Q).
  { apply fl_ge_7. rewrite c0_7_value. lra. }
  assert (P2 : (Float.fl (Float.c0_7 * o) <= 56)%Q).
  { change 56%Q with (inject_Z 56). apply fl_le.
    - apply representable_Z. simpl. lia.
    - rewrite c0_7_value. unfold inject_Z. lra. }
  assert (P3 : (0 <= Float.fl (Float.c0_3 * m))%Q /\
               (Float.fl (Float.c0_3 * m) <= 30)%Q).
  { apply (fl_between 0 30); try (simpl; lia);
      rewrite c0_3_value; unfold inject_Z; lra. }
  destruct P3 as [Q1 Q2].
  apply (fl_between 7 86); try (simpl; lia); unfold inject_Z; lra.
Qed.

Lemma blended_per_claim_bounds (st : Store) (claims : list Claim.t) :
  claims <> [] ->
  (forall c s, In c claims -> claim_source st c = Some s ->
               0 <= Source.credit_score s <= 100) ->
  (7 <= blended_per_claim st claims <= 86)%Q.
Proof.
  intros Hne Hall. pose proof (outcome_term_bounds claims Hne) as [O1 O2].
  unfold blended_per_claim.
  destruct (sources_behind st claims) as [|s ss] eqn:Es; [split; lra|].
  apply blend_bounds; [now split|].
  apply mean_bounds; [discriminate|].
  apply Forall_map, Forall_forall. intros x Hx. rewrite <- Es in Hx.
  destruct (sources_behind_in _ _ _ Hx) as (c & Hc & Hs).
  now apply (Hall c).
Qed.

Lemma round2_bounds (a b : Z) (x : Q) :
  Z.abs a <= 2 ^ 53 -> Z.abs b <= 2 ^ 53 ->
  (inject_Z a <= x <= inject_Z b)%Q ->
  (inject_Z a <= Float.round2 x <= inject_Z b)%Q.
Proof.
  intros Ha Hb [La Ub]. unfold Float.round2.
  assert (L : a * 100 <= Float.round_half_even (x * 100)).
  { apply round_half_even_ge. rewrite inject_Z_mult.
    change (inject_Z 100) with 100%Q. lra. }
  assert (U : Float.round_half_even (x * 100) <= b * 100).
  { apply round_half_even_le. rewrite inject_Z_mult.
    change (inject_Z 100) with 100%Q. lra. }
  apply fl_between; try assumption; unfold Qle; simpl; lia.
Qed.

(** C2, as stated, fails: with two claims by a source of credit 80 and one
    by a source of credit 20, all pending, the code returns 53.0, while the
    blend over the two distinct sources is 50. *)
Lemma calculate_event_credibility_counts_sources_per_claim :
  ~ (forall (st : Store) (event_id : string) (e : Event.t),
       get_event st event_id = Some e ->
       get_claims_by_event st event_id <> [] ->
       exists q,
         dict_get "credibility_score"
           (calculate_event_credibility st event_id) = Some (PyFloat q) /\
         ((q == blended_over_distinct_sources st
                  (get_claims_by_event st event_id))%Q \/
          (q == Float.round2 (blended_over_distinct_sources st
                                (get_claims_by_event st event_id)))%Q)).
Proof.
  intros H.
  destruct (H Examples.three_claims "E"%string _ eq_refl) as (q & Hq & E).
  - discriminate.
  - vm_compute in Hq. injection Hq as <-.
    destruct E as [E|E]; vm_compute in E; discriminate E.
Qed.

(** C2, amended.  For an event in the store: with no claims the result is
    score 50.0, confidence "low" and the reason; otherwise the score is
    [50 + 30 * verified/total - 40 * refuted/total], blended as 0.7 of that
    term plus 0.3 of the mean credit score taken over the claims that have
    a source (one score per claim, a source counted once for each of its
    claims; no blend when no claim has a source), every operation in
    double precision and the result rounded by [round(score, 2)], returned
    with the verified, refuted and total counts and with confidence "high"
    exactly when total is at least 3. *)
Theorem calculate_event_credibility_formula :
  forall (st : Store) (event_id : string) (e : Event.t),
    get_event st event_id = Some e ->
    let claims := get_claims_by_event st event_id in
    (claims = [] ->
     calculate_event_credibility st event_id =
       [ ("credibility_score", PyFloat 50);
         ("confidence", PyStr "low");
         ("reason", PyStr "No claims to verify") ]%string) /\
    (claims <> [] ->
     calculate_event_credibility st event_id =
       [ ("credibility_score",
            PyFloat (Float.round2 (blended_per_claim st claims)));
         ("verified_claims",
            PyInt (count (has_status ClaimStatus.VERIFIED) claims));
         ("refuted_claims",
            PyInt (count (has_status ClaimStatus.REFUTED) claims));
         ("total_claims", PyInt (Z.of_nat (List.length claims)));
         ("confidence", PyStr (confidence_level claims)) ]%string) /\
    (confidence_level claims = "high"%string <->
     3 <= Z.of_nat (List.length claims)).
Proof.
  intros st event_id e He claims. split; [|split].
  - intros Hc. unfold calculate_event_credibility. rewrite He.
    fold claims. now rewrite Hc.
  - intros Hc. now apply (calculate_event_credibility_unfold st event_id e).
  - unfold confidence_level.
    destruct (Nat.leb_spec 3 (List.length claims)); split;
      try reflexivity; try lia; discriminate.
Qed.

(** The property of C2 at concrete stores: 50.0 for an event without
    claims, 53.0 for the three claims, and 35.23 for four claims of which
    one is verified and two are refuted, where the blend is the float next
    below 35.225. *)
Lemma calculate_event_credibility_formula_witness :
  calculate_event_credibility Examples.event_only "E" =
    [ ("credibility_score", PyFloat 50);
      ("confidence", PyStr "low");
      ("reason", PyStr "No claims to verify") ]%string /\
  dict_get "credibility_score"
    (calculate_event_credibility Examples.three_claims "E")
  = Some (PyFloat 53) /\
  dict_get "credibility_score"
    (calculate_event_credibility Examples.four_claims "E")
  = Some (PyFloat (Float.fl (3523 # 100))).
Proof.
  split; [|split].
  - destruct (calculate_event_credibility_formula Examples.event_only "E" _
                eq_refl) as [Hempty _].
    apply Hempty. reflexivity.
  - destruct (calculate_event_credibility_formula Examples.three_claims "E" _
                eq_refl) as [_ [Hsome _]].
    rewrite Hsome; [|discriminate]. vm_compute. reflexivity.
  - destruct (calculate_event_credibility_formula Examples.four_claims "E" _
                eq_refl) as [_ [Hsome _]].
    rewrite Hsome; [|discriminate]. vm_compute. reflexivity.
Defined.

(** C8.  No clamp is applied: for an event in the store with at least one
    claim the returned [credibility_score] is the rounded blend itself,
    whatever the credit scores are, and it is 335.0 with one pending claim
    by a source of credit 1000 and -265.0 with one by a source of credit
    -1000.  Yet if every source behind a claim has a credit score within
    0..100, then the outcome term is within 10..80, the blend within 7..86
    and the returned score within 7..86, hence within 0..100. *)
Theorem calculate_event_credibility_in_range :
  (forall (st : Store) (event_id : string) (e : Event.t),
     get_event st event_id = Some e ->
     let claims := get_claims_by_event st event_id in
     claims <> [] ->
     exists q,
       dict_get "credibility_score" (calculate_event_credibility st event_id)
         = Some (PyFloat q) /\
       q = Float.round2 (blended_per_claim st claims) /\
       ((forall c s, In c claims -> claim_source st c = Some s ->
                     0 <= Source.credit_score s <= 100) ->
        (10 <= outcome_term claims <= 80)%Q /\
        (7 <= blended_per_claim st claims <= 86)%Q /\
        (7 <= q <= 86)%Q /\
        (0 <= q <= 100)%Q)) /\
  dict_get "credibility_score"
    (calculate_event_credibility (Examples.one_claim_by 1000) "E")
    = Some (PyFloat 335) /\
  dict_get "credibility_score"
    (calculate_event_credibility (Examples.one_claim_by (-1000)) "E")
    = Some (PyFloat (-265)).
Proof.
  split; [|split; vm_compute; reflexivity].
  intros st event_id e He claims Hne.
  exists (Float.round2 (blended_per_claim st claims)).
  rewrite (calculate_event_credibility_unfold st event_id e He Hne).
  split; [reflexivity|]. split; [reflexivity|]. intros Hall.
  pose proof (blended_per_claim_bounds st claims Hne Hall) as B.
  split; [now apply outcome_term_bounds|]. split; [exact B|].
  pose proof (round2_bounds 7 86 _ ltac:(simpl; lia) ltac:(simpl; lia) B)
    as R.
  change (inject_Z 7) with 7%Q in R. change (inject_Z 86) with 86%Q in R.
  split; [exact R|]. split; lra.
Qed.

(** The property of C8 at a concrete store. *)
Lemma calculate_event_credibility_in_range_witness :
  exists q,
    dict_get "credibility_score"
      (calculate_event_credibility Examples.three_claims "E")
    = Some (PyFloat q) /\
    (7 <= q <= 86)%Q /\
    (0 <= q <= 100)%Q.
Proof.
  destruct (proj1 calculate_event_credibility_in_range
              Examples.three_claims "E"%string _ eq_refl)
    as (q & Hq & _ & Hr).
  - discriminate.
  - exists q. split; [exact Hq|].
    destruct Hr as (_ & _ & R1 & R2).
    + intros c s Hin Hs. vm_compute in Hin.
      destruct Hin as [<-|[<-|[<-|[]]]]; vm_compute in Hs;
        injection Hs as <-; simpl; lia.
    + split; [exact R1|exact R2].
Defined.

(** * Further properties of the repository, the graph operations and
      their callers *)

Import Batch Calls Reputation Views Archive Demo Samples.

(** ** Events *)

Lemma event_by_id_sound (st : Store) (eid : string) (e : Event.t) :
  event_by_id st eid = Some e -> Event.id e = eid.
Proof.
  unfold event_by_id. intros H. apply find_some in H.
  now apply String.eqb_eq.
Qed.

Lemma event_by_id_update_event (st : Store) (e' : Event.t) (eid : string) :
  event_by_id (update_event st e') eid =
  option_map
    (fun r => if String.eqb (Event.id r) (Event.id e') then e' else r)
    (event_by_id st eid).
Proof.
  unfold event_by_id, update_event, replace_event; simpl.
  apply find_map_stable. intros x.
  destruct (String.eqb_spec (Event.id x) (Event.id e')) as [E|];
    [|reflexivity].
  now rewrite E.
Qed.

Lemma find_app_none {A : Type} (p : A -> bool) (l : list A) (a : A) :
  find p l = None -> find p (l ++ [a]) = if p a then Some a else None.
Proof.
  induction l as [|x l IH]; simpl; intros H; [reflexivity|].
  destruct (p x); [discriminate|now apply IH].
Qed.

Lemma find_app_some {A : Type} (p : A -> bool) (l l' : list A) (x : A) :
  find p l = Some x -> find p (l ++ l') = Some x.
Proof.
  induction l as [|y l IH]; simpl; intros H; [discriminate|].
  destruct (p y); [exact H|now apply IH].
Qed.

(** X1.  For an event of the store, [update_event_status] returns [True], sets
    the status, replaces [credibility_score] only when a score is given,
    stamps [updated_at] and keeps every other column: the id, the title,
    the description, the heat score, the tags, the category, the metadata
    and [created_at]; every other event and the tables of sources, claims
    and refutations are as before. *)
Theorem update_event_status_effect :
  forall (st : Store) (eid : string) (status : EventStatus.t)
         (score : option Q) (now : datetime) (e : Event.t),
    event_by_id st eid = Some e ->
    let st' := fst (update_event_status st eid status score now) in
    snd (update_event_status st eid status score now) = true /\
    (exists e',
       get_event st' eid = Some e' /\
       Event.status e' = status /\
       Event.credibility_score e'
         = match score with
           | Some q => q
           | None => Event.credibility_score e
           end /\
       Event.updated_at e' = now /\
       Event.id e' = eid /\
       Event.title e' = Event.title e /\
       Event.description e' = Event.description e /\
       Event.heat_score e' = Event.heat_score e /\
       Event.tags e' = Event.tags e /\
       Event.category e' = Event.category e /\
       Event.metadata e' = Event.metadata e /\
       Event.created_at e' = Event.created_at e) /\
    (forall other, other <> eid -> get_event st' other = get_event st other) /\
    sources st' = sources st /\
    claims st' = claims st /\
    claim_refutations st' = claim_refutations st.
Proof.
  intros st eid status score now e He st'.
  pose proof (event_by_id_sound _ _ _ He) as Hid.
  subst st'. unfold update_event_status, get_event. rewrite He.
  cbn [fst snd].
  set (e' := Event.set_updated_at now
               match score with
               | Some q => Event.set_credibility_score q
                             (Event.set_status status e)
               | None => Event.set_status status e
               end).
  assert (Hid' : Event.id e' = eid) by (subst e'; now destruct score).
  split; [reflexivity|]. split; [|split].
  - exists e'. split.
    + rewrite event_by_id_update_event, He. cbn [option_map].
      now rewrite Hid, Hid', String.eqb_refl.
    + subst e'. destruct score; repeat split; assumption || reflexivity.
  - intros other Hne. rewrite event_by_id_update_event.
    destruct (event_by_id st other) as [r|] eqn:Hr; [|reflexivity].
    cbn [option_map]. rewrite (event_by_id_sound _ _ _ Hr), Hid'.
    destruct (String.eqb_spec other eid); [contradiction|reflexivity].
  - repeat split; reflexivity.
Qed.

(** X1 at concrete inputs. *)
Lemma update_event_status_effect_witness :
  exists e',
    get_event
      (fst (update_event_status Examples.event_only "E"
              EventStatus.REFUTED None 9)) "E" = Some e' /\
    Event.status e' = EventStatus.REFUTED /\
    Event.credibility_score e' = 50%Q /\
    Event.updated_at e' = 9.
Proof.
  destruct (update_event_status_effect Examples.event_only "E"
              EventStatus.REFUTED None 9 _ eq_refl)
    as (_ & (e' & H1 & H2 & H3 & H4 & _) & _).
  exists e'. split; [exact H1|]. split; [exact H2|].
  split; [exact H3|exact H4].
Defined.

(** X2.  For an id no event carries, [create_event] returns the new event and
    [get_event] finds it afterwards, other lookups and the sources being
    unchanged; for an id already taken the primary key refuses the row and
    the store is as before. *)
Theorem create_event_round_trip :
  forall (st : Store) (eid : string) (kw : Event.kwargs) (now : datetime),
    (event_by_id st eid = None ->
     let event := Event.insert_row now eid kw in
     let st' := fst (create_event st eid kw now) in
     snd (create_event st eid kw now) = Returned event /\
     get_event st' eid = Some event /\
     (forall other, other <> eid ->
        get_event st' other = get_event st other) /\
     get_claims_by_event st' eid = get_claims_by_event st eid /\
     sources st' = sources st) /\
    (forall e, event_by_id st eid = Some e ->
     create_event st eid kw now = (st, Raised IntegrityError)).
Proof.
  intros st eid kw now. split.
  - intros Hn event st'. subst st'. unfold create_event. rewrite Hn.
    cbn [fst snd]. split; [reflexivity|]. split; [|split].
    + unfold get_event, event_by_id, add_event; simpl.
      rewrite (find_app_none _ _ _ Hn). simpl.
      now rewrite String.eqb_refl.
    + intros other Hne. unfold get_event, event_by_id, add_event; simpl.
      destruct (find (fun e => String.eqb (Event.id e) other) (events st))
        as [x|] eqn:F.
      * now apply find_app_some.
      * rewrite (find_app_none _ _ _ F). simpl.
        destruct (String.eqb_spec eid other); [congruence|reflexivity].
    + split; reflexivity.
  - intros e He. unfold create_event. now rewrite He.
Qed.

(** X2 at concrete inputs. *)
Lemma create_event_round_trip_witness :
  get_event (fst (create_event Examples.two_sources "E" Event.no_kwargs 1))
    "E" = Some (Event.insert_row 1 "E" Event.no_kwargs) /\
  create_event Examples.event_only "E" Event.no_kwargs 5
    = (Examples.event_only, Raised IntegrityError).
Proof.
  split.
  - destruct (create_event_round_trip Examples.two_sources "E"
                Event.no_kwargs 1) as [H _].
    destruct (H eq_refl) as (_ & G & _). exact G.
  - destruct (create_event_round_trip Examples.event_only "E"
                Event.no_kwargs 5) as [_ H].
    apply (H _ eq_refl).
Defined.

(** X3.  After [find_or_create_source], [get_source_by_name] of the same name
    gives the very source the call returned; lookups of other names, the
    claims and the events are unchanged. *)
Theorem find_or_create_source_then_lookup :
  forall (st : Store) (name : string) (ty : SourceType.t)
         (kw : Source.kwargs) (now : datetime),
    let st' := fst (find_or_create_source st name ty kw now) in
    let source := snd (find_or_create_source st name ty kw now) in
    get_source_by_name st' name = Some source /\
    Source.name source = name /\
    (forall other, other <> name ->
       get_source_by_name st' other = get_source_by_name st other) /\
    claims st' = claims st /\ events st' = events st.
Proof.
  intros st name ty kw now st' source. subst st' source.
  unfold find_or_create_source, get_source_by_name.
  destruct (source_by_name st name) as [s|] eqn:H; cbn [fst snd].
  - split; [exact H|]. split.
    + unfold source_by_name in H. apply find_some in H.
      now apply String.eqb_eq.
    + repeat split; reflexivity.
  - split; [now apply source_by_name_add_source|]. split; [reflexivity|].
    split; [|split; reflexivity].
    intros other Hne. unfold source_by_name, add_source; simpl.
    destruct (find (fun s => String.eqb (Source.name s) other) (sources st))
      as [x|] eqn:F.
    + now apply find_app_some.
    + rewrite (find_app_none _ _ _ F). simpl.
      destruct (String.eqb_spec name other); [congruence|reflexivity].
Qed.

(** X3 at concrete inputs. *)
Lemma find_or_create_source_then_lookup_witness :
  get_source_by_name
    (fst (find_or_create_source Examples.one_source "B" SourceType.FORUM
            Source.no_kwargs 3)) "A"
  = get_source_by_name Examples.one_source "A".
Proof.
  destruct (find_or_create_source_then_lookup Examples.one_source "B"
              SourceType.FORUM Source.no_kwargs 3) as (_ & _ & H & _).
  apply H. discriminate.
Defined.

(** ** Claims *)

Lemma create_claim_returned (eng : Engine) (st : Store) (text : string)
    (sid : Z) (eid : option string) (kw : Claim.kwargs) (now : datetime)
    (st' : Store) (c : Claim.t) :
  create_claim eng st text sid eid kw now = (st', Returned c) ->
  c = Claim.insert_row (next_claim_id st) now text sid eid kw /\
  st' = match source_by_id st sid with
        | Some s =>
            update_source (add_claim st c)
              (onupdate now
                 (Source.set_total_claims (Source.total_claims s + 1) s))
        | None => add_claim st c
        end.
Proof.
  unfold create_claim.
  change (source_by_id (add_claim st ?x) sid) with (source_by_id st sid).
  destruct (enforce_foreign_keys eng && _); [discriminate|].
  intros H. injection H as H1 H2. subst c. split; [reflexivity|].
  rewrite <- H1. destruct (source_by_id st sid); reflexivity.
Qed.

(** X4.  A claim that [create_claim] returns carries the next claim id, the
    given text, source id and event id, and the status of the keyword
    arguments or PENDING; [get_claims_by_event] of its event returns it
    together with the claims the event had, in whatever order, and the
    claims of every other event are the same as before. *)
Theorem create_claim_listed_under_its_event :
  forall (eng : Engine) (st st' : Store) (text : string) (sid : Z)
         (eid : option string) (kw : Claim.kwargs) (now : datetime)
         (c : Claim.t),
    create_claim eng st text sid eid kw now = (st', Returned c) ->
    Claim.id c = next_claim_id st /\
    Claim.text c = text /\
    Claim.source_id c = sid /\
    Claim.event_id c = eid /\
    Claim.status c = column_default ClaimStatus.PENDING (Claim.kw_status kw) /\
    (forall e,
       Permutation
         (get_claims_by_event st' e)
         (match eid with
          | Some e' => if String.eqb e' e then [c] else []
          | None => []
          end ++ get_claims_by_event st e)) /\
    events st' = events st /\
    claim_refutations st' = claim_refutations st.
Proof.
  intros eng st st' text sid eid kw now c H.
  destruct (create_claim_returned _ _ _ _ _ _ _ _ _ H) as [Hc Hst].
  assert (Hcl : claims st' = claims st ++ [c]).
  { rewrite Hst. destruct (source_by_id st sid); reflexivity. }
  assert (Hev : events st' = events st).
  { rewrite Hst. destruct (source_by_id st sid); reflexivity. }
  assert (Hrf : claim_refutations st' = claim_refutations st).
  { rewrite Hst. destruct (source_by_id st sid); reflexivity. }
  subst c. repeat split; try reflexivity; try assumption.
  intros e. unfold get_claims_by_event, claims_by_event.
  rewrite Hcl, filter_app.
  etransitivity; [apply Permutation_app_comm|].
  apply Permutation_app_tail. simpl.
  destruct eid as [e'|]; [|reflexivity].
  destruct (String.eqb e' e); reflexivity.
Qed.

(** X4 at concrete inputs. *)
Lemma create_claim_listed_under_its_event_witness :
  Permutation
    (get_claims_by_event
       (fst (create_claim strict_engine Examples.event_only "first" 1
               (Some "E"%string) Claim.no_kwargs 2)) "E")
    [Claim.insert_row 1 2 "first" 1 (Some "E"%string) Claim.no_kwargs].
Proof.
  destruct (create_claim_listed_under_its_event strict_engine
              Examples.event_only _ "first" 1 (Some "E"%string)
              Claim.no_kwargs 2 _ eq_refl) as (_ & _ & _ & _ & _ & H & _).
  exact (H "E"%string).
Defined.

(** X5.  When [create_claim] returns, each source keeps its verified and refuted
    counters, its credit score and its name, whatever status the claim is
    created with; [total_claims] grows by one for the source the claim
    names and no other source row changes. *)
Theorem create_claim_moves_only_total_claims :
  forall (eng : Engine) (st st' : Store) (text : string) (sid : Z)
         (eid : option string) (kw : Claim.kwargs) (now : datetime)
         (c : Claim.t) (other : Z) (s : Source.t),
    create_claim eng st text sid eid kw now = (st', Returned c) ->
    source_by_id st other = Some s ->
    exists s',
      source_by_id st' other = Some s' /\
      Source.total_claims s'
        = Source.total_claims s + (if other =? sid then 1 else 0) /\
      Source.verified_claims s' = Source.verified_claims s /\
      Source.refuted_claims s' = Source.refuted_claims s /\
      Source.credit_score s' = Source.credit_score s /\
      Source.name s' = Source.name s /\
      (other <> sid -> s' = s).
Proof.
  intros eng st st' text sid eid kw now c other s H Hs.
  destruct (create_claim_returned _ _ _ _ _ _ _ _ _ H) as [_ Hst].
  destruct (source_by_id st sid) as [t|] eqn:Ht.
  - pose proof (source_by_id_sound _ _ _ Ht) as Hidt.
    pose proof (source_by_id_sound _ _ _ Hs) as Hids.
    rewrite Hst, source_by_id_update_source.
    change (source_by_id (add_claim st c) other) with (source_by_id st other).
    rewrite Hs. cbn [option_map]. cbn [Source.id onupdate
      Source.set_updated_at Source.set_total_claims].
    rewrite Hids, Hidt.
    destruct (Z.eqb_spec other sid) as [->|Hne].
    + rewrite Hs in Ht. injection Ht as <-.
      eexists. split; [reflexivity|]. repeat split; try reflexivity.
      intros N. now contradiction N.
    + exists s. repeat split; try reflexivity. lia.
  - rewrite Hst.
    change (source_by_id (add_claim st c) other) with (source_by_id st other).
    exists s. destruct (Z.eqb_spec other sid) as [->|Hne]; [congruence|].
    repeat split; try assumption; try reflexivity. lia.
Qed.

(** X5 at concrete inputs. *)
Lemma create_claim_moves_only_total_claims_witness :
  exists s',
    source_by_id
      (fst (create_claim lenient_engine Examples.event_only "first" 1 None
              (Claim.mk_kwargs (Some ClaimStatus.VERIFIED) None None None
                 None None) 2)) 1 = Some s' /\
    Source.total_claims s' = 1 /\
    Source.verified_claims s' = 0.
Proof.
  destruct (create_claim_moves_only_total_claims lenient_engine
              Examples.event_only _ "first" 1 None
              (Claim.mk_kwargs (Some ClaimStatus.VERIFIED) None None None
                 None None) 2 _ 1 _ eq_refl eq_refl)
    as (s' & H1 & H2 & H3 & _).
  exists s'. split; [exact H1|]. split; [exact H2|exact H3].
Defined.

(** X6.  For a claim of the store, [update_claim_status] sets its status and
    replaces [verification_result] only by a result that is truthy: [None]
    and an empty dictionary leave the old result.  Id, text, source and
    event of the claim are kept, and no other claim changes. *)
Theorem update_claim_status_claim_row :
  forall (st : Store) (cid : Z) (status : ClaimStatus.t)
         (vr : option PyValue) (now : datetime) (c : Claim.t),
    claim_by_id st cid = Some c ->
    let st' := fst (update_claim_status st cid status vr now) in
    (exists c',
       claim_by_id st' cid = Some c' /\
       Claim.status c' = status /\
       Claim.verification_result c'
         = match vr with
           | Some v => if truthy v then v else Claim.verification_result c
           | None => Claim.verification_result c
           end /\
       Claim.id c' = cid /\
       Claim.text c' = Claim.text c /\
       Claim.source_id c' = Claim.source_id c /\
       Claim.event_id c' = Claim.event_id c) /\
    (forall other, other <> cid ->
       claim_by_id st' other = claim_by_id st other) /\
    List.length (claims st') = List.length (claims st).
Proof.
  intros st cid status vr now c Hc st'. subst st'.
  pose proof (claim_by_id_sound _ _ _ Hc) as Hid.
  split; [|split].
  - exists (claim_after c status vr).
    split; [now apply update_claim_status_claim_lookup|].
    unfold claim_after.
    destruct vr as [v|]; [destruct (truthy v)|]; repeat split;
      try reflexivity; assumption.
  - intros other Hne.
    rewrite (update_claim_status_found _ _ _ _ _ _ Hc). cbn [fst].
    assert (E : claim_by_id (update_claim st (claim_after c status vr)) other
                = claim_by_id st other).
    { rewrite claim_by_id_update_claim.
      destruct (claim_by_id st other) as [r|] eqn:Hr; [|reflexivity].
      cbn [option_map].
      rewrite (claim_by_id_sound _ _ _ Hr), claim_after_id, Hid.
      destruct (Z.eqb_spec other cid); [contradiction|reflexivity]. }
    destruct (source_by_id st (Claim.source_id c)); [|exact E].
    destruct (_ || _); exact E.
  - rewrite (update_claim_status_found _ _ _ _ _ _ Hc). cbn [fst].
    assert (E : List.length
                  (claims (update_claim st (claim_after c status vr)))
                = List.length (claims st)).
    { unfold update_claim, replace_claim; simpl. apply length_map. }
    destruct (source_by_id st (Claim.source_id c)); [|exact E].
    destruct (_ || _); exact E.
Qed.

(** X6 at concrete inputs. *)
Lemma update_claim_status_claim_row_witness :
  exists c',
    claim_by_id
      (fst (update_claim_status Examples.three_claims 1
              ClaimStatus.REFUTED (Some (PyDict [])) 9)) 1 = Some c' /\
    Claim.status c' = ClaimStatus.REFUTED /\
    Claim.verification_result c' = PyDict [].
Proof.
  destruct (update_claim_status_claim_row Examples.three_claims 1
              ClaimStatus.REFUTED (Some (PyDict [])) 9 _ eq_refl)
    as ((c' & H1 & H2 & H3 & _) & _).
  exists c'. split; [exact H1|]. split; [exact H2|exact H3].
Defined.

Lemma owner_after_frame now old new s :
  Source.total_claims (owner_after now old new s) = Source.total_claims s /\
  Source.credit_score (owner_after now old new s) = Source.credit_score s /\
  Source.name (owner_after now old new s) = Source.name s /\
  Source.type (owner_after now old new s) = Source.type s.
Proof. unfold owner_after. destruct old, new; simpl; repeat split. Qed.

Lemma update_claim_status_source_frame (st : Store) (cid : Z)
    (status : ClaimStatus.t) (vr : option PyValue) (now : datetime)
    (sid : Z) (s : Source.t) :
  source_by_id st sid = Some s ->
  exists s',
    source_by_id (fst (update_claim_status st cid status vr now)) sid
      = Some s' /\
    Source.total_claims s' = Source.total_claims s /\
    Source.credit_score s' = Source.credit_score s /\
    Source.name s' = Source.name s /\
    Source.verified_claims s <= Source.verified_claims s' /\
    Source.refuted_claims s <= Source.refuted_claims s' /\
    (forall c, claim_by_id st cid = Some c -> Claim.source_id c <> sid ->
               s' = s).
Proof.
  intros Hs. destruct (claim_by_id st cid) as [c|] eqn:Hc.
  - rewrite (update_claim_status_lookup _ _ _ _ _ _ sid Hc), Hs.
    destruct (Z.eqb_spec sid (Claim.source_id c)) as [E|E]; cbn [option_map].
    + eexists. split; [reflexivity|].
      destruct (owner_after_frame now (Claim.status c) status s)
        as (F1 & F2 & F3 & _).
      rewrite owner_after_verified, owner_after_refuted.
      repeat split; try assumption.
      * unfold bump. destruct (_ && _); lia.
      * unfold bump. destruct (_ && _); lia.
      * intros c0 Hc0 N. injection Hc0 as <-. congruence.
    + exists s. repeat split; try reflexivity; lia.
  - unfold update_claim_status. rewrite Hc. cbn [fst].
    exists s. repeat split; try assumption; try reflexivity; try lia.
Qed.

(** X7.  [update_claim_status] leaves events and refutations alone, and keeps
    [total_claims], [credit_score] and [name] of every source; a source
    that does not own the claim keeps its whole row. *)
Theorem update_claim_status_frame :
  forall (st : Store) (cid : Z) (status : ClaimStatus.t)
         (vr : option PyValue) (now : datetime),
    let st' := fst (update_claim_status st cid status vr now) in
    events st' = events st /\
    claim_refutations st' = claim_refutations st /\
    (forall sid s,
       source_by_id st sid = Some s ->
       exists s',
         source_by_id st' sid = Some s' /\
         Source.total_claims s' = Source.total_claims s /\
         Source.credit_score s' = Source.credit_score s /\
         Source.name s' = Source.name s /\
         (forall c, claim_by_id st cid = Some c ->
                    Claim.source_id c <> sid -> s' = s)).
Proof.
  intros st cid status vr now st'. subst st'. split; [|split].
  - unfold update_claim_status.
    destruct (claim_by_id st cid) as [c|]; [|reflexivity]. cbn [fst].
    destruct (claim_source _ _); [|reflexivity].
    destruct (_ && _); [reflexivity|]. destruct (_ && _); reflexivity.
  - unfold update_claim_status.
    destruct (claim_by_id st cid) as [c|]; [|reflexivity]. cbn [fst].
    destruct (claim_source _ _); [|reflexivity].
    destruct (_ && _); [reflexivity|]. destruct (_ && _); reflexivity.
  - intros sid s Hs.
    destruct (update_claim_status_source_frame st cid status vr now sid s Hs)
      as (s' & H1 & H2 & H3 & H4 & _ & _ & H7).
    exists s'. repeat split; assumption.
Qed.

(** X7 at concrete inputs. *)
Lemma update_claim_status_frame_witness :
  exists s',
    source_by_id
      (fst (update_claim_status Examples.three_claims 1
              ClaimStatus.VERIFIED None 9)) 1 = Some s' /\
    Source.total_claims s' = 2 /\
    Source.credit_score s' = 80.
Proof.
  destruct (update_claim_status_frame Examples.three_claims 1
              ClaimStatus.VERIFIED None 9) as (_ & _ & H).
  destruct (H 1 _ eq_refl) as (s' & H1 & H2 & H3 & _).
  exists s'. split; [exact H1|]. split; [exact H2|exact H3].
Defined.

(** X8.  Over any sequence of [update_claim_status] calls the verified and
    refuted counters of a source never decrease (a claim leaving VERIFIED
    or REFUTED takes nothing back), and its [total_claims] and
    [credit_score] stay as they were. *)
Theorem status_counters_never_decrease :
  forall (calls : list status_call) (st : Store) (sid : Z) (s : Source.t),
    source_by_id st sid = Some s ->
    exists s',
      source_by_id (run_status_calls st calls) sid = Some s' /\
      Source.verified_claims s <= Source.verified_claims s' /\
      Source.refuted_claims s <= Source.refuted_claims s' /\
      Source.total_claims s' = Source.total_claims s /\
      Source.credit_score s' = Source.credit_score s.
Proof.
  induction calls as [|c calls IH]; intros st sid s Hs.
  - exists s. cbn. repeat split; try assumption; lia.
  - change (run_status_calls st (c :: calls))
      with (run_status_calls (apply_status_call st c) calls).
    destruct (update_claim_status_source_frame st (sc_claim_id c)
                (sc_status c) (sc_verification_result c) (sc_now c) sid s Hs)
      as (s1 & H1 & Ht & Hc & _ & Hv & Hr & _).
    destruct (IH _ _ _ H1) as (s' & G1 & Gv & Gr & Gt & Gc).
    exists s'. repeat split; [exact G1|lia|lia|congruence|congruence].
Qed.

(** X8 at concrete inputs. *)
Lemma status_counters_never_decrease_witness :
  exists s',
    source_by_id
      (run_status_calls Examples.three_claims
         [ mk_status_call 1 ClaimStatus.VERIFIED None 9;
           mk_status_call 1 ClaimStatus.REFUTED None 10 ]) 1 = Some s' /\
    0 <= Source.verified_claims s' /\
    0 <= Source.refuted_claims s'.
Proof.
  destruct (status_counters_never_decrease
              [ mk_status_call 1 ClaimStatus.VERIFIED None 9;
                mk_status_call 1 ClaimStatus.REFUTED None 10 ]
              Examples.three_claims 1 _ eq_refl)
    as (s' & H1 & H2 & H3 & _).
  exists s'. split; [exact H1|]. split; [exact H2|exact H3].
Defined.

(** ** Credit scores *)

(** X9.  [update_source_credit_score] keeps the three counters, the name and the
    type of every source, keeps the whole row of every source but the one
    addressed, and leaves claims, events, refutations and the number of
    sources as they were. *)
Theorem update_source_credit_score_frame :
  forall (st : Store) (sid change : Z) (now : datetime) (other : Z)
         (s : Source.t),
    source_by_id st other = Some s ->
    let st' := fst (update_source_credit_score st sid change now) in
    (exists s',
       source_by_id st' other = Some s' /\
       Source.total_claims s' = Source.total_claims s /\
       Source.verified_claims s' = Source.verified_claims s /\
       Source.refuted_claims s' = Source.refuted_claims s /\
       Source.name s' = Source.name s /\
       Source.type s' = Source.type s /\
       (other <> sid -> s' = s)) /\
    claims st' = claims st /\
    events st' = events st /\
    claim_refutations st' = claim_refutations st /\
    List.length (sources st') = List.length (sources st).
Proof.
  intros st sid change now other s Hs st'. subst st'.
  destruct (source_by_id st sid) as [t|] eqn:Ht.
  - split.
    + rewrite (update_source_credit_score_lookup _ _ _ _ _ other Ht).
      destruct (Z.eqb_spec other sid) as [->|Hne].
      * rewrite Hs in Ht. injection Ht as <-.
        eexists. split; [reflexivity|]. repeat split.
        intros N. now contradiction N.
      * exists s. repeat split. exact Hs.
    + rewrite (update_source_credit_score_found _ _ _ _ _ Ht). cbn [fst].
      repeat split. unfold update_source, replace_source; simpl.
      apply length_map.
  - unfold update_source_credit_score. rewrite Ht. cbn [fst].
    split; [|repeat split].
    exists s. repeat split. exact Hs.
Qed.

(** X9 at concrete inputs. *)
Lemma update_source_credit_score_frame_witness :
  exists s',
    source_by_id
      (fst (update_source_credit_score Examples.three_claims 1 (-5) 9)) 2
      = Some s' /\
    Source.total_claims s' = 1 /\
    Source.name s' = "B"%string.
Proof.
  destruct (update_source_credit_score_frame Examples.three_claims 1 (-5) 9
              2 _ eq_refl) as ((s' & H1 & H2 & _ & _ & H5 & _) & _).
  exists s'. split; [exact H1|]. split; [exact H2|exact H5].
Defined.

Lemma clamp_step_nonneg (x a b : Z) :
  0 <= x <= 100 -> 0 <= a -> 0 <= b ->
  clamp 0 100 (clamp 0 100 (x + a) + b) = clamp 0 100 (x + (a + b)).
Proof. unfold clamp. lia. Qed.

Lemma clamp_step_nonpos (x a b : Z) :
  0 <= x <= 100 -> a <= 0 -> b <= 0 ->
  clamp 0 100 (clamp 0 100 (x + a) + b) = clamp 0 100 (x + (a + b)).
Proof. unfold clamp. lia. Qed.

Lemma total_change_cons (sid : Z) (c : credit_call)
    (calls : list credit_call) :
  total_change sid (c :: calls) =
  (if cc_source_id c =? sid then cc_change c else 0)
  + total_change sid calls.
Proof.
  unfold total_change. simpl.
  destruct (cc_source_id c =? sid); simpl; lia.
Qed.

Lemma total_change_sign (sid : Z) (calls : list credit_call) :
  (Forall (fun c => 0 <= cc_change c) calls ->
   0 <= total_change sid calls) /\
  (Forall (fun c => cc_change c <= 0) calls ->
   total_change sid calls <= 0).
Proof.
  induction calls as [|c calls [IH1 IH2]].
  - split; intros _; unfold total_change; simpl; lia.
  - rewrite total_change_cons. split; intros H; inversion_clear H as [|? ? Hc Hr].
    + specialize (IH1 Hr). destruct (cc_source_id c =? sid); lia.
    + specialize (IH2 Hr). destruct (cc_source_id c =? sid); lia.
Qed.

Lemma run_credit_calls_same_sign (calls : list credit_call) :
  forall (st : Store) (sid : Z) (s : Source.t),
    source_by_id st sid = Some s ->
    0 <= Source.credit_score s <= 100 ->
    Forall (fun c => 0 <= cc_change c) calls \/
    Forall (fun c => cc_change c <= 0) calls ->
    exists s',
      source_by_id (run_credit_calls st calls) sid = Some s' /\
      Source.credit_score s'
        = clamp 0 100 (Source.credit_score s + total_change sid calls).
Proof.
  induction calls as [|c calls IH]; intros st sid s Hs Hr Hsign.
  - exists s. split; [exact Hs|]. unfold total_change, clamp. simpl. lia.
  - change (run_credit_calls st (c :: calls))
      with (run_credit_calls (apply_credit_call st c) calls).
    rewrite total_change_cons.
    assert (Htail : Forall (fun c => 0 <= cc_change c) calls \/
                    Forall (fun c => cc_change c <= 0) calls).
    { destruct Hsign as [H|H]; inversion_clear H; auto. }
    unfold apply_credit_call.
    destruct (source_by_id st (cc_source_id c)) as [t|] eqn:Ht.
    + pose proof (update_source_credit_score_lookup st (cc_source_id c)
                    (cc_change c) (cc_now c) t sid Ht) as L.
      rewrite (Z.eqb_sym (cc_source_id c) sid).
      destruct (Z.eqb_spec sid (cc_source_id c)) as [E|E].
      * subst sid. rewrite Hs in Ht. injection Ht as <-.
        destruct (IH _ _ _ L) as (s' & H1 & H2);
          [simpl; apply clamp_in_range|exact Htail|].
        exists s'. split; [exact H1|]. rewrite H2. simpl Source.credit_score.
        destruct (total_change_sign (cc_source_id c) calls) as [P N].
        destruct Hsign as [H|H]; inversion_clear H as [|? ? Hc Hrest].
        -- apply clamp_step_nonneg; auto.
        -- apply clamp_step_nonpos; auto.
      * rewrite Hs in L. destruct (IH _ _ _ L Hr Htail) as (s' & H1 & H2).
        exists s'. split; [exact H1|]. rewrite H2. f_equal.
    + unfold update_source_credit_score. rewrite Ht. cbn [fst].
      assert (E : (cc_source_id c =? sid) = false).
      { apply Z.eqb_neq. intros N. rewrite N in Ht. congruence. }
      rewrite E. destruct (IH _ _ _ Hs Hr Htail) as (s' & H1 & H2).
      exists s'. split; [exact H1|]. rewrite H2. f_equal.
Qed.

(** X10.  For a source whose credit score starts within 0..100, a sequence of
    [update_source_credit_score] calls whose changes are all non-negative,
    or all non-positive, ends at the clamp of the start plus the sum of
    the changes addressed to that source. *)
Theorem credit_changes_of_one_sign_add_up :
  forall (calls : list credit_call) (st : Store) (sid : Z) (s : Source.t),
    source_by_id st sid = Some s ->
    0 <= Source.credit_score s <= 100 ->
    Forall (fun c => 0 <= cc_change c) calls \/
    Forall (fun c => cc_change c <= 0) calls ->
    exists s',
      source_by_id (run_credit_calls st calls) sid = Some s' /\
      Source.credit_score s'
        = Z.max 0 (Z.min 100
                     (Source.credit_score s + total_change sid calls)).
Proof. intros. now apply run_credit_calls_same_sign. Qed.

(** X10 at concrete inputs. *)
Lemma credit_changes_of_one_sign_add_up_witness :
  exists s',
    source_by_id
      (run_credit_calls Examples.one_source
         [mk_credit_call 1 30 7; mk_credit_call 1 40 8]) 1 = Some s' /\
    Source.credit_score s' = 100.
Proof.
  destruct (credit_changes_of_one_sign_add_up
              [mk_credit_call 1 30 7; mk_credit_call 1 40 8]
              Examples.one_source 1 _ eq_refl) as (s' & H1 & H2).
  - simpl. lia.
  - left. repeat constructor; simpl; lia.
  - exists s'. split; [exact H1|exact H2].
Defined.

(** ** batch_update_source_scores *)

Lemma update_source_credit_score_exists (st : Store) (sid change : Z)
    (now : datetime) (other : Z) :
  match source_by_id (fst (update_source_credit_score st sid change now))
          other with
  | Some _ => true
  | None => false
  end
  = match source_by_id st other with
    | Some _ => true
    | None => false
    end.
Proof.
  destruct (source_by_id st sid) as [t|] eqn:Ht.
  - rewrite (update_source_credit_score_lookup _ _ _ _ _ other Ht).
    destruct (Z.eqb_spec other sid) as [->|]; [now rewrite Ht|reflexivity].
  - unfold update_source_credit_score. now rewrite Ht.
Qed.

Lemma calls_hitting_after_update (st : Store) (sid change : Z)
    (now : datetime) (calls : list credit_call) :
  calls_hitting (fst (update_source_credit_score st sid change now)) calls
  = calls_hitting st calls.
Proof.
  unfold calls_hitting. do 2 f_equal. apply filter_ext.
  intros c. apply update_source_credit_score_exists.
Qed.

Lemma calls_hitting_cons (st : Store) (c : credit_call)
    (calls : list credit_call) :
  calls_hitting st (c :: calls) =
  (match source_by_id st (cc_source_id c) with
   | Some _ => 1
   | None => 0
   end) + calls_hitting st calls.
Proof.
  unfold calls_hitting. simpl.
  destruct (source_by_id st (cc_source_id c)); simpl List.length; lia.
Qed.

Lemma update_source_credit_score_ok (st : Store) (sid change : Z)
    (now : datetime) :
  snd (update_source_credit_score st sid change now)
  = match source_by_id st sid with
    | Some _ => true
    | None => false
    end.
Proof.
  unfold update_source_credit_score.
  now destruct (source_by_id st sid).
Qed.

Lemma batch_update_source_scores_acc (results : list result)
    (now : datetime) :
  forall (st : Store) (updated : Z),
    fold_left
      (fun (acc : Store * Z) (r : result) =>
         let '(st, updated) := acc in
         match source_id r, score_change r with
         | Some sid, Some change =>
             if negb (sid =? 0)
             then
               let '(st', ok) :=
                 update_source_credit_score st sid change now in
               if ok then (st', updated + 1) else (st', updated)
             else (st, updated)
         | _, _ => (st, updated)
         end)
      results (st, updated)
    = (run_credit_calls st (to_credit_calls results now),
       updated + calls_hitting st (to_credit_calls results now)).
Proof.
  induction results as [|r results IH]; intros st updated.
  - cbn. unfold calls_hitting. simpl. f_equal. lia.
  - cbn [fold_left].
    destruct r as [[sid|] [change|]]; cbn [source_id score_change];
      try (rewrite IH; reflexivity).
    destruct (sid =? 0) eqn:Z0; cbn [negb].
    + rewrite IH. unfold to_credit_calls. cbn [flat_map source_id
        score_change]. rewrite Z0. reflexivity.
    + pose proof (update_source_credit_score_ok st sid change now) as Hok.
      pose proof (calls_hitting_after_update st sid change now
                    (to_credit_calls results now)) as Hh.
      destruct (update_source_credit_score st sid change now) as [st' ok]
        eqn:E.
      cbn [fst snd] in Hok, Hh.
      assert (T : to_credit_calls (mk_result (Some sid) (Some change)
                                     :: results) now
                  = mk_credit_call sid change now
                    :: to_credit_calls results now).
      { unfold to_credit_calls. cbn [flat_map source_id score_change].
        rewrite Z0. reflexivity. }
      rewrite T, calls_hitting_cons. cbn [cc_source_id].
      change (run_credit_calls st (mk_credit_call sid change now
                                     :: to_credit_calls results now))
        with (run_credit_calls
                (fst (update_source_credit_score st sid change now))
                (to_credit_calls results now)).
      rewrite E. cbn [fst].
      destruct ok; rewrite IH, Hh;
        destruct (source_by_id st sid); try discriminate; f_equal; lia.
Qed.

Lemma calls_hitting_bounds (st : Store) (calls : list credit_call) :
  0 <= calls_hitting st calls <= Z.of_nat (List.length calls).
Proof.
  unfold calls_hitting.
  pose proof (filter_length_le
                (fun c => match source_by_id st (cc_source_id c) with
                          | Some _ => true
                          | None => false
                          end) calls).
  lia.
Qed.

Lemma to_credit_calls_length (results : list result) (now : datetime) :
  (List.length (to_credit_calls results now) <= List.length results)%nat.
Proof.
  induction results as [|r results IH]; [simpl; lia|].
  unfold to_credit_calls in *. cbn [flat_map]. rewrite length_app.
  destruct r as [[sid|] [change|]]; cbn [source_id score_change];
    try (simpl; lia).
  destruct (negb (sid =? 0)); simpl; lia.
Qed.

(** X11.  [batch_update_source_scores] leaves the store that the single updates
    of its complete entries leave, in order; an entry without source id,
    with source id 0 or without score change is skipped.  It returns the
    number of complete entries that address a source of the store, which
    is at most the number of entries, and credit scores within 0..100
    stay within 0..100. *)
Theorem batch_update_source_scores_is_a_trace :
  forall (st : Store) (results : list result) (now : datetime),
    let calls := to_credit_calls results now in
    fst (batch_update_source_scores st results now)
      = run_credit_calls st calls /\
    snd (batch_update_source_scores st results now)
      = calls_hitting st calls /\
    0 <= snd (batch_update_source_scores st results now)
      <= Z.of_nat (List.length results) /\
    (forall sid s,
       source_by_id st sid = Some s ->
       0 <= Source.credit_score s <= 100 ->
       exists s',
         source_by_id (fst (batch_update_source_scores st results now)) sid
           = Some s' /\
         0 <= Source.credit_score s' <= 100).
Proof.
  intros st results now calls. subst calls.
  unfold batch_update_source_scores.
  rewrite batch_update_source_scores_acc. cbn [fst snd].
  split; [reflexivity|]. split; [lia|]. split.
  - pose proof (calls_hitting_bounds st (to_credit_calls results now)).
    pose proof (to_credit_calls_length results now). lia.
  - intros sid s Hs Hr. now apply run_credit_calls_in_range with s.
Qed.

(** X11 at concrete inputs. *)
Lemma batch_update_source_scores_is_a_trace_witness :
  snd (batch_update_source_scores Examples.three_claims
         [ mk_result (Some 1) (Some (-5));
           mk_result (Some 99) (Some 5);
           mk_result None (Some 5);
           mk_result (Some 2) None;
           mk_result (Some 0) (Some 5) ] 9) = 1 /\
  exists s',
    source_by_id
      (fst (batch_update_source_scores Examples.three_claims
              [ mk_result (Some 1) (Some (-5));
                mk_result (Some 99) (Some 5);
                mk_result None (Some 5);
                mk_result (Some 2) None;
                mk_result (Some 0) (Some 5) ] 9)) 1 = Some s' /\
    0 <= Source.credit_score s' <= 100.
Proof.
  destruct (batch_update_source_scores_is_a_trace Examples.three_claims
              [ mk_result (Some 1) (Some (-5));
                mk_result (Some 99) (Some 5);
                mk_result None (Some 5);
                mk_result (Some 2) None;
                mk_result (Some 0) (Some 5) ] 9) as (_ & H2 & _ & H4).
  split; [exact H2|]. apply (H4 1 _ eq_refl). simpl. lia.
Defined.

(** ** Keys stay consistent *)

Lemma map_id_replace_source (s' : Source.t) (rows : list Source.t) :
  map Source.id (replace_source s' rows) = map Source.id rows.
Proof.
  unfold replace_source. rewrite map_map. apply map_ext. intros r.
  destruct (Z.eqb_spec (Source.id r) (Source.id s')); congruence.
Qed.

Lemma map_id_replace_event (e' : Event.t) (rows : list Event.t) :
  map Event.id (replace_event e' rows) = map Event.id rows.
Proof.
  unfold replace_event. rewrite map_map. apply map_ext. intros r.
  destruct (String.eqb_spec (Event.id r) (Event.id e')); congruence.
Qed.

Lemma map_id_replace_claim (c' : Claim.t) (rows : list Claim.t) :
  map Claim.id (replace_claim c' rows) = map Claim.id rows.
Proof.
  unfold replace_claim. rewrite map_map. apply map_ext. intros r.
  destruct (Z.eqb_spec (Claim.id r) (Claim.id c')); congruence.
Qed.

Lemma unique_by_id (rows : list Source.t) (r s : Source.t) :
  NoDup (map Source.id rows) ->
  In r rows -> In s rows -> Source.id r = Source.id s -> r = s.
Proof.
  induction rows as [|x rows IH]; intros Hnd Hr Hs E; [contradiction|].
  simpl in Hnd. inversion_clear Hnd as [|? ? Hx Hrest].
  destruct Hr as [->|Hr], Hs as [->|Hs]; [reflexivity| | |now apply IH].
  - exfalso. apply Hx. rewrite E. now apply in_map.
  - exfalso. apply Hx. rewrite <- E. now apply in_map.
Qed.

Lemma source_by_id_in (st : Store) (sid : Z) (s : Source.t) :
  source_by_id st sid = Some s -> In s (sources st).
Proof. unfold source_by_id. intros H. now apply find_some in H. Qed.

Lemma source_by_id_of_row (st : Store) (s : Source.t) :
  NoDup (map Source.id (sources st)) ->
  In s (sources st) ->
  source_by_id st (Source.id s) = Some s.
Proof.
  intros Hnd Hin. unfold source_by_id.
  destruct (find (fun r => Source.id r =? Source.id s) (sources st))
    as [r|] eqn:F.
  - pose proof F as F'. apply find_some in F'. destruct F' as [Hr E].
    apply Z.eqb_eq in E. f_equal. now apply (unique_by_id (sources st)).
  - exfalso. pose proof (find_none _ _ F s Hin) as N. simpl in N.
    now rewrite Z.eqb_refl in N.
Qed.

Lemma map_name_replace_source (st : Store) (s s' : Source.t) :
  NoDup (map Source.id (sources st)) ->
  In s (sources st) ->
  Source.id s' = Source.id s ->
  Source.name s' = Source.name s ->
  map Source.name (replace_source s' (sources st))
  = map Source.name (sources st).
Proof.
  intros Hnd Hin Hid Hname. unfold replace_source. rewrite map_map.
  apply map_ext_in. intros r Hr.
  destruct (Z.eqb_spec (Source.id r) (Source.id s')) as [E|]; [|reflexivity].
  rewrite Hname. f_equal. symmetry.
  apply (unique_by_id (sources st)); congruence.
Qed.

Lemma NoDup_snoc {A : Type} (l : list A) (a : A) :
  NoDup l -> ~ In a l -> NoDup (l ++ [a]).
Proof.
  intros Hl Ha. apply NoDup_app; [exact Hl|repeat constructor; tauto|].
  intros x Hx [->|[]]. contradiction.
Qed.

Lemma Forall_lt_not_in (l : list Z) (n : Z) :
  Forall (fun i => i < n) l -> ~ In n l.
Proof.
  intros H Hin. rewrite Forall_forall in H. specialize (H n Hin). lia.
Qed.

Lemma find_none_not_in_names (st : Store) (name : string) :
  source_by_name st name = None -> ~ In name (map Source.name (sources st)).
Proof.
  unfold source_by_name. intros F Hin. apply in_map_iff in Hin.
  destruct Hin as (s & E & Hs). pose proof (find_none _ _ F s Hs) as N.
  simpl in N. rewrite E, String.eqb_refl in N. discriminate.
Qed.

Lemma find_none_not_in_event_ids (st : Store) (eid : string) :
  event_by_id st eid = None -> ~ In eid (map Event.id (events st)).
Proof.
  unfold event_by_id. intros F Hin. apply in_map_iff in Hin.
  destruct Hin as (e & E & He). pose proof (find_none _ _ F e He) as N.
  simpl in N. rewrite E, String.eqb_refl in N. discriminate.
Qed.

(** The consistency of the keys in terms of the key columns alone. *)
Lemma keys_consistent_columns (st : Store) :
  keys_consistent st <->
  NoDup (map Source.id (sources st)) /\
  NoDup (map Source.name (sources st)) /\
  NoDup (map Event.id (events st)) /\
  NoDup (map Claim.id (claims st)) /\
  NoDup (map ClaimRefutation.id (claim_refutations st)) /\
  Forall (fun i => i < next_source_id st) (map Source.id (sources st)) /\
  Forall (fun i => i < next_claim_id st) (map Claim.id (claims st)) /\
  Forall (fun i => i < next_refutation_id st)
         (map ClaimRefutation.id (claim_refutations st)).
Proof. unfold keys_consistent. rewrite !Forall_map. reflexivity. Qed.

Lemma keys_consistent_update_source (st : Store) (s s' : Source.t) :
  keys_consistent st ->
  In s (sources st) ->
  Source.id s' = Source.id s ->
  Source.name s' = Source.name s ->
  keys_consistent (update_source st s').
Proof.
  intros K Hin Hid Hname. pose proof K as K0.
  apply keys_consistent_columns in K.
  destruct K as (K1 & K2 & K3 & K4 & K5 & K6 & K7 & K8).
  apply keys_consistent_columns. unfold update_source; cbn.
  rewrite map_id_replace_source.
  rewrite (map_name_replace_source st s s' K1 Hin Hid Hname).
  repeat split; assumption.
Qed.

Lemma keys_consistent_update_claim (st : Store) (c' : Claim.t) :
  keys_consistent st -> keys_consistent (update_claim st c').
Proof.
  intros K. apply keys_consistent_columns in K.
  apply keys_consistent_columns. unfold update_claim; cbn.
  now rewrite map_id_replace_claim.
Qed.

Lemma keys_consistent_update_event (st : Store) (e' : Event.t) :
  keys_consistent st -> keys_consistent (update_event st e').
Proof.
  intros K. apply keys_consistent_columns in K.
  apply keys_consistent_columns. unfold update_event; cbn.
  now rewrite map_id_replace_event.
Qed.

Lemma keys_consistent_add_claim (st : Store) (c : Claim.t) :
  keys_consistent st -> Claim.id c = next_claim_id st ->
  keys_consistent (add_claim st c).
Proof.
  intros K Hid. apply keys_consistent_columns in K.
  destruct K as (K1 & K2 & K3 & K4 & K5 & K6 & K7 & K8).
  apply keys_consistent_columns. unfold add_claim; cbn.
  rewrite map_app. cbn [map]. rewrite Hid.
  repeat split; try assumption.
  - apply NoDup_snoc; [exact K4|now apply Forall_lt_not_in].
  - apply Forall_app. split.
    + eapply Forall_impl; [|exact K7]. cbn. intros; lia.
    + repeat constructor. lia.
Qed.

Lemma keys_consistent_step (eng : Engine) (st : Store) (c : repo_call)
    (now : datetime) :
  keys_consistent st -> keys_consistent (apply_call eng st c now).
Proof.
  intros K. pose proof K as K0. apply keys_consistent_columns in K0.
  destruct K0 as (K1 & K2 & K3 & K4 & K5 & K6 & K7 & K8).
  destruct c as [name ty kw | sid change | eid kw | eid status score
              | text sid eid kw | cid status vr | a b conf ev];
    cbn [apply_call].
  - (* find_or_create_source *)
    unfold find_or_create_source.
    destruct (source_by_name st name) as [s|] eqn:F; cbn [fst];
      [exact K|].
    apply keys_consistent_columns. unfold add_source; cbn.
    rewrite !map_app. cbn [map Source.id Source.name Source.insert_row].
    repeat split; try assumption.
    + apply NoDup_snoc; [exact K1|now apply Forall_lt_not_in].
    + apply NoDup_snoc; [exact K2|now apply find_none_not_in_names].
    + apply Forall_app. split.
      * eapply Forall_impl; [|exact K6]. cbn. intros; lia.
      * repeat constructor. lia.
  - (* update_source_credit_score *)
    unfold update_source_credit_score.
    destruct (source_by_id st sid) as [s|] eqn:F; cbn [fst];
      [|exact K].
    apply (keys_consistent_update_source st s);
      [exact K|now apply (source_by_id_in st sid)| |]; reflexivity.
  - (* create_event *)
    unfold create_event.
    destruct (event_by_id st eid) as [e|] eqn:F; cbn [fst];
      [exact K|].
    apply keys_consistent_columns. unfold add_event; cbn.
    rewrite map_app. cbn [map Event.id Event.insert_row].
    repeat split; try assumption.
    apply NoDup_snoc; [exact K3|now apply find_none_not_in_event_ids].
  - (* update_event_status *)
    unfold update_event_status, get_event.
    destruct (event_by_id st eid) as [e|]; cbn [fst]; [|exact K].
    now apply keys_consistent_update_event.
  - (* create_claim *)
    unfold create_claim.
    destruct (enforce_foreign_keys eng && _); cbn [fst]; [exact K|].
    change (source_by_id (add_claim st ?x) sid)
      with (source_by_id st sid).
    destruct (source_by_id st sid) as [s|] eqn:F.
    + apply (keys_consistent_update_source _ s).
      * now apply keys_consistent_add_claim.
      * now apply (source_by_id_in st sid).
      * reflexivity.
      * reflexivity.
    + now apply keys_consistent_add_claim.
  - (* update_claim_status *)
    destruct (claim_by_id st cid) as [c|] eqn:F.
    + rewrite (update_claim_status_found _ _ _ _ _ _ F). cbn [fst].
      destruct (source_by_id st (Claim.source_id c)) as [s|] eqn:G;
        [|now apply keys_consistent_update_claim].
      destruct (_ || _); [now apply keys_consistent_update_claim|].
      apply (keys_consistent_update_source _ s).
      * now apply keys_consistent_update_claim.
      * now apply (source_by_id_in st (Claim.source_id c)).
      * apply owner_after_id.
      * apply (owner_after_frame now (Claim.status c) status s).
    + unfold update_claim_status. rewrite F. exact K.
  - (* create_claim_refutation *)
    unfold create_claim_refutation.
    destruct (enforce_foreign_keys eng && _); cbn [fst]; [exact K|].
    apply keys_consistent_columns. unfold add_claim_refutation; cbn.
    rewrite map_app. cbn [map ClaimRefutation.id].
    repeat split; try assumption.
    + apply NoDup_snoc; [exact K5|now apply Forall_lt_not_in].
    + apply Forall_app. split.
      * eapply Forall_impl; [|exact K8]. cbn. intros; lia.
      * repeat constructor. lia.
Qed.

Lemma keys_consistent_empty : keys_consistent empty_store.
Proof. unfold keys_consistent, empty_store; cbn. repeat split; constructor. Qed.

Lemma keys_consistent_run (eng : Engine)
    (calls : list (repo_call * datetime)) :
  forall st, keys_consistent st -> keys_consistent (run_calls eng st calls).
Proof.
  induction calls as [|[c now] calls IH]; intros st K; [exact K|].
  cbn [run_calls fold_left fst snd]. apply IH.
  now apply keys_consistent_step.
Qed.

Lemma three_claims_reachable :
  run_calls lenient_engine empty_store three_claims_calls
  = Examples.three_claims.
Proof. vm_compute. reflexivity. Qed.

Lemma three_claims_keys_consistent : keys_consistent Examples.three_claims.
Proof.
  rewrite <- three_claims_reachable.
  apply keys_consistent_run, keys_consistent_empty.
Qed.

(** X12.  In every store reached from the empty store by calls of the writing
    methods, source ids, source names, event ids, claim ids and refutation
    ids are without repetition and below their sequences; so each source
    row is what the lookup by its id and the lookup by its name return. *)
Theorem repository_calls_keep_keys_consistent :
  forall (eng : Engine) (calls : list (repo_call * datetime)),
    let st := run_calls eng empty_store calls in
    keys_consistent st /\
    (forall s, In s (sources st) ->
       source_by_id st (Source.id s) = Some s /\
       source_by_name st (Source.name s) = Some s).
Proof.
  intros eng calls st.
  assert (K : keys_consistent st)
    by (apply keys_consistent_run, keys_consistent_empty).
  split; [exact K|]. intros s Hs. split.
  - apply source_by_id_of_row; [apply K|exact Hs].
  - destruct K as (_ & K2 & _).
    unfold source_by_name.
    destruct (find (fun r => String.eqb (Source.name r) (Source.name s))
                (sources st)) as [r|] eqn:F.
    + pose proof F as F'. apply find_some in F'. destruct F' as [Hr E].
      apply String.eqb_eq in E. f_equal.
      clear F. revert Hr Hs E K2. generalize (sources st) as rows.
      induction rows as [|x rows IH]; intros Hr Hs E Hnd; [contradiction|].
      simpl in Hnd. inversion_clear Hnd as [|? ? Hx Hrest].
      destruct Hr as [->|Hr], Hs as [->|Hs];
        [reflexivity| | |now apply IH].
      * exfalso. apply Hx. rewrite E. now apply in_map.
      * exfalso. apply Hx. rewrite <- E. now apply in_map.
    + exfalso. pose proof (find_none _ _ F s Hs) as N. simpl in N.
      now rewrite String.eqb_refl in N.
Qed.

(** X12 at concrete inputs. *)
Lemma repository_calls_keep_keys_consistent_witness :
  keys_consistent (run_calls lenient_engine empty_store three_claims_calls) /\
  source_by_id (run_calls lenient_engine empty_store three_claims_calls) 2
  = source_by_name (run_calls lenient_engine empty_store three_claims_calls)
      "B".
Proof.
  destruct (repository_calls_keep_keys_consistent lenient_engine
              three_claims_calls) as [K H].
  split; [exact K|].
  destruct (H (Source.mk 2 "B" SourceType.SOCIAL_MEDIA 20 None None
                 (PyDict []) 1 0 0 0 4)) as [H1 H2].
  - vm_compute. right. left. reflexivity.
  - cbn [Source.id] in H1. cbn [Source.name] in H2.
    rewrite H1, H2. reflexivity.
Defined.

(** ** query_source_reputation *)

Lemma find_map_stable_in {A : Type} (p : A -> bool) (g : A -> A)
    (l : list A) :
  (forall x, In x l -> p (g x) = p x) ->
  find p (map g l) = option_map g (find p l).
Proof.
  induction l as [|a l IH]; intros Hp; simpl; [reflexivity|].
  rewrite (Hp a (or_introl eq_refl)).
  destruct (p a); [reflexivity|]. apply IH. intros x Hx. apply Hp. now right.
Qed.

Lemma source_by_name_update_source (st : Store) (s s' : Source.t)
    (name : string) :
  NoDup (map Source.id (sources st)) ->
  In s (sources st) ->
  Source.id s' = Source.id s ->
  Source.name s' = Source.name s ->
  source_by_name (update_source st s') name =
  option_map (fun r => if Source.id r =? Source.id s' then s' else r)
             (source_by_name st name).
Proof.
  intros Hnd Hin Hid Hname.
  unfold source_by_name, update_source, replace_source; cbn.
  apply find_map_stable_in. intros x Hx.
  destruct (Z.eqb_spec (Source.id x) (Source.id s')) as [E|]; [|reflexivity].
  assert (x = s) by (apply (unique_by_id (sources st)); congruence).
  subst x. now rewrite Hname.
Qed.

Lemma source_by_name_in (st : Store) (name : string) (s : Source.t) :
  source_by_name st name = Some s ->
  In s (sources st) /\ Source.name s = name.
Proof.
  unfold source_by_name. intros H. apply find_some in H.
  destruct H as [Hin E]. split; [exact Hin|now apply String.eqb_eq].
Qed.

Lemma query_source_reputation_found (isoformat : datetime -> string)
    (st : Store) (name : string) (s : Source.t) :
  keys_consistent st ->
  source_by_name st name = Some s ->
  exists view stats,
    query_source_reputation isoformat st name = Some view /\
    dict_get "name" view = Some (PyStr name) /\
    dict_get "type" view
      = Some (PyStr (SourceType.value (Source.type s))) /\
    dict_get "credit_score" view = Some (PyInt (Source.credit_score s)) /\
    dict_get "last_updated" view
      = Some (PyStr (isoformat (Source.updated_at s))) /\
    dict_get "statistics" view = Some (PyDict stats) /\
    stats = get_source_statistics st (Source.id s) /\
    dict_get "credit_score" stats
      = Some (PyInt (Source.credit_score s)) /\
    dict_get "total_claims" stats
      = Some (PyInt (Source.total_claims s)) /\
    dict_get "verified_claims" stats
      = Some (PyInt (Source.verified_claims s)) /\
    dict_get "refuted_claims" stats
      = Some (PyInt (Source.refuted_claims s)).
Proof.
  intros K H. destruct (source_by_name_in _ _ _ H) as [Hin Hname].
  assert (L : source_by_id st (Source.id s) = Some s).
  { apply source_by_id_of_row; [apply K|exact Hin]. }
  unfold query_source_reputation, get_source_by_name. rewrite H.
  eexists. exists (get_source_statistics st (Source.id s)).
  split; [reflexivity|]. rewrite Hname.
  unfold get_source_statistics. rewrite L.
  repeat split; reflexivity.
Qed.

(** X13.  In a store with consistent keys, [query_source_reputation] answers
    [None] for a name no source carries, and for a known name a view with
    the name, type, credit score and [updated_at] of that source and with
    the statistics of that same source. *)
Theorem query_source_reputation_reads_the_named_source :
  forall (isoformat : datetime -> string) (st : Store) (name : string),
    keys_consistent st ->
    (source_by_name st name = None ->
     query_source_reputation isoformat st name = None) /\
    (forall s, source_by_name st name = Some s ->
     exists view stats,
       query_source_reputation isoformat st name = Some view /\
       dict_get "name" view = Some (PyStr name) /\
       dict_get "type" view
         = Some (PyStr (SourceType.value (Source.type s))) /\
       dict_get "credit_score" view = Some (PyInt (Source.credit_score s)) /\
       dict_get "last_updated" view
         = Some (PyStr (isoformat (Source.updated_at s))) /\
       dict_get "statistics" view = Some (PyDict stats) /\
       stats = get_source_statistics st (Source.id s) /\
       dict_get "credit_score" stats
         = Some (PyInt (Source.credit_score s)) /\
       dict_get "total_claims" stats
         = Some (PyInt (Source.total_claims s)) /\
       dict_get "verified_claims" stats
         = Some (PyInt (Source.verified_claims s)) /\
       dict_get "refuted_claims" stats
         = Some (PyInt (Source.refuted_claims s))).
Proof.
  intros isoformat st name K. split.
  - intros H. unfold query_source_reputation, get_source_by_name.
    now rewrite H.
  - intros s H. now apply query_source_reputation_found.
Qed.

(** X13 at concrete inputs. *)
Lemma query_source_reputation_reads_the_named_source_witness :
  query_source_reputation str_of_int Examples.three_claims "nobody" = None /\
  exists view,
    query_source_reputation str_of_int Examples.three_claims "A"
      = Some view /\
    dict_get "credit_score" view = Some (PyInt 80) /\
    dict_get "last_updated" view = Some (PyStr "3").
Proof.
  destruct (query_source_reputation_reads_the_named_source str_of_int
              Examples.three_claims "nobody" three_claims_keys_consistent)
    as [Hnone _].
  destruct (query_source_reputation_reads_the_named_source str_of_int
              Examples.three_claims "A" three_claims_keys_consistent)
    as [_ Hsome].
  split; [apply Hnone; reflexivity|].
  destruct (Hsome _ eq_refl) as (view & stats & H1 & _ & _ & H4 & H5 & _).
  exists view. split; [exact H1|]. split; [exact H4|exact H5].
Defined.

(** X14.  Write then read: after [update_source_credit_score] on the source a
    name designates, [query_source_reputation] of that name shows the
    clamped score, at top level and in the statistics, and the time of the
    update as [last_updated]. *)
Theorem credit_update_shows_in_reputation :
  forall (isoformat : datetime -> string) (st : Store) (name : string)
         (s : Source.t) (change : Z) (now : datetime),
    keys_consistent st ->
    source_by_name st name = Some s ->
    let st' :=
      fst (update_source_credit_score st (Source.id s) change now) in
    exists view stats,
      query_source_reputation isoformat st' name = Some view /\
      dict_get "credit_score" view
        = Some (PyInt (Z.max 0 (Z.min 100 (Source.credit_score s + change)))) /\
      dict_get "last_updated" view = Some (PyStr (isoformat now)) /\
      dict_get "statistics" view = Some (PyDict stats) /\
      dict_get "credit_score" stats
        = Some (PyInt (Z.max 0 (Z.min 100 (Source.credit_score s + change)))) /\
      dict_get "total_claims" stats = Some (PyInt (Source.total_claims s)).
Proof.
  intros isoformat st name s change now K H st'.
  destruct (source_by_name_in _ _ _ H) as [Hin Hname].
  assert (L : source_by_id st (Source.id s) = Some s).
  { apply source_by_id_of_row; [apply K|exact Hin]. }
  set (s' := Source.set_updated_at now
               (Source.set_credit_score
                  (clamp 0 100 (Source.credit_score s + change)) s)).
  assert (E : st' = update_source st s').
  { subst st'. now rewrite (update_source_credit_score_found _ _ _ _ _ L). }
  assert (K' : keys_consistent st').
  { rewrite E. apply (keys_consistent_update_source st s); auto. }
  assert (N : source_by_name st' name = Some s').
  { rewrite E.
    rewrite (source_by_name_update_source st s s' name); auto;
      [|apply K].
    rewrite H. cbn [option_map]. subst s'. cbn [Source.id
      Source.set_updated_at Source.set_credit_score].
    now rewrite Z.eqb_refl. }
  destruct (query_source_reputation_found isoformat st' name s' K' N)
    as (view & stats & Q1 & _ & _ & Q4 & Q5 & Q6 & _ & Q8 & Q9 & _).
  exists view, stats. repeat split; assumption.
Qed.

(** X14 at concrete inputs. *)
Lemma credit_update_shows_in_reputation_witness :
  exists view,
    query_source_reputation str_of_int
      (fst (update_source_credit_score Examples.three_claims 2 (-30) 9)) "B"
      = Some view /\
    dict_get "credit_score" view = Some (PyInt 0) /\
    dict_get "last_updated" view = Some (PyStr "9").
Proof.
  destruct (credit_update_shows_in_reputation str_of_int
              Examples.three_claims "B" _ (-30) 9
              three_claims_keys_consistent eq_refl)
    as (view & stats & H1 & H2 & H3 & _).
  exists view. split; [exact H1|]. split; [exact H2|exact H3].
Defined.

(** ** The credibility of an event does not depend on row order *)

Lemma filter_permutation {A : Type} (p : A -> bool) (l l' : list A) :
  Permutation l l' -> Permutation (filter p l) (filter p l').
Proof.
  induction 1 as [|x l l' _ IH|x y l|l l' l'' _ IH1 _ IH2]; simpl.
  - constructor.
  - destruct (p x); [now constructor|exact IH].
  - destruct (p x), (p y); try reflexivity. apply perm_swap.
  - now transitivity (filter p l').
Qed.

Lemma fold_right_add_permutation (l l' : list Z) :
  Permutation l l' -> fold_right Z.add 0 l = fold_right Z.add 0 l'.
Proof.
  induction 1 as [|x l l' _ IH|x y l|l l' l'' _ IH1 _ IH2]; simpl; lia.
Qed.

Lemma count_permutation (p : Claim.t -> bool) (l l' : list Claim.t) :
  Permutation l l' -> count p l = count p l'.
Proof.
  intros H. unfold count. f_equal.
  apply Permutation_length. now apply filter_permutation.
Qed.

Lemma outcome_term_permutation (l l' : list Claim.t) :
  Permutation l l' -> outcome_term l = outcome_term l'.
Proof.
  intros H. unfold outcome_term.
  rewrite (count_permutation _ _ _ H), (count_permutation _ _ _ H).
  now rewrite (Permutation_length H).
Qed.

Lemma mean_permutation (l l' : list Z) :
  Permutation l l' -> mean l = mean l'.
Proof.
  intros H. unfold mean.
  now rewrite (fold_right_add_permutation _ _ H), (Permutation_length H).
Qed.

Lemma sources_behind_ext (st1 st2 : Store) (claims : list Claim.t) :
  sources st1 = sources st2 ->
  sources_behind st1 claims = sources_behind st2 claims.
Proof.
  intros E. unfold sources_behind, claim_source, source_by_id.
  now rewrite E.
Qed.

Lemma blended_per_claim_permutation (st1 st2 : Store)
    (l l' : list Claim.t) :
  sources st1 = sources st2 ->
  Permutation l l' ->
  blended_per_claim st1 l = blended_per_claim st2 l'.
Proof.
  intros E H. unfold blended_per_claim.
  rewrite (sources_behind_ext st1 st2 l E).
  assert (P : Permutation (sources_behind st2 l) (sources_behind st2 l')).
  { unfold sources_behind. now apply Permutation_flat_map. }
  rewrite (outcome_term_permutation _ _ H).
  destruct (sources_behind st2 l) as [|s ss] eqn:E1.
  - apply Permutation_nil in P. now rewrite P.
  - destruct (sources_behind st2 l') as [|s' ss'] eqn:E2.
    + apply Permutation_sym, Permutation_nil in P. discriminate.
    + f_equal. f_equal. apply mean_permutation.
      now apply Permutation_map.
Qed.

(** X15.  [calculate_event_credibility] does not depend on the order of the rows
    of [claims]: two stores with the same events and sources and the same
    claims in another order give the same result. *)
Theorem calculate_event_credibility_order_independent :
  forall (st1 st2 : Store) (event_id : string),
    events st1 = events st2 ->
    sources st1 = sources st2 ->
    Permutation (claims st1) (claims st2) ->
    calculate_event_credibility st1 event_id
    = calculate_event_credibility st2 event_id.
Proof.
  intros st1 st2 event_id Ee Es Pc.
  assert (Pe : Permutation (get_claims_by_event st1 event_id)
                           (get_claims_by_event st2 event_id)).
  { unfold get_claims_by_event, claims_by_event.
    now apply filter_permutation. }
  assert (Ge : get_event st1 event_id = get_event st2 event_id).
  { unfold get_event, event_by_id. now rewrite Ee. }
  destruct (get_event st2 event_id) as [e|] eqn:G2.
  - destruct (get_claims_by_event st1 event_id) as [|c cs] eqn:C1.
    + apply Permutation_nil in Pe.
      unfold calculate_event_credibility. now rewrite Ge, G2, C1, Pe.
    + destruct (get_claims_by_event st2 event_id) as [|c' cs'] eqn:C2.
      * apply Permutation_sym, Permutation_nil in Pe. discriminate.
      * rewrite (calculate_event_credibility_unfold st1 event_id e Ge)
          by (rewrite C1; discriminate).
        rewrite (calculate_event_credibility_unfold st2 event_id e G2)
          by (rewrite C2; discriminate).
        rewrite C1, C2. cbv zeta.
        rewrite (blended_per_claim_permutation st1 st2 _ _ Es Pe).
        rewrite (count_permutation _ _ _ Pe), (count_permutation _ _ _ Pe).
        unfold confidence_level.
        now rewrite (Permutation_length Pe).
  - unfold calculate_event_credibility. now rewrite Ge, G2.
Qed.

(** X15 at concrete inputs. *)
Lemma calculate_event_credibility_order_independent_witness :
  calculate_event_credibility Examples.three_claims "E"
  = calculate_event_credibility three_claims_reversed "E".
Proof.
  apply calculate_event_credibility_order_independent.
  - reflexivity.
  - reflexivity.
  - apply Permutation_rev.
Defined.

(** ** generate_event_graph *)

Lemma existsb_app_l {A : Type} (p : A -> bool) (l l' : list A) :
  existsb p l = true -> existsb p (l ++ l') = true.
Proof. intros H. rewrite existsb_app, H. reflexivity. Qed.

Lemma existsb_snoc {A : Type} (p : A -> bool) (l : list A) (a : A) :
  p a = true -> existsb p (l ++ [a]) = true.
Proof.
  intros H. rewrite existsb_app. simpl. rewrite H.
  now rewrite orb_true_r.
Qed.

Lemma edge_closed_app (nodes extra : list Dict) (e : Dict) :
  edge_closed nodes e -> edge_closed (nodes ++ extra) e.
Proof. intros [H1 H2]. split; now apply existsb_app_l. Qed.

Lemma claim_node_has_id (c : Claim.t) :
  node_has_id (claim_node_id c) (claim_node c) = true.
Proof. unfold node_has_id, claim_node. cbn. apply String.eqb_refl. Qed.

Lemma source_node_has_id (s : Source.t) :
  node_has_id (source_node_id s) (source_node s) = true.
Proof. unfold node_has_id, source_node. cbn. apply String.eqb_refl. Qed.

Lemma event_node_has_id (e : Event.t) :
  node_has_id (Event.id e) (event_node e) = true.
Proof. unfold node_has_id, event_node. cbn. apply String.eqb_refl. Qed.

(** The nodes as one turn of the loop leaves them. *)
Lemma graph_step_nodes (st : Store) (event : Event.t)
    (nodes edges : list Dict) (claim : Claim.t) :
  exists extra,
    fst (graph_step st event (nodes, edges) claim) = nodes ++ extra /\
    nodes_of_type "claim" extra = [claim_node claim] /\
    existsb (node_has_id (claim_node_id claim)) (nodes ++ extra) = true /\
    (forall s, claim_source st claim = Some s ->
       existsb (node_has_id (source_node_id s)) (nodes ++ extra) = true) /\
    (nodes_of_type "source" extra = [] \/
     exists s, claim_source st claim = Some s /\
       nodes_of_type "source" extra = [source_node s] /\
       existsb (node_has_id (source_node_id s)) nodes = false).
Proof.
  unfold graph_step.
  destruct (claim_source st claim) as [s|] eqn:Hs.
  - destruct (existsb (node_has_id (source_node_id s))
                (nodes ++ [claim_node claim])) eqn:Hex; cbn [negb fst].
    + exists [claim_node claim]. split; [reflexivity|].
      split; [reflexivity|].
      split; [apply existsb_snoc, claim_node_has_id|].
      split; [|left; reflexivity].
      intros s' E. injection E as <-. exact Hex.
    + exists [claim_node claim; source_node s]. split.
      * now rewrite <- app_assoc.
      * split; [reflexivity|]. split.
        -- change [claim_node claim; source_node s]
             with ([claim_node claim] ++ [source_node s]).
           rewrite app_assoc. apply existsb_app_l, existsb_snoc.
           apply claim_node_has_id.
        -- split.
           ++ intros s' E. injection E as <-.
              change [claim_node claim; source_node s]
                with ([claim_node claim] ++ [source_node s]).
              rewrite app_assoc. apply existsb_snoc, source_node_has_id.
           ++ right. exists s. split; [reflexivity|].
              split; [reflexivity|].
              rewrite existsb_app in Hex. now apply orb_false_elim in Hex.
  - cbn [fst]. exists [claim_node claim]. split; [reflexivity|].
    split; [reflexivity|].
    split; [apply existsb_snoc, claim_node_has_id|].
    split; [intros s E; discriminate|left; reflexivity].
Qed.

(** The edges as one turn of the loop leaves them. *)
Lemma graph_step_edges (st : Store) (event : Event.t)
    (nodes edges : list Dict) (claim : Claim.t) :
  snd (graph_step st event (nodes, edges) claim)
  = edges ++ has_claim_edge event claim
             :: match claim_source st claim with
                | Some s => [made_claim_edge s claim]
                | None => []
                end.
Proof.
  unfold graph_step. destruct (claim_source st claim) as [s|]; cbn [snd].
  - now rewrite <- app_assoc.
  - reflexivity.
Qed.

Lemma str_at_nonempty (k : string) (d : Dict) (s : string) :
  str_at k d = s -> s <> EmptyString -> dict_get k d = Some (PyStr s).
Proof.
  unfold str_at. destruct (dict_get k d) as [[| | | |x| |]|]; intros E N;
    subst; try contradiction; reflexivity.
Qed.

Lemma source_node_id_nonempty (s : Source.t) :
  source_node_id s <> EmptyString.
Proof. unfold source_node_id. discriminate. Qed.

Lemma no_node_no_source_id (nodes : list Dict) (s : Source.t) :
  existsb (node_has_id (source_node_id s)) nodes = false ->
  ~ In (source_node_id s)
       (map (str_at "id") (nodes_of_type "source" nodes)).
Proof.
  intros Hex Hin. apply in_map_iff in Hin. destruct Hin as (n & E & Hn).
  unfold nodes_of_type in Hn. apply filter_In in Hn. destruct Hn as [Hn _].
  pose proof (str_at_nonempty _ _ _ E (source_node_id_nonempty s)) as G.
  assert (T : existsb (node_has_id (source_node_id s)) nodes = true).
  { apply existsb_exists. exists n. split; [exact Hn|].
    unfold node_has_id. rewrite G. apply String.eqb_refl. }
  congruence.
Qed.

Lemma graph_step_inv (st : Store) (event : Event.t)
    (acc : list Dict * list Dict) (claim : Claim.t) :
  graph_inv event acc -> graph_inv event (graph_step st event acc claim).
Proof.
  destruct acc as [nodes edges]. intros [Hh Hc Hs]. cbn [fst snd] in *.
  destruct (graph_step_nodes st event nodes edges claim)
    as (extra & En & _ & Hcl & Hsrc & Hnew).
  pose proof (graph_step_edges st event nodes edges claim) as Ee.
  assert (Hev : existsb (node_has_id (Event.id event)) nodes = true).
  { destruct nodes as [|n nodes]; [discriminate|].
    cbn in Hh. injection Hh as ->. cbn [existsb].
    now rewrite event_node_has_id. }
  constructor.
  - rewrite En. destruct nodes; [discriminate|exact Hh].
  - rewrite En, Ee. apply Forall_app. split.
    + eapply Forall_impl; [|exact Hc]. intros e. apply edge_closed_app.
    + constructor.
      * split; [now apply existsb_app_l|exact Hcl].
      * destruct (claim_source st claim) as [s|]; [|constructor].
        constructor; [|constructor].
        split; [now apply Hsrc|exact Hcl].
  - rewrite En. unfold nodes_of_type in *. rewrite filter_app, map_app.
    destruct Hnew as [-> | (s & _ & -> & Hex)].
    + now rewrite app_nil_r.
    + apply NoDup_snoc; [exact Hs|].
      now apply no_node_no_source_id.
Qed.

Lemma graph_fold (st : Store) (event : Event.t) (claims : list Claim.t) :
  forall acc : list Dict * list Dict,
    graph_inv event acc ->
    let r := fold_left (graph_step st event) claims acc in
    graph_inv event r /\
    List.length (snd r)
      = (List.length (snd acc) + List.length claims
         + List.length (sources_behind st claims))%nat /\
    List.length (nodes_of_type "claim" (fst r))
      = (List.length (nodes_of_type "claim" (fst acc))
         + List.length claims)%nat /\
    (exists extra, fst r = fst acc ++ extra) /\
    (forall c, In c claims ->
       existsb (node_has_id (claim_node_id c)) (fst r) = true) /\
    (forall c s, In c claims -> claim_source st c = Some s ->
       existsb (node_has_id (source_node_id s)) (fst r) = true).
Proof.
  induction claims as [|c claims IH]; intros acc Hinv; cbn [fold_left].
  - cbn zeta. split; [exact Hinv|]. cbn [List.length sources_behind flat_map].
    split; [lia|]. split; [lia|]. split; [exists []; now rewrite app_nil_r|].
    split; intros; contradiction.
  - destruct (IH (graph_step st event acc c) (graph_step_inv st event acc c Hinv))
      as (I & Le & Ln & (extra & Ex) & Hc & Hs).
    destruct acc as [nodes edges].
    destruct (graph_step_nodes st event nodes edges c)
      as (extra0 & En & Ecl & Hcl0 & Hsrc0 & _).
    pose proof (graph_step_edges st event nodes edges c) as Ee.
    cbn zeta. split; [exact I|]. split; [|split; [|split; [|split]]].
    + rewrite Le, Ee, length_app. cbn [snd List.length].
      unfold sources_behind. cbn [flat_map]. rewrite length_app.
      destruct (claim_source st c); cbn [List.length]; lia.
    + rewrite Ln, En. unfold nodes_of_type in *. rewrite filter_app,
        length_app, Ecl. cbn [fst List.length]. lia.
    + exists (extra0 ++ extra). rewrite Ex, En. cbn [fst].
      now rewrite app_assoc.
    + intros c' [<-|Hin]; [|now apply Hc].
      rewrite Ex, En. now apply existsb_app_l.
    + intros c' s [<-|Hin] E; [|now apply (Hs c')].
      rewrite Ex, En. apply existsb_app_l. now apply Hsrc0.
Qed.

Lemma graph_inv_start (event : Event.t) :
  graph_inv event ([event_node event], []).
Proof. constructor; cbn; constructor. Qed.

(** X16.  For an unknown event [generate_event_graph] returns no nodes and no
    edges.  Otherwise the first node is the event's, there is one claim
    node per claim, one edge per claim plus one per claim with a source,
    both ends of every edge are ids of nodes, no two source nodes share an
    id, and every claim and every source behind a claim has a node with
    its id. *)
Theorem generate_event_graph_is_closed :
  forall (st : Store) (event_id : string),
    (get_event st event_id = None ->
     generate_event_graph st event_id
       = [("nodes", PyList []); ("edges", PyList [])]%string) /\
    (forall event, get_event st event_id = Some event ->
     let claims := get_claims_by_event st event_id in
     exists nodes edges,
       generate_event_graph st event_id
         = [ ("nodes", PyList (map PyDict nodes));
             ("edges", PyList (map PyDict edges)) ]%string /\
       hd_error nodes = Some (event_node event) /\
       Forall (edge_closed nodes) edges /\
       List.length edges
         = (List.length claims
            + List.length (sources_behind st claims))%nat /\
       List.length (nodes_of_type "claim" nodes) = List.length claims /\
       NoDup (map (str_at "id") (nodes_of_type "source" nodes)) /\
       (forall c, In c claims ->
          existsb (node_has_id (claim_node_id c)) nodes = true) /\
       (forall c s, In c claims -> claim_source st c = Some s ->
          existsb (node_has_id (source_node_id s)) nodes = true)).
Proof.
  intros st event_id. split.
  - intros H. unfold generate_event_graph. now rewrite H.
  - intros event H claims.
    destruct (graph_fold st event claims _ (graph_inv_start event))
      as ([Hh Hc Hs] & Le & Ln & _ & Hcn & Hsn).
    unfold generate_event_graph. rewrite H. fold claims.
    unfold graph_lists in *.
    destruct (fold_left (graph_step st event) claims ([event_node event], []))
      as [nodes edges].
    cbn [fst snd] in *. exists nodes, edges.
    split; [reflexivity|]. repeat split; assumption.
Qed.

(** X16 at concrete inputs. *)
Lemma generate_event_graph_is_closed_witness :
  generate_event_graph Examples.three_claims "nowhere"
    = [("nodes", PyList []); ("edges", PyList [])]%string /\
  exists nodes edges,
    generate_event_graph Examples.three_claims "E"
      = [ ("nodes", PyList (map PyDict nodes));
          ("edges", PyList (map PyDict edges)) ]%string /\
    Forall (edge_closed nodes) edges /\
    List.length edges = 6%nat.
Proof.
  destruct (generate_event_graph_is_closed Examples.three_claims "nowhere")
    as [Hnone _].
  destruct (generate_event_graph_is_closed Examples.three_claims "E")
    as [_ Hsome].
  split; [apply Hnone; reflexivity|].
  destruct (Hsome _ eq_refl) as (nodes & edges & H1 & _ & H3 & H4 & _).
  exists nodes, edges. split; [exact H1|]. split; [exact H3|exact H4].
Defined.

Lemma to_int_not_nil (n : Z) :
  Z.to_int n <> Decimal.Pos Decimal.Nil /\
  Z.to_int n <> Decimal.Neg Decimal.Nil.
Proof.
  destruct n as [|p|p]; cbn; split; try discriminate.
  - intros E. injection E as E. now apply (DecimalPos.Unsigned.to_uint_nonnil p).
  - intros E. injection E as E. now apply (DecimalPos.Unsigned.to_uint_nonnil p).
Qed.

Lemma str_of_int_inj (n m : Z) : str_of_int n = str_of_int m -> n = m.
Proof.
  unfold str_of_int. intros E.
  destruct (to_int_not_nil n) as [N1 N2].
  destruct (to_int_not_nil m) as [M1 M2].
  apply DecimalZ.to_int_inj.
  pose proof (NilZero.isi _ N1 N2) as A.
  pose proof (NilZero.isi _ M1 M2) as B.
  rewrite E in A. rewrite A in B. now injection B.
Qed.

Lemma claim_source_fixed (st : Store) (c : Claim.t) (s : Source.t) :
  claim_source st c = Some s -> source_by_id st (Source.id s) = Some s.
Proof.
  unfold claim_source. intros H.
  now rewrite (source_by_id_sound _ _ _ H).
Qed.

Lemma graph_step_known (st : Store) (event : Event.t)
    (acc : list Dict * list Dict) (claim : Claim.t) :
  Forall (node_known st event) (fst acc) ->
  Forall (node_known st event) (fst (graph_step st event acc claim)).
Proof.
  destruct acc as [nodes edges]. cbn [fst]. intros H. unfold graph_step.
  assert (Hc : Forall (node_known st event) (nodes ++ [claim_node claim])).
  { apply Forall_app. split; [exact H|]. constructor; [|constructor].
    right. left. now exists claim. }
  destruct (claim_source st claim) as [s|] eqn:Hs; cbn [fst]; [|exact Hc].
  destruct (existsb _ _); cbn [negb]; [exact Hc|].
  apply Forall_app. split; [exact Hc|]. constructor; [|constructor].
  right. right. exists s. split; [reflexivity|].
  now apply (claim_source_fixed st claim).
Qed.

Lemma graph_fold_known (st : Store) (event : Event.t)
    (claims : list Claim.t) :
  forall acc : list Dict * list Dict,
    Forall (node_known st event) (fst acc) ->
    Forall (node_known st event)
           (fst (fold_left (graph_step st event) claims acc)).
Proof.
  induction claims as [|c claims IH]; intros acc H; [exact H|].
  cbn [fold_left]. apply IH. now apply graph_step_known.
Qed.

Lemma known_node_with_source_id (st : Store) (event : Event.t)
    (nodes : list Dict) (s : Source.t) :
  Forall (node_known st event) nodes ->
  source_by_id st (Source.id s) = Some s ->
  Event.id event <> source_node_id s ->
  existsb (node_has_id (source_node_id s)) nodes = true ->
  In (source_node s) nodes.
Proof.
  intros Hk Hs Hev Hex. apply existsb_exists in Hex.
  destruct Hex as (n & Hin & Hid).
  rewrite Forall_forall in Hk.
  destruct (Hk n Hin) as [->|[(c & ->)|(s' & -> & Hs')]].
  - exfalso. unfold node_has_id, event_node in Hid. cbn in Hid.
    apply String.eqb_eq in Hid. contradiction.
  - exfalso. unfold node_has_id, claim_node in Hid. cbn in Hid.
    discriminate Hid.
  - unfold node_has_id, source_node in Hid. cbn in Hid.
    apply String.eqb_eq in Hid. apply str_of_int_inj in Hid.
    rewrite Hid in Hs'. rewrite Hs in Hs'. injection Hs' as <-. exact Hin.
Qed.

Lemma graph_fold_members (st : Store) (event : Event.t)
    (claims : list Claim.t) :
  forall acc : list Dict * list Dict,
    let r := fold_left (graph_step st event) claims acc in
    (forall n, In n (fst acc) -> In n (fst r)) /\
    (forall e, In e (snd acc) -> In e (snd r)) /\
    (forall c, In c claims ->
       In (claim_node c) (fst r) /\
       In (has_claim_edge event c) (snd r) /\
       (forall s, claim_source st c = Some s ->
                  In (made_claim_edge s c) (snd r))).
Proof.
  induction claims as [|c claims IH]; intros acc; cbn [fold_left].
  - cbn zeta. split; [auto|]. split; [auto|]. intros c [].
  - destruct (IH (graph_step st event acc c)) as (Hn & He & Hc).
    destruct acc as [nodes edges].
    destruct (graph_step_nodes st event nodes edges c)
      as (extra & En & Ecl & _).
    pose proof (graph_step_edges st event nodes edges c) as Ee.
    cbn zeta. cbn [fst snd]. split; [|split].
    + intros n Hin. apply Hn. rewrite En. apply in_or_app. now left.
    + intros e Hin. apply He. rewrite Ee. apply in_or_app. now left.
    + intros c' [<-|Hin]; [|now apply Hc].
      split; [|split].
      * apply Hn. rewrite En. apply in_or_app. right.
        assert (I : In (claim_node c) (nodes_of_type "claim" extra))
          by (rewrite Ecl; now left).
        unfold nodes_of_type in I. now apply filter_In in I.
      * apply He. rewrite Ee. apply in_or_app. right. now left.
      * intros s Hs. apply He. rewrite Ee, Hs. apply in_or_app. right.
        right. now left.
Qed.

Lemma graph_fold_event_id_free (st : Store) (event : Event.t)
    (claims : list Claim.t) :
  forall acc : list Dict * list Dict,
    graph_inv event acc ->
    ~ In (Event.id event)
         (map (str_at "id") (nodes_of_type "source" (fst acc))) ->
    ~ In (Event.id event)
         (map (str_at "id")
            (nodes_of_type "source"
               (fst (fold_left (graph_step st event) claims acc)))).
Proof.
  induction claims as [|c claims IH]; intros acc Hinv Hfree; [exact Hfree|].
  cbn [fold_left]. apply IH; [now apply graph_step_inv|].
  destruct acc as [nodes edges]. destruct Hinv as [Hh _ _].
  cbn [fst] in *.
  destruct (graph_step_nodes st event nodes edges c)
    as (extra & En & _ & _ & _ & Hnew).
  rewrite En. unfold nodes_of_type in *. rewrite filter_app, map_app.
  intros Hin. apply in_app_or in Hin. destruct Hin as [Hin|Hin];
    [contradiction|].
  destruct Hnew as [E | (s & _ & E & Hex)]; rewrite E in Hin;
    [contradiction|].
  cbn in Hin. destruct Hin as [Hid|[]].
  assert (Hev : existsb (node_has_id (Event.id event)) nodes = true).
  { destruct nodes as [|n nodes]; [discriminate|].
    cbn in Hh. injection Hh as ->. cbn [existsb].
    now rewrite event_node_has_id. }
  unfold source_node_id in Hex. cbn in Hex. rewrite Hid in Hex. congruence.
Qed.

(** X17.  For a claim of the event that has a source, the graph holds the claim's
    node, its edge from the event and its edge from the source.  The
    source's own node is in the graph unless the event's id equals the
    source node's id; then the check against the nodes already present
    finds the event's node, and no source node of that id is added. *)
Theorem generate_event_graph_source_nodes :
  forall (st : Store) (event_id : string) (event : Event.t)
         (c : Claim.t) (s : Source.t),
    get_event st event_id = Some event ->
    In c (get_claims_by_event st event_id) ->
    claim_source st c = Some s ->
    exists nodes edges,
      generate_event_graph st event_id
        = [ ("nodes", PyList (map PyDict nodes));
            ("edges", PyList (map PyDict edges)) ]%string /\
      In (claim_node c) nodes /\
      In (has_claim_edge event c) edges /\
      In (made_claim_edge s c) edges /\
      (Event.id event <> source_node_id s -> In (source_node s) nodes) /\
      (Event.id event = source_node_id s ->
       ~ In (source_node_id s)
            (map (str_at "id") (nodes_of_type "source" nodes))).
Proof.
  intros st event_id event c s He Hc Hs.
  set (claims := get_claims_by_event st event_id) in *.
  destruct (graph_fold st event claims _ (graph_inv_start event))
    as (_ & _ & _ & _ & _ & Hsn).
  destruct (graph_fold_members st event claims ([event_node event], []))
    as (_ & _ & Hm).
  pose proof (graph_fold_known st event claims ([event_node event], []))
    as Hk.
  pose proof (graph_fold_event_id_free st event claims
                ([event_node event], []) (graph_inv_start event)) as Hf.
  unfold generate_event_graph. rewrite He. fold claims.
  unfold graph_lists.
  destruct (fold_left (graph_step st event) claims ([event_node event], []))
    as [nodes edges].
  cbn [fst snd] in *. exists nodes, edges.
  destruct (Hm c Hc) as (M1 & M2 & M3).
  split; [reflexivity|]. split; [exact M1|]. split; [exact M2|].
  split; [now apply M3|]. split.
  - intros Hne. apply (known_node_with_source_id st event); auto.
    + apply Hk. constructor; [now left|constructor].
    + now apply (claim_source_fixed st c).
    + now apply (Hsn c).
  - intros E. rewrite <- E. apply Hf. cbn. tauto.
Qed.

(** X17 at concrete inputs. *)
Lemma generate_event_graph_source_nodes_witness :
  exists nodes edges,
    generate_event_graph Examples.three_claims "E"
      = [ ("nodes", PyList (map PyDict nodes));
          ("edges", PyList (map PyDict edges)) ]%string /\
    In (source_node (Source.mk 2 "B" SourceType.SOCIAL_MEDIA 20 None None
                       (PyDict []) 1 0 0 0 4)) nodes.
Proof.
  destruct (generate_event_graph_source_nodes Examples.three_claims "E" _
              (Claim.insert_row 3 4 "third" 2 (Some "E"%string)
                 Claim.no_kwargs)
              (Source.mk 2 "B" SourceType.SOCIAL_MEDIA 20 None None
                 (PyDict []) 1 0 0 0 4)
              eq_refl)
    as (nodes & edges & H1 & _ & _ & _ & H5 & _).
  - vm_compute. right. right. left. reflexivity.
  - reflexivity.
  - exists nodes, edges. split; [exact H1|]. apply H5. discriminate.
Defined.

(** ** generate_propagation_timeline *)

Lemma leb_iff (a b : string) :
  String.leb a b = true <-> a = b \/ String_as_OT.lt a b.
Proof.
  unfold String.leb. destruct (String.compare a b) eqn:C.
  - apply String_as_OT.cmp_eq in C. tauto.
  - apply String_as_OT.cmp_lt in C. tauto.
  - split; [discriminate|]. intros [E|L].
    + apply String_as_OT.cmp_eq in E. unfold String_as_OT.cmp in E.
      congruence.
    + apply String_as_OT.cmp_lt in L. unfold String_as_OT.cmp in L.
      congruence.
Qed.

Lemma leb_trans (a b c : string) :
  String.leb a b = true -> String.leb b c = true -> String.leb a c = true.
Proof.
  rewrite !leb_iff. intros [->|L1] [->|L2]; auto.
  right. now apply (String_as_OT.lt_trans a b c).
Qed.

Section SortedBy.
Context {A : Type}.
Variable key : A -> string.

Local Abbreviation asc := (fun a b : A => String.leb (key a) (key b) = true).

Lemma insert_by_perm (x : A) (l : list A) :
  Permutation (x :: l) (insert_by key x l).
Proof.
  induction l as [|y l IH]; simpl; [reflexivity|].
  destruct (String.leb (key y) (key x)); [|reflexivity].
  rewrite perm_swap. now constructor.
Qed.

Lemma insert_by_sorted (x : A) (l : list A) :
  StronglySorted asc l -> StronglySorted asc (insert_by key x l).
Proof.
  induction l as [|y l IH]; intros Hs; simpl.
  - constructor; constructor.
  - inversion_clear Hs as [|? ? Hl Hy].
    destruct (String.leb (key y) (key x)) eqn:L.
    + constructor; [now apply IH|].
      eapply Permutation_Forall; [apply insert_by_perm|].
      constructor; [exact L|exact Hy].
    + assert (L' : String.leb (key x) (key y) = true).
      { destruct (String.leb_total (key x) (key y)); congruence. }
      constructor; [now constructor|].
      constructor; [exact L'|].
      eapply Forall_impl; [|exact Hy]. cbn. intros z Hz.
      now apply (leb_trans _ (key y)).
Qed.

Lemma insert_by_filter (k : string) (x : A) (l : list A) :
  StronglySorted asc l ->
  filter (fun a => String.eqb (key a) k) (insert_by key x l)
  = filter (fun a => String.eqb (key a) k) l
    ++ (if String.eqb (key x) k then [x] else []).
Proof.
  induction l as [|y l IH]; intros Hs; simpl.
  - now destruct (String.eqb (key x) k).
  - inversion_clear Hs as [|? ? Hl Hy].
    destruct (String.leb (key y) (key x)) eqn:L; simpl.
    + rewrite (IH Hl). now destruct (String.eqb (key y) k).
    + destruct (String.eqb_spec (key x) k) as [Hk|Hk];
        [|now rewrite app_nil_r].
      assert (N : forall z, In z (y :: l) ->
                            String.eqb (key z) k = false).
      { intros z Hz. destruct (String.eqb_spec (key z) k) as [E|];
          [|reflexivity].
        exfalso.
        assert (Lz : String.leb (key y) (key z) = true).
        { destruct Hz as [->|Hz].
          - apply leb_iff. now left.
          - rewrite Forall_forall in Hy. now apply Hy. }
        rewrite E, <- Hk in Lz. congruence. }
      rewrite (N y (or_introl eq_refl)).
      assert (E : filter (fun a => String.eqb (key a) k) l = []).
      { apply find_none_filter_nil.
        destruct (find (fun a => String.eqb (key a) k) l) as [z|] eqn:F;
          [|reflexivity].
        apply find_some in F. destruct F as [Hin Hz].
        rewrite (N z (or_intror Hin)) in Hz. discriminate. }
      now rewrite E.
Qed.

Lemma sorted_by_acc (l acc : list A) :
  StronglySorted asc acc ->
  let r := fold_left (fun a x => insert_by key x a) l acc in
  Permutation (l ++ acc) r /\
  StronglySorted asc r /\
  (forall k,
     filter (fun a => String.eqb (key a) k) r
     = filter (fun a => String.eqb (key a) k) acc
       ++ filter (fun a => String.eqb (key a) k) l).
Proof.
  revert acc. induction l as [|x l IH]; intros acc Hs; cbn [fold_left].
  - cbn zeta. split; [reflexivity|]. split; [exact Hs|].
    intros k. now rewrite app_nil_r.
  - destruct (IH (insert_by key x acc) (insert_by_sorted x acc Hs))
      as (P & S & F).
    cbn zeta. split; [|split; [exact S|]].
    + rewrite <- P. rewrite <- insert_by_perm.
      cbn. now rewrite Permutation_middle.
    + intros k. rewrite F, (insert_by_filter k x acc Hs), <- app_assoc.
      cbn [filter]. now destruct (String.eqb (key x) k).
Qed.

Lemma sorted_by_spec (l : list A) :
  Permutation l (sorted_by key l) /\
  StronglySorted asc (sorted_by key l) /\
  (forall k,
     filter (fun a => String.eqb (key a) k) (sorted_by key l)
     = filter (fun a => String.eqb (key a) k) l).
Proof.
  destruct (sorted_by_acc l [] (SSorted_nil _)) as (P & S & F).
  unfold sorted_by. split; [now rewrite app_nil_r in P|].
  split; [exact S|]. intros k. now rewrite F.
Qed.
End SortedBy.

(** X18.  [generate_propagation_timeline] returns one entry per claim of the
    event, a rearrangement of the entries in claim order that is sorted by
    the timestamp string and keeps entries of equal timestamp in claim
    order. *)
Theorem generate_propagation_timeline_sorted :
  forall (isoformat : datetime -> string) (st : Store) (event_id : string),
    let entries :=
      map (timeline_entry isoformat st) (get_claims_by_event st event_id) in
    let timeline := generate_propagation_timeline isoformat st event_id in
    Permutation entries timeline /\
    List.length timeline = List.length (get_claims_by_event st event_id) /\
    StronglySorted
      (fun a b =>
         String.leb (str_at "timestamp" a) (str_at "timestamp" b) = true)
      timeline /\
    (forall t,
       filter (fun e => String.eqb (str_at "timestamp" e) t) timeline
       = filter (fun e => String.eqb (str_at "timestamp" e) t) entries).
Proof.
  intros isoformat st event_id entries timeline.
  destruct (sorted_by_spec (str_at "timestamp") entries) as (P & S & F).
  subst timeline. unfold generate_propagation_timeline. fold entries.
  split; [exact P|]. split; [|split; [exact S|exact F]].
  rewrite <- (Permutation_length P). subst entries. apply length_map.
Qed.

(** ** Credit scores over any sequence of calls *)

Lemma credits_within_range_replace (st : Store) (s' : Source.t) :
  credits_within_range st ->
  0 <= Source.credit_score s' <= 100 ->
  credits_within_range (update_source st s').
Proof.
  unfold credits_within_range, update_source, replace_source; cbn.
  intros H Hs'. apply Forall_map. eapply Forall_impl; [|exact H].
  cbn. intros r Hr. now destruct (Source.id r =? Source.id s').
Qed.

Lemma credits_within_range_found (st : Store) (sid : Z) (s : Source.t) :
  credits_within_range st -> source_by_id st sid = Some s ->
  0 <= Source.credit_score s <= 100.
Proof.
  unfold credits_within_range. rewrite Forall_forall. intros H F.
  apply H. now apply (source_by_id_in st sid).
Qed.

Lemma credits_within_range_step (eng : Engine) (st : Store)
    (c : repo_call) (now : datetime) :
  creates_within_range c ->
  credits_within_range st ->
  credits_within_range (apply_call eng st c now).
Proof.
  intros Hc H.
  destruct c as [name ty kw | sid change | eid kw | eid status score
                | text sid eid kw | cid status vr | a b conf ev];
    cbn [apply_call].
  - unfold find_or_create_source.
    destruct (source_by_name st name); cbn [fst]; [exact H|].
    unfold credits_within_range, add_source; cbn.
    apply Forall_app. split; [exact H|]. constructor; [|constructor].
    cbn in *. destruct (Source.kw_credit_score kw); cbn; lia.
  - unfold update_source_credit_score.
    destruct (source_by_id st sid) as [s|]; cbn [fst]; [|exact H].
    apply credits_within_range_replace; [exact H|]. cbn. lia.
  - unfold create_event. now destruct (event_by_id st eid).
  - unfold update_event_status, get_event.
    now destruct (event_by_id st eid).
  - unfold create_claim.
    destruct (enforce_foreign_keys eng && _); cbn [fst]; [exact H|].
    change (source_by_id (add_claim st ?x) sid) with (source_by_id st sid).
    destruct (source_by_id st sid) as [s|] eqn:F; [|exact H].
    apply (credits_within_range_replace (add_claim st _)); [exact H|].
    cbn. now apply (credits_within_range_found st sid).
  - destruct (claim_by_id st cid) as [cl|] eqn:F.
    + rewrite (update_claim_status_found _ _ _ _ _ _ F). cbn [fst].
      destruct (source_by_id st (Claim.source_id cl)) as [s|] eqn:G;
        [|exact H].
      destruct (_ || _); [exact H|].
      apply (credits_within_range_replace (update_claim st _)); [exact H|].
      destruct (owner_after_frame now (Claim.status cl) status s)
        as (_ & -> & _).
      now apply (credits_within_range_found st (Claim.source_id cl)).
    + unfold update_claim_status. now rewrite F.
  - unfold create_claim_refutation.
    now destruct (enforce_foreign_keys eng && _).
Qed.

(** X19.  Over any sequence of calls of the writing methods, credit scores within
    0..100 stay within 0..100, provided no source is created with a credit
    score outside that range among its keyword arguments. *)
Theorem credit_scores_stay_within_range :
  forall (eng : Engine) (calls : list (repo_call * datetime)) (st : Store),
    Forall (fun cn => creates_within_range (fst cn)) calls ->
    credits_within_range st ->
    credits_within_range (run_calls eng st calls).
Proof.
  intros eng calls. induction calls as [|[c now] calls IH]; intros st Hc H;
    [exact H|].
  inversion_clear Hc as [|? ? Hc1 Hc2]. cbn [run_calls fold_left fst snd].
  apply IH; [exact Hc2|]. now apply credits_within_range_step.
Qed.

(** X19 at concrete inputs. *)
Lemma credit_scores_stay_within_range_witness :
  credits_within_range
    (run_calls lenient_engine empty_store
       (three_claims_calls ++ [(Update_source_credit_score 1 500, 9)])).
Proof.
  apply credit_scores_stay_within_range.
  - repeat constructor; simpl; lia.
  - constructor.
Defined.

(** ** total_claims against the claims table *)

Lemma replace_source_forall (P : Source.t -> Prop) (rows : list Source.t)
    (s s' : Source.t) :
  NoDup (map Source.id rows) ->
  In s rows ->
  Source.id s' = Source.id s ->
  (forall r, In r rows -> Source.id r <> Source.id s -> P r) ->
  P s' ->
  forall x, In x (replace_source s' rows) -> P x.
Proof.
  intros Hnd Hin Hid Hothers Hs' x Hx. unfold replace_source in Hx.
  apply in_map_iff in Hx. destruct Hx as (r & E & Hr).
  destruct (Z.eqb_spec (Source.id r) (Source.id s')) as [Eid|Nid].
  - now subst x.
  - subst x. apply Hothers; [exact Hr|congruence].
Qed.

Lemma unique_claim_by_id (rows : list Claim.t) (r c : Claim.t) :
  NoDup (map Claim.id rows) ->
  In r rows -> In c rows -> Claim.id r = Claim.id c -> r = c.
Proof.
  induction rows as [|x rows IH]; intros Hnd Hr Hc E; [contradiction|].
  simpl in Hnd. inversion_clear Hnd as [|? ? Hx Hrest].
  destruct Hr as [->|Hr], Hc as [->|Hc]; [reflexivity| | |now apply IH].
  - exfalso. apply Hx. rewrite E. now apply in_map.
  - exfalso. apply Hx. rewrite <- E. now apply in_map.
Qed.

Lemma map_source_id_replace_claim (rows : list Claim.t) (c c' : Claim.t) :
  NoDup (map Claim.id rows) ->
  In c rows ->
  Claim.id c' = Claim.id c ->
  Claim.source_id c' = Claim.source_id c ->
  map Claim.source_id (replace_claim c' rows) = map Claim.source_id rows.
Proof.
  intros Hnd Hin Hid Hsrc. unfold replace_claim. rewrite map_map.
  apply map_ext_in. intros r Hr.
  destruct (Z.eqb_spec (Claim.id r) (Claim.id c')) as [E|]; [|reflexivity].
  rewrite Hsrc. f_equal. symmetry.
  apply (unique_claim_by_id rows); congruence.
Qed.

Lemma claims_referencing_by_column (st : Store) (sid : Z) :
  claims_referencing st sid
  = Z.of_nat (List.length
                (filter (fun i => i =? sid)
                        (map Claim.source_id (claims st)))).
Proof.
  unfold claims_referencing. do 2 f_equal.
  induction (claims st) as [|c l IH]; cbn; [reflexivity|].
  destruct (Claim.source_id c =? sid); cbn; now rewrite IH.
Qed.

Lemma claim_by_id_in (st : Store) (cid : Z) (c : Claim.t) :
  claim_by_id st cid = Some c -> In c (claims st).
Proof. unfold claim_by_id. intros H. now apply find_some in H. Qed.

Lemma claims_referencing_update_claim (st : Store) (c c' : Claim.t)
    (sid : Z) :
  NoDup (map Claim.id (claims st)) ->
  In c (claims st) ->
  Claim.id c' = Claim.id c ->
  Claim.source_id c' = Claim.source_id c ->
  claims_referencing (update_claim st c') sid = claims_referencing st sid.
Proof.
  intros Hnd Hin Hid Hsrc. rewrite !claims_referencing_by_column.
  unfold update_claim; cbn.
  now rewrite (map_source_id_replace_claim _ c c' Hnd Hin Hid Hsrc).
Qed.

Lemma source_exists_update_source (st : Store) (s' : Source.t) (sid : Z) :
  source_by_id st sid <> None ->
  source_by_id (update_source st s') sid <> None.
Proof.
  rewrite source_by_id_update_source.
  destruct (source_by_id st sid); [discriminate|congruence].
Qed.

Lemma claims_have_sources_update_source (st : Store) (s' : Source.t) :
  claims_have_sources st -> claims_have_sources (update_source st s').
Proof.
  unfold claims_have_sources. intros H.
  change (claims (update_source st s')) with (claims st).
  eapply Forall_impl; [|exact H]. cbn. intros c.
  apply source_exists_update_source.
Qed.

Lemma no_claims_for_next_source (st : Store) :
  keys_consistent st -> claims_have_sources st ->
  claims_referencing st (next_source_id st) = 0.
Proof.
  intros K H. unfold claims_referencing.
  assert (E : filter (fun c => Claim.source_id c =? next_source_id st)
                (claims st) = []).
  { apply find_none_filter_nil.
    destruct (find _ (claims st)) as [c|] eqn:F; [|reflexivity].
    exfalso. apply find_some in F. destruct F as [Hin E].
    apply Z.eqb_eq in E. unfold claims_have_sources in H.
    rewrite Forall_forall in H. specialize (H c Hin).
    destruct (source_by_id st (Claim.source_id c)) as [s|] eqn:G;
      [|congruence].
    pose proof (source_by_id_sound _ _ _ G) as Hid.
    pose proof (source_by_id_in _ _ _ G) as Hs.
    destruct K as (_ & _ & _ & _ & _ & K6 & _).
    rewrite Forall_forall in K6. specialize (K6 s Hs). lia. }
  now rewrite E.
Qed.

Lemma totals_step (eng : Engine) (st : Store) (c : repo_call)
    (now : datetime) :
  enforce_foreign_keys eng = true ->
  counts_from_zero c ->
  keys_consistent st -> totals_match st -> claims_have_sources st ->
  totals_match (apply_call eng st c now) /\
  claims_have_sources (apply_call eng st c now).
Proof.
  intros Hfk Hc K T H. pose proof K as (K1 & _ & _ & K4 & _).
  destruct c as [name ty kw | sid change | eid kw | eid status score
                | text sid eid kw | cid status vr | a b conf ev];
    cbn [apply_call].
  - (* find_or_create_source *)
    unfold find_or_create_source.
    destruct (source_by_name st name); cbn [fst]; [now split|].
    split.
    + intros s Hs. unfold add_source in Hs; cbn in Hs.
      change (claims_referencing (add_source st ?r) ?i)
        with (claims_referencing st i).
      apply in_app_or in Hs. destruct Hs as [Hs|[<-|[]]]; [now apply T|].
      cbn in Hc. cbn. rewrite Hc. cbn.
      symmetry. now apply no_claims_for_next_source.
    + unfold claims_have_sources in *.
      change (claims (add_source st ?r)) with (claims st).
      eapply Forall_impl; [|exact H]. cbn. intros c Hc'.
      unfold source_by_id, add_source in *; cbn.
      destruct (find _ (sources st)) as [x|] eqn:F; [|congruence].
      now rewrite (find_app_some _ _ _ _ F).
  - (* update_source_credit_score *)
    unfold update_source_credit_score.
    destruct (source_by_id st sid) as [s|] eqn:F; cbn [fst]; [|now split].
    split; [|now apply claims_have_sources_update_source].
    intros x Hx. revert x Hx.
    apply (replace_source_forall _ (sources st) s);
      [exact K1|now apply (source_by_id_in st sid)|reflexivity| |].
    + intros r Hr _. now apply T.
    + cbn. apply (T s). now apply (source_by_id_in st sid).
  - unfold create_event. destruct (event_by_id st eid); now split.
  - unfold update_event_status, get_event.
    destruct (event_by_id st eid); now split.
  - (* create_claim *)
    unfold create_claim. rewrite Hfk. cbn [andb].
    unfold claim_foreign_keys_ok. cbn [Claim.source_id Claim.insert_row].
    change (source_by_id (add_claim st ?x) sid) with (source_by_id st sid).
    destruct (source_by_id st sid) as [s|] eqn:F; [|now split].
    set (claim := Claim.insert_row (next_claim_id st) now text sid eid kw).
    destruct (negb _); cbn [fst]; [now split|].
    pose proof (source_by_id_sound _ _ _ F) as Hid.
    pose proof (source_by_id_in _ _ _ F) as Hin.
    split.
    + intros x Hx. revert x Hx.
      apply (replace_source_forall _ (sources st) s);
        [exact K1|exact Hin|reflexivity| |].
      * intros r Hr Hne.
        change (claims_referencing (update_source ?a ?b) ?i)
          with (claims_referencing a i).
        rewrite claims_referencing_add_claim.
        subst claim. cbn [Claim.source_id Claim.insert_row].
        destruct (Z.eqb_spec sid (Source.id r)); [congruence|].
        rewrite (T r Hr). lia.
      * change (claims_referencing (update_source ?a ?b) ?i)
          with (claims_referencing a i).
        rewrite claims_referencing_add_claim.
        subst claim. cbn. rewrite Hid, Z.eqb_refl, (T s Hin), Hid.
        reflexivity.
    + apply claims_have_sources_update_source.
      unfold claims_have_sources, add_claim; cbn.
      apply Forall_app. split; [exact H|].
      constructor; [|constructor].
      change (source_by_id st sid <> None). rewrite F. discriminate.
  - (* update_claim_status *)
    destruct (claim_by_id st cid) as [cl|] eqn:F.
    + rewrite (update_claim_status_found _ _ _ _ _ _ F). cbn [fst].
      pose proof (claim_by_id_in _ _ _ F) as Hcl.
      assert (R : forall i,
                 claims_referencing
                   (update_claim st (claim_after cl status vr)) i
                 = claims_referencing st i).
      { intros i. apply (claims_referencing_update_claim st cl);
          [exact K4|exact Hcl|apply claim_after_id
          |apply claim_after_source_id]. }
      assert (T1 : totals_match (update_claim st (claim_after cl status vr))).
      { intros s Hs. rewrite R. now apply T. }
      assert (H1 : claims_have_sources
                     (update_claim st (claim_after cl status vr))).
      { unfold claims_have_sources, update_claim, replace_claim; cbn.
        apply Forall_map. unfold claims_have_sources in H.
        rewrite Forall_forall in H. apply Forall_forall. intros r Hr.
        change (source_by_id (mkStore (sources st) ?e ?c ?x ?a ?b ?d) ?i)
          with (source_by_id st i).
        destruct (Claim.id r =? Claim.id (claim_after cl status vr));
          [|now apply H].
        rewrite claim_after_source_id. now apply H. }
      destruct (source_by_id st (Claim.source_id cl)) as [s|] eqn:G;
        [|now split].
      destruct (_ || _); [now split|].
      split; [|now apply claims_have_sources_update_source].
      intros x Hx. revert x Hx.
      apply (replace_source_forall _ (sources st) s);
        [exact K1|now apply (source_by_id_in st (Claim.source_id cl))
        |apply owner_after_id| |].
      * intros r Hr _.
        change (claims_referencing (update_source ?a ?b) ?i)
          with (claims_referencing a i).
        rewrite R. now apply T.
      * change (claims_referencing (update_source ?a ?b) ?i)
          with (claims_referencing a i).
        rewrite R, owner_after_id.
        destruct (owner_after_frame now (Claim.status cl) status s)
          as (-> & _).
        apply T. now apply (source_by_id_in st (Claim.source_id cl)).
    + unfold update_claim_status. rewrite F. now split.
  - unfold create_claim_refutation.
    destruct (enforce_foreign_keys eng && _); now split.
Qed.

Lemma totals_run (eng : Engine) (calls : list (repo_call * datetime)) :
  enforce_foreign_keys eng = true ->
  Forall (fun cn => counts_from_zero (fst cn)) calls ->
  forall st,
    keys_consistent st -> totals_match st -> claims_have_sources st ->
    totals_match (run_calls eng st calls) /\
    claims_have_sources (run_calls eng st calls).
Proof.
  intros Hfk. induction calls as [|[c now] calls IH]; intros Hc st K T H;
    [now split|].
  inversion_clear Hc as [|? ? Hc1 Hc2]. cbn [run_calls fold_left fst snd].
  destruct (totals_step eng st c now Hfk Hc1 K T H) as [T' H'].
  apply IH; auto. now apply keys_consistent_step.
Qed.

(** X20.  On an engine that checks foreign keys, in every store reached from the
    empty store by calls that create no source with a [total_claims] of
    their own, [total_claims] of each source is the number of claims that
    reference it, and every claim references a source of the store. *)
Theorem total_claims_counts_the_claims :
  forall (eng : Engine) (calls : list (repo_call * datetime)),
    enforce_foreign_keys eng = true ->
    Forall (fun cn => counts_from_zero (fst cn)) calls ->
    let st := run_calls eng empty_store calls in
    (forall s, In s (sources st) ->
       Source.total_claims s = claims_referencing st (Source.id s)) /\
    (forall c, In c (claims st) ->
       source_by_id st (Claim.source_id c) <> None).
Proof.
  intros eng calls Hfk Hc st.
  destruct (totals_run eng calls Hfk Hc empty_store keys_consistent_empty)
    as [T H].
  - intros s [].
  - constructor.
  - split; [exact T|]. intros c Hin. unfold claims_have_sources in H.
    rewrite Forall_forall in H. now apply H.
Qed.

(** X20 at concrete inputs. *)
Lemma total_claims_counts_the_claims_witness :
  Forall
    (fun s =>
       Source.total_claims s
       = claims_referencing
           (run_calls strict_engine empty_store
              (Samples.three_claims_calls
               ++ [(Create_claim "orphan" 99 None Claim.no_kwargs, 9)]))
           (Source.id s))
    (sources (run_calls strict_engine empty_store
                (Samples.three_claims_calls
                 ++ [(Create_claim "orphan" 99 None Claim.no_kwargs, 9)]))).
Proof.
  apply Forall_forall.
  apply (total_claims_counts_the_claims strict_engine
           (Samples.three_claims_calls
            ++ [(Create_claim "orphan" 99 None Claim.no_kwargs, 9)])).
  - reflexivity.
  - repeat constructor.
Defined.

(** ** The flywheel scenario *)

Lemma flywheel_turn_lookup (eng : Engine) (sid : Z) (st : Store) (i : nat)
    (now1 now2 : datetime) (s : Source.t) :
  source_by_id st sid = Some s ->
  exists s',
    source_by_id (flywheel_turn eng sid st i now1 now2) sid = Some s' /\
    Source.total_claims s' = Source.total_claims s + 1 /\
    Source.verified_claims s' = Source.verified_claims s /\
    Source.refuted_claims s' = Source.refuted_claims s /\
    Source.credit_score s' = clamp 0 100 (Source.credit_score s - 5) /\
    claims_referencing (flywheel_turn eng sid st i now1 now2) sid
      = claims_referencing st sid + 1.
Proof.
  intros Hs. unfold flywheel_turn.
  set (text := ("虚假消息 " ++ str_of_int (Z.of_nat i + 1))%string).
  set (kw := Claim.mk_kwargs (Some ClaimStatus.REFUTED) None None None None
               None).
  assert (Hfk : enforce_foreign_keys eng = false \/
                claim_foreign_keys_ok st
                  (Claim.insert_row (next_claim_id st) now1 text sid None kw)
                = true).
  { right. unfold claim_foreign_keys_ok. cbn [Claim.source_id
      Claim.insert_row Claim.event_id]. now rewrite Hs. }
  rewrite (create_claim_with_source eng st text sid None kw now1 s Hs Hfk).
  cbn [fst].
  set (claim := Claim.insert_row (next_claim_id st) now1 text sid None kw).
  set (s1 := onupdate now1
               (Source.set_total_claims (Source.total_claims s + 1) s)).
  assert (L1 : source_by_id (update_source (add_claim st claim) s1) sid
               = Some s1).
  { rewrite source_by_id_update_source.
    change (source_by_id (add_claim st claim) sid)
      with (source_by_id st sid).
    rewrite Hs. cbn [option_map]. subst s1. cbn [Source.id onupdate
      Source.set_updated_at Source.set_total_claims].
    now rewrite Z.eqb_refl. }
  pose proof (update_source_credit_score_lookup _ sid (-5) now2 s1 sid L1)
    as L2.
  rewrite Z.eqb_refl in L2.
  eexists. split; [exact L2|]. cbn. repeat split.
  rewrite (update_source_credit_score_found _ _ _ _ _ L1). cbn [fst].
  change (claims_referencing (update_source ?a ?b) sid)
    with (claims_referencing a sid).
  change (claims_referencing (update_source ?a ?b) sid)
    with (claims_referencing a sid).
  rewrite claims_referencing_add_claim. subst claim. cbn.
  now rewrite Z.eqb_refl.
Qed.

(** The score after [n] turns, each taking five points and clamping. *)
Lemma five_off_n_times (n : nat) (x : Z) :
  0 <= x <= 100 ->
  Nat.iter n (fun y => clamp 0 100 (y - 5)) x
  = Z.max 0 (x - 5 * Z.of_nat n).
Proof.
  revert x. induction n as [|n IH]; intros x Hx.
  - cbn. lia.
  - rewrite Nat.iter_succ_r, IH; unfold clamp; lia.
Qed.

Lemma flywheel_loop_lookup (eng : Engine) (sid : Z)
    (clock : nat -> datetime) (n : nat) :
  forall (st : Store) (i : nat) (s : Source.t),
    source_by_id st sid = Some s ->
    exists s',
      source_by_id (flywheel_loop eng sid st clock i n) sid = Some s' /\
      Source.total_claims s' = Source.total_claims s + Z.of_nat n /\
      Source.verified_claims s' = Source.verified_claims s /\
      Source.refuted_claims s' = Source.refuted_claims s /\
      Source.credit_score s'
        = Nat.iter n (fun y => clamp 0 100 (y - 5)) (Source.credit_score s) /\
      claims_referencing (flywheel_loop eng sid st clock i n) sid
        = claims_referencing st sid + Z.of_nat n.
Proof.
  induction n as [|n IH]; intros st i s Hs.
  - exists s. cbn. repeat split; try assumption; lia.
  - cbn [flywheel_loop].
    destruct (flywheel_turn_lookup eng sid st i (clock (2 * i)%nat)
                (clock (2 * i + 1)%nat) s Hs)
      as (s1 & L1 & T1 & V1 & R1 & C1 & N1).
    destruct (IH _ (S i) s1 L1) as (s' & L & T & V & R & C & N).
    exists s'. split; [exact L|].
    rewrite Nat.iter_succ_r, <- C1.
    repeat split; try congruence; lia.
Qed.

(** X21.  The flywheel scenario of the demo, run on a source of the store with a
    credit score within 0..100, ends with the score lowered by 15 (not
    below 0) and three more claims, all referencing the source, while
    [refuted_claims] and [verified_claims] are as before: the claims are
    created as REFUTED, not moved there by [update_claim_status]. *)
Theorem flywheel_scenario_leaves_refuted_count :
  forall (eng : Engine) (st : Store) (sid : Z) (clock : nat -> datetime)
         (s : Source.t),
    source_by_id st sid = Some s ->
    0 <= Source.credit_score s <= 100 ->
    let st' := fst (scenario_2_flywheel_mechanism eng st sid clock) in
    let stats := snd (scenario_2_flywheel_mechanism eng st sid clock) in
    dict_get "credit_score" stats
      = Some (PyInt (Z.max 0 (Source.credit_score s - 15))) /\
    dict_get "total_claims" stats
      = Some (PyInt (Source.total_claims s + 3)) /\
    dict_get "refuted_claims" stats
      = Some (PyInt (Source.refuted_claims s)) /\
    dict_get "verified_claims" stats
      = Some (PyInt (Source.verified_claims s)) /\
    claims_referencing st' sid = claims_referencing st sid + 3.
Proof.
  intros eng st sid clock s Hs Hr st' stats. subst st' stats.
  unfold scenario_2_flywheel_mechanism. cbn [fst snd].
  destruct (flywheel_loop_lookup eng sid clock 3 st 0%nat s Hs)
    as (s' & L & T & V & R & C & N).
  rewrite (five_off_n_times 3 _ Hr) in C.
  unfold get_source_statistics. rewrite L. cbn [dict_get String.eqb].
  cbn. rewrite T, V, R, C. repeat split. exact N.
Qed.

(** X21 at concrete inputs. *)
Lemma flywheel_scenario_leaves_refuted_count_witness :
  dict_get "credit_score"
    (snd (scenario_2_flywheel_mechanism lenient_engine Examples.one_source 1
            ticking)) = Some (PyInt 35) /\
  dict_get "refuted_claims"
    (snd (scenario_2_flywheel_mechanism lenient_engine Examples.one_source 1
            ticking)) = Some (PyInt 0).
Proof.
  destruct (flywheel_scenario_leaves_refuted_count lenient_engine
              Examples.one_source 1 ticking _ eq_refl)
    as (H1 & _ & H3 & _).
  - simpl. lia.
  - split; [exact H1|exact H3].
Defined.

(** ** Entities and investigation history *)

(** X22.  [find_or_create_entity] returns the entity already carrying the name
    with the archive untouched, and otherwise appends one entity with the
    given name, type and keyword arguments; either way the name then
    designates the returned entity, a second call returns it unchanged,
    and other names, the store and the investigation history are as
    before. *)
Theorem find_or_create_entity_first_write_wins :
  forall (a : Archive.t) (name : string) (ty : string)
         (kw : Entity.kwargs) (now : datetime),
    let a' := fst (find_or_create_entity a name ty kw now) in
    let entity := snd (find_or_create_entity a name ty kw now) in
    (forall e, entity_by_name a name = Some e -> a' = a /\ entity = e) /\
    (entity_by_name a name = None ->
       entity = Entity.insert_row (next_entity_id a) now name ty kw /\
       entities a' = entities a ++ [entity]) /\
    entity_by_name a' name = Some entity /\
    (forall ty2 kw2 now2,
       find_or_create_entity a' name ty2 kw2 now2 = (a', entity)) /\
    (forall other, other <> name ->
       entity_by_name a' other = entity_by_name a other) /\
    Archive.store a' = Archive.store a /\
    investigation_history a' = investigation_history a.
Proof.
  intros a name ty kw now a' entity. subst a' entity.
  unfold find_or_create_entity.
  destruct (entity_by_name a name) as [e|] eqn:H; cbn [fst snd].
  - split; [intros e' E; injection E as <-; now split|].
    split; [discriminate|]. split; [exact H|].
    split; [intros; now rewrite H|]. repeat split.
  - set (row := Entity.insert_row (next_entity_id a) now name ty kw).
    assert (L : entity_by_name
                  (Archive.mk (Archive.store a) (entities a ++ [row])
                     (investigation_history a) (next_entity_id a + 1)
                     (next_history_id a)) name = Some row).
    { unfold entity_by_name in *; cbn [entities].
      rewrite (find_app_none _ _ _ H). cbn.
      now rewrite String.eqb_refl. }
    split; [discriminate|]. split; [intros _; now split|].
    split; [exact L|]. split; [intros; now rewrite L|].
    split; [|split; reflexivity].
    intros other Hne. unfold entity_by_name; cbn [entities].
    destruct (find (fun e => String.eqb (Entity.name e) other) (entities a))
      as [x|] eqn:F.
    + now apply find_app_some.
    + rewrite (find_app_none _ _ _ F). cbn.
      destruct (String.eqb_spec name other); [congruence|reflexivity].
Qed.

(** X22 at concrete inputs. *)
Lemma find_or_create_entity_first_write_wins_witness :
  entities
    (fst (find_or_create_entity Samples.archive "OpenAI" "organization"
            Entity.no_kwargs 5))
  = [Entity.insert_row 1 5 "OpenAI" "organization" Entity.no_kwargs] /\
  entity_by_name
    (fst (find_or_create_entity Samples.archive "OpenAI" "organization"
            Entity.no_kwargs 5)) "AMD" = None.
Proof.
  destruct (find_or_create_entity_first_write_wins Samples.archive "OpenAI"
              "organization" Entity.no_kwargs 5)
    as (_ & Hnew & _ & _ & Hother & _).
  split.
  - destruct (Hnew eq_refl) as [_ E]. exact E.
  - rewrite (Hother "AMD"%string); [reflexivity|discriminate].
Defined.

(** X23.  [save_investigation_result] refuses an investigation id that is already
    recorded and leaves the archive as it is.  A record it returns is what
    [get_investigation_history] then finds under its id, with the given
    report, score and start and the time of the call as [completed_at];
    every record found before is found unchanged after. *)
Theorem investigation_history_is_write_once :
  forall (eng : Engine) (a : Archive.t) (investigation_id event_id : string)
         (report : PyValue) (score : Q) (started_at now : datetime),
    let r :=
      save_investigation_result eng a investigation_id event_id report
        score started_at now in
    (forall h, get_investigation_history a investigation_id = Some h ->
       r = (a, Raised IntegrityError)) /\
    (forall h, snd r = Returned h ->
       get_investigation_history a investigation_id = None /\
       get_investigation_history (fst r) investigation_id = Some h /\
       InvestigationHistory.investigation_id h = investigation_id /\
       InvestigationHistory.event_id h = Some event_id /\
       InvestigationHistory.report h = report /\
       InvestigationHistory.credibility_score h = score /\
       InvestigationHistory.started_at h = started_at /\
       InvestigationHistory.completed_at h = now) /\
    (forall other h,
       get_investigation_history a other = Some h ->
       get_investigation_history (fst r) other = Some h) /\
    Archive.store (fst r) = Archive.store a /\
    entities (fst r) = entities a.
Proof.
  intros eng a iid eid report score started_at now r. subst r.
  unfold save_investigation_result.
  destruct (get_investigation_history a iid) as [h0|] eqn:G.
  - cbn [fst snd]. split; [reflexivity|]. split; [discriminate|].
    split; [auto|]. split; reflexivity.
  - split; [discriminate|].
    destruct (enforce_foreign_keys eng && _); cbn [fst snd].
    + split; [discriminate|]. split; [auto|]. split; reflexivity.
    + split; [|split; [|split; reflexivity]].
      * intros h E. injection E as <-. split; [reflexivity|].
        split; [|repeat split].
        unfold get_investigation_history in *;
          cbn [investigation_history].
        rewrite (find_app_none _ _ _ G). cbn.
        now rewrite String.eqb_refl.
      * intros other h E.
        unfold get_investigation_history in *;
          cbn [investigation_history].
        now apply find_app_some.
Qed.

(** X23 at concrete inputs. *)
Lemma investigation_history_is_write_once_witness :
  exists h,
    get_investigation_history
      (fst (save_investigation_result strict_engine Samples.archive "INV-002"
              "E" (PyDict []) 53%Q 1 9)) "INV-002" = Some h /\
    InvestigationHistory.credibility_score h = 53%Q /\
    InvestigationHistory.completed_at h = 9.
Proof.
  destruct (investigation_history_is_write_once strict_engine
              Samples.archive "INV-002" "E" (PyDict []) 53%Q 1 9)
    as (_ & H & _).
  destruct (H _ eq_refl) as (_ & H2 & _ & _ & _ & H6 & _ & H8).
  eexists. split; [exact H2|]. split; [exact H6|exact H8].
Defined.

(** ** get_trending_sources without a binding limit *)

(** X24.  With a limit of at least the number of sources, on an engine that
    honours ORDER BY, [get_trending_sources] returns the summaries of all
    sources, each once, by descending [total_claims]. *)
Theorem get_trending_sources_lists_all :
  forall (eng : Engine) (st : Store) (limit : Z),
    order_by_contract eng ->
    Z.of_nat (List.length (sources st)) <= limit ->
    exists rows,
      get_trending_sources eng st limit
        = Returned (map source_summary rows) /\
      Permutation (sources st) rows /\
      StronglySorted desc_by_total_claims rows.
Proof.
  intros eng st limit Hc Hl.
  destruct (Hc Source.total_claims (sources st)) as [Hp Hs].
  exists (order_by_desc eng Source.total_claims (sources st)).
  split; [|split; [exact Hp|exact Hs]].
  unfold get_trending_sources, sql_limit.
  destruct (Z.leb_spec 0 limit); [|lia].
  rewrite firstn_all2; [reflexivity|].
  rewrite <- (Permutation_length Hp). lia.
Qed.

(** X24 at concrete inputs. *)
Lemma get_trending_sources_lists_all_witness :
  exists rows,
    get_trending_sources lenient_engine Examples.three_claims 10
      = Returned (map source_summary rows) /\
    Permutation (sources Examples.three_claims) rows.
Proof.
  destruct (get_trending_sources_lists_all lenient_engine
              Examples.three_claims 10 lenient_engine_contract)
    as (rows & H1 & H2 & _).
  - simpl. lia.
  - exists rows. split; [exact H1|exact H2].
Defined.
